(** * Verification of the tile codec and the SumDB auditor

    The development follows the packages of the repository:

    - [Api]      : serverless/api/state.go (tile codec, in-tile node keys);
    - [Storage]  : serverless/internal/storage/tile.go (tile helpers);
    - [Compact]  : the compact-range hasher the auditor drives;
    - [Audit]    : package audit, the service that clones and checks the
                   SumDB (its Go source is the second document of
                   binary_transparency/README.md);
    - [strconv]  : the decimal numbers of the Go library, as the tile keys
                   use them;
    - [TileKeys] : serverless/internal/storage/tile.go (tile keys).

    Go values are embedded as follows.  A byte slice or a string is a
    [list byte]; [uint]/[uint64] values are numbers of type [N] and
    [int]/[int64] values numbers of type [Z], with the 64-bit wrap-around
    written out where an operation can overflow.  A Go function that returns
    an [error] returns an [outcome]: a normal return ([Ok]), a returned error
    ([Err]), a run-time panic ([Panic]) or no return at all ([Hang]). *)

From Stdlib Require Import Strings.Byte Strings.String.
From Stdlib Require Import ZArith NArith List Lia Bool.
From Equations Require Import Equations.
Import ListNotations.

Definition bytes := list byte.

Definition bytes_eq_dec : forall a b : bytes, {a = b} + {a <> b} :=
  list_eq_dec Byte.byte_eq_dec.

Definition bytes_eqb (a b : bytes) : bool :=
  if bytes_eq_dec a b then true else false.

(** ** Outcomes of Go calls *)

(** The run-time panics the modelled code can raise. *)
Inductive panic : Type :=
| IndexOutOfRange (index len : Z)
| SliceOutOfRange (bound len : Z)
| DivideByZero
| NegativeShift
| MakeSliceLen (len : Z)
| MakeChanSize (size : Z).

Inductive outcome (E A : Type) : Type :=
| Ok (a : A)
| Err (e : E)
| Panic (p : panic)
| Hang.

Arguments Ok {E A} a.
Arguments Err {E A} e.
Arguments Panic {E A} p.
Arguments Hang {E A}.

Definition bind {E A B} (m : outcome E A) (k : A -> outcome E B) : outcome E B :=
  match m with
  | Ok a => k a
  | Err e => Err e
  | Panic p => Panic p
  | Hang => Hang
  end.

Declare Scope go_scope.
Delimit Scope go_scope with go.
Notation "x <- m ;; k" := (bind m (fun x => k))
  (at level 61, m at next level, right associativity) : go_scope.
Notation "' p <- m ;; k" := (bind m (fun x => match x with p => k end))
  (at level 61, p pattern, m at next level, right associativity) : go_scope.

Definition isOk {E A} (m : outcome E A) : bool :=
  match m with Ok _ => true | _ => false end.

Definition isErr {E A} (m : outcome E A) : bool :=
  match m with Err _ => true | _ => false end.

Definition isPanic {E A} (m : outcome E A) : bool :=
  match m with Panic _ => true | _ => false end.

(** [s[i]] on a slice: a panic when [i] is out of range. *)
Definition index {E A} (l : list A) (i : nat) : outcome E A :=
  match nth_error l i with
  | Some a => Ok a
  | None => Panic (IndexOutOfRange (Z.of_nat i) (Z.of_nat (length l)))
  end.

(** [l[i] = x] on a slice: a panic when [i] is out of range. *)
Definition setAt {E A} (l : list A) (i : nat) (x : A) : outcome E (list A) :=
  if (i <? length l)%nat then Ok (firstn i l ++ x :: skipn (S i) l)
  else Panic (IndexOutOfRange (Z.of_nat i) (Z.of_nat (length l))).

(** [b[:n]] on a string: a panic when [n] is past its end. *)
Definition sliceTo {E} (b : bytes) (n : nat) : outcome E bytes :=
  if (n <=? length b)%nat then Ok (firstn n b)
  else Panic (SliceOutOfRange (Z.of_nat n) (Z.of_nat (length b))).

(** [copy(dst[off:], src)] for [off] within [dst]: as many bytes of [src]
    as fit. *)
Definition copyAt (dst : bytes) (off : nat) (src : bytes) : bytes :=
  firstn off dst ++ firstn (length dst - off) src ++ skipn (off + length src) dst.

(** The largest allocation of the Go runtime on a 64-bit platform, in
    bytes ([maxAlloc]: 48 address bits), and the size of the header of a
    channel ([hchanSize]).  An allocation below the limit is taken to
    succeed: running out of memory depends on the machine and is no part
    of the model. *)
Definition maxAlloc : Z := 2 ^ 48.
Definition hchanSize : Z := 96.

(** The sizes in bytes on a 64-bit platform of a byte, of a pointer, of a
    string (a pointer and a length) and of a slice (a pointer, a length
    and a capacity). *)
Definition sizeofByte : Z := 1.
Definition sizeofPointer : Z := 8.
Definition sizeofString : Z := 16.
Definition sizeofSlice : Z := 24.

(** [make([]T, n)] for a [T] of [size] bytes, filled with the zero value
    [z]: a panic ("makeslice: len out of range") for a negative length and
    for a length whose [n * size] bytes are more than [maxAlloc]. *)
Definition make {E A} (size : Z) (z : A) (n : Z) : outcome E (list A) :=
  if ((n <? 0) || (maxAlloc <? n * size))%Z then Panic (MakeSliceLen n)
  else Ok (repeat z (Z.to_nat n)).

(** [make(chan T, n)] for a [T] of [size] bytes: a panic ("makechan: size
    out of range") for a negative capacity and for a buffer whose
    [n * size] bytes are more than [maxAlloc - hchanSize].  The channel
    itself is part of the model of the goroutines that use it. *)
Definition makechan {E} (size : Z) (n : Z) : outcome E unit :=
  if ((n <? 0) || (maxAlloc - hchanSize <? n * size))%Z
  then Panic (MakeChanSize n)
  else Ok tt.

(** Unsigned 64-bit wrap-around. *)
Definition u64 (n : N) : N := (n mod 2 ^ 64)%N.

(** ** serverless/api/state.go *)
Module Api.

(** [Tile]: [NumLeaves] is a [uint]; an entry of [Nodes] is a byte slice
    that may be [nil] ([None]). *)
Record Tile : Type := mkTile {
  NumLeaves : N;
  Nodes : list (option bytes)
}.

Inductive error : Type :=
| ErrReadHashSize            (* "unable to read hashsize: EOF" *)
| ErrInvalidHashSize (hs : byte)   (* "invalid hash size %d" *)
| ErrReadNumLeaves           (* "unable to read numLeaves: EOF" *)
| ErrShortRead (n : nat).    (* "short read (%d bytes)" *)

(** The conversion [byte(x)] of an unsigned integer keeps its low 8 bits. *)
Definition byte_of_uint (n : N) : byte :=
  match Byte.of_N (n mod 256) with
  | Some b => b
  | None => x00
  end.

(** What [b.Write(n)] appends for a node: nothing for a [nil] slice. *)
Definition node_bytes (n : option bytes) : bytes :=
  match n with
  | Some b => b
  | None => []
  end.

(** [Tile.MarshalBinary]; the returned error is always [nil]. *)
Definition MarshalBinary (t : Tile) : outcome error bytes :=
  Ok (x20 :: byte_of_uint (NumLeaves t) :: concat (map node_bytes (Nodes t))).

(** [bytes.Buffer.Read] into a slice of [n] bytes on a non-empty buffer
    copies [min n (len buf)] bytes; [Buffer_Read] gives the bytes copied
    and [Buffer_rest] what is left in the buffer. *)
Definition Buffer_Read (n : nat) (buf : bytes) : bytes := firstn n buf.
Definition Buffer_rest (n : nat) (buf : bytes) : bytes := skipn n buf.

(** The read loop of [UnmarshalBinary], [hs] being 32 when it is reached:
    an empty buffer reads as [io.EOF] and ends the loop. *)
Equations? readNodes (buf : bytes) (nodes : list (option bytes))
  : outcome error (list (option bytes)) by wf (length buf) lt :=
  readNodes [] nodes := Ok nodes;
  readNodes (b :: buf') nodes with Nat.eqb (length (Buffer_Read 32 (b :: buf'))) 32 => {
    | true := readNodes (Buffer_rest 32 (b :: buf'))
                        (nodes ++ [Some (Buffer_Read 32 (b :: buf'))]);
    | false := Err (ErrShortRead (length (Buffer_Read 32 (b :: buf')))) }.
Proof.
  change (length (skipn 31 buf') < S (length buf')).
  rewrite length_skipn. lia.
Qed.

(** [Tile.UnmarshalBinary]: the decoded tile on success. *)
Definition UnmarshalBinary (raw : bytes) : outcome error Tile :=
  match raw with
  | [] => Err ErrReadHashSize
  | hs :: b1 =>
      if Byte.eqb hs x20 then
        match b1 with
        | [] => Err ErrReadNumLeaves
        | numLeaves :: b2 =>
            (nodes <- readNodes b2 [] ;;
             Ok (mkTile (Byte.to_N numLeaves) nodes))%go
        end
      else Err (ErrInvalidHashSize hs)
  end.

(** [TileNodeKey], in [uint64] arithmetic. *)
Definition TileNodeKey (level : N) (index : N) : N :=
  u64 (u64 (u64 (N.shiftl 1 (u64 (level + 1))) * index
            + u64 (N.shiftl 1 level))
       + (2 ^ 64 - 1))%N.

(** The key of node [(level, index)] is computed without wrap-around:
    [2^(level+1) * index + 2^level] does not exceed [2^64]. *)
Definition keyFits (level index : N) : Prop :=
  (2 ^ level * (2 * index + 1) <= 2 ^ 64)%N.

(** Encoding followed by decoding. *)
Definition decode_encode (t : Tile) : outcome error Tile :=
  (raw <- MarshalBinary t ;; UnmarshalBinary raw)%go.

(** The frames the decoder takes: a hash-size byte 32, a leaf-count byte,
    and a payload that is a whole number of 32-byte hashes. *)
Definition wellFramed (raw : bytes) : bool :=
  match raw with
  | hs :: _ :: payload => Byte.eqb hs x20 && (length payload mod 32 =? 0)%nat
  | _ => false
  end.

(** A node that holds a 32-byte hash. *)
Definition isHash (n : option bytes) : Prop :=
  exists b, n = Some b /\ length b = 32%nat.

(** A full tile of height 8: 256 leaves, 511 nodes in in-order layout. *)
Definition fullTile : Tile := mkTile 256 (repeat (Some (repeat x00 32)) 511).

End Api.

(** ** serverless/internal/storage/tile.go *)
Module Storage.

(** The scan of [TileSize]: [n] iterations are left and [i] is the loop
    variable.  Indexing [t.Nodes] out of range panics. *)
Fixpoint TileSize_loop (n : nat) (i : N) (t : Api.Tile) : outcome Empty_set N :=
  match n with
  | O => Ok 256%N
  | S n' =>
      (node <- index (Api.Nodes t) (N.to_nat (Api.TileNodeKey 0 i)) ;;
       match node with
       | None => Ok i
       | Some _ => TileSize_loop n' (u64 (i + 1)) t
       end)%go
  end.

(** [TileSize]: [for i := uint64(0); i < 256; i++]. *)
Definition TileSize (t : Api.Tile) : outcome Empty_set N :=
  TileSize_loop 256 0%N t.

(** Slot [j] of level 0 holds a hash. *)
Definition populated (t : Api.Tile) (j : N) : Prop :=
  exists h, nth_error (Api.Nodes t) (N.to_nat (2 * j)) = Some (Some h).

(** Slot [j] of level 0 is there and is [nil]. *)
Definition vacant (t : Api.Tile) (j : N) : Prop :=
  nth_error (Api.Nodes t) (N.to_nat (2 * j)) = Some None.

(** A tile of three leaves in a [Nodes] slice padded with [nil] to the
    full 511 entries, and a tile of one leaf that stores its one node. *)
Definition paddedTile : Api.Tile :=
  Api.mkTile 3 (repeat (Some (repeat x00 32)) 5 ++ repeat None 506).
Definition partialTile : Api.Tile :=
  Api.mkTile 1 [Some (repeat x00 32)].

(** [NodeCoordsToTileAddress], in [uint64] arithmetic: the tile
    [(tileLevel, tileIndex)] a tree node lies in, and its place
    [(nodeLevel, nodeIndex)] within that tile.  [8 - treeLevel%8] is at
    least 1 and at most 8, so the row width is never 0 and the division
    cannot panic. *)
Definition NodeCoordsToTileAddress (treeLevel treeIndex : N) : N * N * N * N :=
  let tileRowWidth := u64 (N.shiftl 1 (8 - treeLevel mod 8)) in
  let tileLevel := (treeLevel / 8)%N in
  let tileIndex := (treeIndex / tileRowWidth)%N in
  let nodeLevel := (treeLevel mod 8)%N in
  let nodeIndex := (treeIndex mod tileRowWidth)%N in
  (tileLevel, tileIndex, nodeLevel, nodeIndex).

End Storage.

(** ** Go integer arithmetic *)

Local Open Scope Z_scope.

(** Wrap-around of [uint64] and [int64] values held in [Z]. *)
Definition u64z (z : Z) : Z := z mod 2 ^ 64.
Definition i64 (z : Z) : Z := (z + 2 ^ 63) mod 2 ^ 64 - 2 ^ 63.

(** [x >> s] on an [int64]: an arithmetic shift; a negative count panics. *)
Definition shr {E} (x s : Z) : outcome E Z :=
  if s <? 0 then Panic NegativeShift else Ok (Z.shiftr x s).

(** [x << s] on an [int64] and on a [uint64]: bits shifted out are lost. *)
Definition shl {E} (x s : Z) : outcome E Z :=
  if s <? 0 then Panic NegativeShift else Ok (i64 (Z.shiftl x s)).
Definition shlu {E} (x s : Z) : outcome E Z :=
  if s <? 0 then Panic NegativeShift else Ok (u64z (Z.shiftl x s)).

(** [x / y] on signed integers truncates towards zero, on unsigned ones it
    is the Euclidean quotient; dividing by zero panics. *)
Definition quo {E} (x y : Z) : outcome E Z :=
  if y =? 0 then Panic DivideByZero else Ok (i64 (Z.quot x y)).
Definition quou {E} (x y : Z) : outcome E Z :=
  if y =? 0 then Panic DivideByZero else Ok (x / y).

(** ** golang.org/x/mod/sumdb/tlog *)
Module tlog.

(** [tlog.Tree]: a checkpoint, the tree size [N] (an [int64]) and the root
    hash [Hash] (a [[32]byte]). *)
Record Tree : Type := mkTree {
  N : Z;
  Hash : bytes
}.

End tlog.

(** What [copy(h[:], b)] leaves in a zeroed [tlog.Hash]: the first 32 bytes
    of [b], padded with zeros. *)
Definition toHash (b : bytes) : bytes := firstn 32 (b ++ repeat x00 32).

(** ** The compact-range hasher *)

(** The auditor drives package [compact] of the Trillian library, which is
    no part of the sources; the module follows section 4.D of the
    specification. *)
Module Compact.

(** Modelled from the spec: the range factory of the missing package
    [compact], which carries the merge operator [combine(l, r)]. *)
Record RangeFactory : Type := mkFactory {
  Hash : bytes -> bytes -> bytes
}.

(** Modelled from the spec: the compact range of the missing package
    [compact], a sub-sequence of leaves [[Begin, End)] held as a list of
    subtree roots, left to right.  A root is kept with the height of its
    subtree. *)
Record Range : Type := mkRange {
  Begin : Z;
  End : Z;
  roots : list (nat * bytes)
}.

Inductive error : Type :=
| ErrDisjoint (got want : Z)       (* the appended range is not adjacent *)
| ErrInvalidRange (b e : Z)        (* end < begin *)
| ErrHashCount (got want : nat)    (* wrong number of roots for the range *)
| ErrBeginNotZero (b : Z).         (* a root hash needs a range from 0 *)

(** Modelled from the spec: [Hashes()] of the missing package [compact],
    the roots of the range from left to right. *)
Definition Hashes (r : Range) : list bytes := map snd (roots r).

(** Modelled from the spec: [NewEmptyRange(begin)] of the missing package
    [compact], the zero-width range anchored at [begin]. *)
Definition NewEmptyRange (begin : Z) : Range := mkRange begin begin [].

(** Modelled from the spec: the merge rule of the missing package
    [compact] ("merges equal-height right-neighbours while carrying").
    [stack] holds the roots from right to left; the root [h] of height [k]
    whose subtree ends at leaf index [e] is merged with the root on its
    left as long as the two are siblings: they have the same height and
    their parent is aligned, that is [e] is a multiple of [2^(k+1)]. *)
Fixpoint carry (rf : RangeFactory) (stack : list (nat * bytes))
         (k : nat) (h : bytes) (e : Z) : list (nat * bytes) :=
  match stack with
  | (k', h') :: rest =>
      if Nat.eqb k' k && (e mod 2 ^ Z.of_nat (S k) =? 0)
      then carry rf rest (S k) (Hash rf h' h) e
      else (k, h) :: stack
  | [] => [(k, h)]
  end.

(** Modelled from the spec: [Append(hash)] of the missing package
    [compact]; it appends one leaf hash and carries. *)
Definition Append (rf : RangeFactory) (r : Range) (h : bytes)
  : outcome error Range :=
  Ok (mkRange (Begin r) (End r + 1)
              (rev (carry rf (rev (roots r)) 0 h (End r + 1)))).

(** Pushing the roots [ns] of a range that starts at [pos], one after the
    other, with the same merge rule. *)
Definition pushAll (rf : RangeFactory) (stack : list (nat * bytes))
           (pos : Z) (ns : list (nat * bytes)) : list (nat * bytes) * Z :=
  fold_left (fun (acc : list (nat * bytes) * Z) (n : nat * bytes) =>
               let e := snd acc + 2 ^ Z.of_nat (fst n) in
               (carry rf (fst acc) (fst n) (snd n) e, e))
            ns (stack, pos).

(** Modelled from the spec: [AppendRange(other)] of the missing package
    [compact]; it concatenates a right-adjacent range with the merge rule
    of [Append] on the seam, and fails, leaving the range as it is, when
    [other] does not start where the range ends. *)
Definition AppendRange (rf : RangeFactory) (r other : Range)
  : outcome error Range :=
  if Begin other =? End r then
    Ok (mkRange (Begin r) (End other)
                (rev (fst (pushAll rf (rev (roots r)) (End r) (roots other)))))
  else Err (ErrDisjoint (Begin other) (End r)).

(** The subtree of height [k] that starts at leaf [b] is aligned and lies
    within [[b, e)]. *)
Definition fits (b e : Z) (k : nat) : bool :=
  (b mod 2 ^ Z.of_nat k =? 0) && (b + 2 ^ Z.of_nat k <=? e).

(** The greatest height up to [n] that fits, 0 when none does. *)
Fixpoint largestFit (n : nat) (b e : Z) : nat :=
  match n with
  | O => O
  | S n' => if fits b e n then n else largestFit n' b e
  end.

(** The heights of the subtrees that cover [[b, e)], left to right: each
    is the largest aligned subtree that starts where the last one ends.
    A [uint64] range has at most 127 of them. *)
Fixpoint cover (fuel : nat) (b e : Z) : list nat :=
  match fuel with
  | O => []
  | S fuel' =>
      if b <? e then
        let k := largestFit 63 b e in
        k :: cover fuel' (b + 2 ^ Z.of_nat k) e
      else []
  end.

(** Modelled from the spec: [NewRange(begin, end, hashes)] of the missing
    package [compact]; the range [[begin, end)] with the given roots, which
    must be as many as the subtrees that cover the range. *)
Definition NewRange (b e : Z) (hashes : list bytes) : outcome error Range :=
  if e <? b then Err (ErrInvalidRange b e)
  else
    let heights := cover 128 b e in
    if Nat.eqb (length hashes) (length heights)
    then Ok (mkRange b e (combine heights hashes))
    else Err (ErrHashCount (length hashes) (length heights)).

(** Modelled from the spec: [GetRootHash()] of the missing package
    [compact]; it combines the roots pairwise from right to left,
    returns [nil] for the empty range, and needs a range that starts at
    leaf 0. *)
Definition GetRootHash (rf : RangeFactory) (r : Range) : outcome error bytes :=
  if Begin r =? 0 then
    match rev (Hashes r) with
    | [] => Ok []
    | h :: rest => Ok (fold_left (fun acc x => Hash rf x acc) rest h)
    end
  else Err (ErrBeginNotZero (Begin r)).

(** The root of the perfect subtree of height [k] over the [2^k] hashes
    of [l]. *)
Fixpoint perfectRoot (rf : RangeFactory) (k : nat) (l : list bytes) : bytes :=
  match k with
  | O => hd [] l
  | S k' => Hash rf (perfectRoot rf k' (firstn (2 ^ k') l))
                    (perfectRoot rf k' (skipn (2 ^ k') l))
  end.

End Compact.

(** ** The audit service (package audit) *)
Module Audit.

(** Modelled from the spec: the constant [HashLenBytes], declared outside
    the sources; invariant (I1) fixes the hash size at 32 bytes. *)
Definition HashLenBytes : Z := 32.

(** Modelled from the spec: the struct [Metadata], declared outside the
    sources; the service fills it positionally with the module, the
    version, the repository hash and the go.mod hash of a leaf. *)
Record Metadata : Type := mkMetadata {
  module : bytes;
  version : bytes;
  repoHash : bytes;
  modHash : bytes
}.

(** The size in bytes of a [Metadata]: four strings. *)
Definition sizeofMetadata : Z := 4 * sizeofString.

(** The errors of the service: those of its collaborators and one
    constructor for each error the service makes itself.  In the terms of
    the specification [ErrStore] is a StoreFault, [ErrMoreLeavesLocally]
    is RemoteRegressed, [ErrHashDifference] is HashMismatch,
    [ErrRootMismatch] is RootMismatch, and the two [ErrMismatched...] are
    MetadataMismatch. *)
Inductive error : Type :=
| ErrNoRows                                  (* sql.ErrNoRows *)
| ErrStore (msg : string)                    (* any other failure of the local database *)
| ErrRemote (msg : string)                   (* a failure of the SumDB client *)
| ErrCompact (e : Compact.error)             (* a failure of the compact range *)
| ErrMoreLeavesLocally (head n : Z)          (* "illegal state; more leaves locally (%d) than in SumDB (%d)" *)
| ErrWriteLeaves (e : error)                 (* "WriteLeaves: %w" *)
| ErrFailedToHash (e : error)                (* "failed to hash: %v" *)
| ErrGetTile (level offset : Z) (e : error)  (* "failed to get tile L=%d, O=%d: %v" *)
| ErrCreateRange (level offset : Z) (e : error) (* "failed to create range for tile L=%d, O=%d: %v" *)
| ErrGetStragglers (e : error)               (* "failed to get stragglers: %v" *)
| ErrCalculation (found expected : Z)        (* "calculation error, found %d leaves but expected %d" *)
| ErrGetRootHash (e : error)                 (* "failed to get root hash: %v" *)
| ErrRootMismatch (n : Z) (calculated want : bytes) (* "log root mismatch at tree size %d; calculated %x, SumDB says %x" *)
| ErrMismatchedModule (leafID : Z) (got want : bytes)  (* "mismatched module names at %d: (%s, %s)" *)
| ErrMismatchedVersion (leafID : Z) (got want : bytes) (* "mismatched version names at %d: (%s, %s)" *)
| ErrGetLeaves (e : error)                   (* "failed to get leaves from DB: %v" *)
| ErrSingleRoot (got : Z)                    (* "expected single root hash but got %d" *)
| ErrHashDifference (level offset leaf : Z)  (* "got diffence in hash at L=%d, O=%d, leaf=%d" *)
| ErrSetTile (level offset : Z) (e : error). (* "failed to set tile at L=%d, O=%d: %v" *)

(** [err == sql.ErrNoRows]. *)
Definition isNoRows (e : error) : bool :=
  match e with ErrNoRows => true | _ => false end.

(** Modelled from the spec: the local database (type [Database], outside
    the sources) through the operations of section 4.B.  A read returns a
    value or fails; a write returns the database it leaves or fails and
    leaves the database as it was. *)
Class LocalStore (DB : Type) : Type := {
  Head : DB -> outcome error Z;
  WriteLeaves : DB -> Z -> list bytes -> outcome error DB;
  Leaves : DB -> Z -> Z -> outcome error (list bytes);
  Tile : DB -> Z -> Z -> Z -> outcome error (list bytes);
  SetTile : DB -> Z -> Z -> Z -> bytes -> outcome error DB;
  SetLeafMetadata : DB -> Z -> list Metadata -> outcome error DB
}.

(** Modelled from the spec: the SumDB client (type [SumDBClient], outside
    the sources) through the operations of section 4.C that the service
    calls.  The value of type [SumDB] fixes what the remote log answers. *)
Class RemoteLog (SumDB : Type) : Type := {
  FullLeavesAtOffset : SumDB -> Z -> outcome error (list bytes);
  PartialLeavesAtOffset : SumDB -> Z -> Z -> outcome error (list bytes)
}.

(** [getLevelsForLeafCount]: the loop.  [coveredIdx] is an [int64], so 64
    iterations bring it to 0 whenever shifting does; running out of [fuel]
    stands for a loop that does not end (a height of 0). *)
Fixpoint getLevels_loop (fuel : nat) (height coveredIdx topLevel : Z)
  : outcome error Z :=
  if 0 <? coveredIdx then
    match fuel with
    | O => Hang
    | S fuel' =>
        getLevels_loop fuel' height (Z.shiftr coveredIdx height) (topLevel + 1)
    end
  else Ok topLevel.

(** [Service.getLevelsForLeafCount]. *)
Definition getLevelsForLeafCount (height leaves : Z) : outcome error Z :=
  (coveredIdx <- shr leaves height ;;
   getLevels_loop 64 height coveredIdx (-1))%go.

Section Service.

Context {DB SumDB : Type} {store : LocalStore DB} {remote : RemoteLog SumDB}.

(** [tlog.NodeHash] and [tlog.RecordHash]: SHA-256 of [0x01 || l || r]
    and of [0x00 || leaf], taken as given. *)
Variable NodeHash : bytes -> bytes -> bytes.
Variable RecordHash : bytes -> bytes.

(** [Service]. *)
Record Service : Type := mkService {
  localDB : DB;
  sumDB : SumDB;
  rf : Compact.RangeFactory;
  height : Z
}.

(** [NewService]: the factory hashes two nodes with [tlog.NodeHash]
    after copying each into a [tlog.Hash]. *)
Definition NewService (localDB : DB) (sumDB : SumDB) (height : Z) : Service :=
  mkService localDB sumDB
            (Compact.mkFactory (fun left right =>
                                  NodeHash (toHash left) (toHash right)))
            height.

(** [r.Append(h, nil)] and [r.AppendRange(other, nil)] as the service
    calls them: the returned error is dropped, and a failed call leaves
    the range as it was. *)
Definition appendHash (f : Compact.RangeFactory) (r : Compact.Range)
           (h : bytes) : Compact.Range :=
  match Compact.Append f r h with
  | Ok r' => r'
  | _ => r
  end.

Definition appendRange (f : Compact.RangeFactory) (r other : Compact.Range)
  : Compact.Range :=
  match Compact.AppendRange f r other with
  | Ok r' => r'
  | _ => r
  end.

(** [for _, t := range hashes { r.Append(t, nil) }]. *)
Definition appendAll (f : Compact.RangeFactory) (r : Compact.Range)
           (hashes : list bytes) : Compact.Range :=
  fold_left (appendHash f) hashes r.

(** An error of a collaborator, wrapped by the service. *)
Definition wrap {A} (w : error -> error) (m : outcome error A)
  : outcome error A :=
  match m with
  | Err e => Err (w e)
  | _ => m
  end.

(** [CheckRootHash]: the loop over the tiles of one stratum, [n]
    iterations from [offset] on. *)
Fixpoint tileLoop (s : Service) (level tileLeafCount : Z) (n : nat)
         (offset : Z) (logRange : Compact.Range)
  : outcome error Compact.Range :=
  match n with
  | O => Ok logRange
  | S n' =>
      (tHashes <- wrap (ErrGetTile level offset)
                       (Tile (localDB s) (height s) level offset) ;;
       let tcr := appendAll (rf s) (Compact.NewEmptyRange 0) tHashes in
       treeRange <-
         match Compact.NewRange (u64z (u64z offset * tileLeafCount))
                                (u64z (u64z (offset + 1) * tileLeafCount))
                                (Compact.Hashes tcr) with
         | Ok r => Ok r
         | Err e => Err (ErrCreateRange level offset (ErrCompact e))
         | Panic p => Panic p
         | Hang => Hang
         end ;;
       tileLoop s level tileLeafCount n' (offset + 1)
                (appendRange (rf s) logRange treeRange))%go
  end.

(** [CheckRootHash]: the loop over the strata; with [n] strata left the
    stratum at hand is [n - 1]. *)
Fixpoint levelLoop (s : Service) (checkpoint : tlog.Tree) (n : nat)
         (logRange : Compact.Range) : outcome error Compact.Range :=
  match n with
  | O => Ok logRange
  | S n' =>
      let level := Z.of_nat n' in
      (tileLeafCount <- shlu 1 ((level + 1) * height s) ;;
       q <- quou (u64z (tlog.N checkpoint)) tileLeafCount ;;
       let levelTileCount := i64 q in
       let firstTileOffset := i64 (Compact.End logRange / tileLeafCount) in
       logRange' <- tileLoop s level tileLeafCount
                             (Z.to_nat (levelTileCount - firstTileOffset))
                             firstTileOffset logRange ;;
       levelLoop s checkpoint n' logRange')%go
  end.

(** [CheckRootHash], up to the stragglers: the range of the stored
    tiles. *)
Definition tiledRange (s : Service) (checkpoint : tlog.Tree)
  : outcome error Compact.Range :=
  (K <- getLevelsForLeafCount (height s) (tlog.N checkpoint) ;;
   levelLoop s checkpoint (Z.to_nat (K + 1)) (Compact.NewEmptyRange 0))%go.

(** [CheckRootHash]: the stragglers asked of the SumDB for the range of
    the stored tiles. *)
Definition fetchStragglers (s : Service) (checkpoint : tlog.Tree)
           (logRange : Compact.Range) : outcome error (list bytes) :=
  (let stragglersCount :=
     i64 (u64z (u64z (tlog.N checkpoint) - Compact.End logRange)) in
   tileWidth <- shl 1 (height s) ;;
   stragglerTileOffset <- quo (tlog.N checkpoint) tileWidth ;;
   wrap ErrGetStragglers
        (PartialLeavesAtOffset (sumDB s) stragglerTileOffset stragglersCount))%go.

(** [CheckRootHash]: the range with the stragglers appended. *)
Definition withStragglers (s : Service) (logRange : Compact.Range)
           (stragglers : list bytes) : Compact.Range :=
  appendAll (rf s) logRange (map RecordHash stragglers).

(** [CheckRootHash]: the final checks on the range. *)
Definition checkRange (s : Service) (checkpoint : tlog.Tree)
           (logRange : Compact.Range) : outcome error unit :=
  if Compact.End logRange =? u64z (tlog.N checkpoint) then
    (root <- match Compact.GetRootHash (rf s) logRange with
             | Ok r => Ok r
             | Err e => Err (ErrGetRootHash (ErrCompact e))
             | Panic p => Panic p
             | Hang => Hang
             end ;;
     let rootHash := toHash root in
     if bytes_eqb rootHash (tlog.Hash checkpoint) then Ok tt
     else Err (ErrRootMismatch (tlog.N checkpoint) root (tlog.Hash checkpoint)))%go
  else Err (ErrCalculation (Compact.End logRange) (tlog.N checkpoint)).

(** The local store holds the tiles for a checkpoint: every full tile
    of every stratum is there, with its [2^height] hashes. *)
Definition holdsTiles (s : Service) (checkpoint : tlog.Tree) : Prop :=
  forall level offset,
    0 <= level ->
    0 <= offset < tlog.N checkpoint / 2 ^ ((level + 1) * height s) ->
    exists hashes,
      Tile (localDB s) (height s) level offset = Ok hashes
      /\ Z.of_nat (length hashes) = 2 ^ height s.

(** The local store holds a tile: it gives its [2^height] hashes. *)
Definition holdsTile (s : Service) (tile : Z * Z) (hashes : list bytes) : Prop :=
  Tile (localDB s) (height s) (fst tile) (snd tile) = Ok hashes
  /\ Z.of_nat (length hashes) = 2 ^ height s.

(** [Service.CheckRootHash]. *)
Definition CheckRootHash (s : Service) (checkpoint : tlog.Tree)
  : outcome error unit :=
  (logRange <- tiledRange s checkpoint ;;
   stragglers <- fetchStragglers s checkpoint logRange ;;
   checkRange s checkpoint (withStragglers s logRange stragglers))%go.

(** What a run does to its collaborators, in order: the remote fetches
    whose result the service received, and the writes it attempted. *)
Inductive event : Type :=
| Fetched (offset : Z)
| Wrote (start : Z).

(** The state a phase ends in: the local database, the events so far
    and the result. *)
Definition run (A : Type) : Type := (DB * list event * outcome error A)%type.

(** [CloneLeafTiles]: the loop that receives the chunks and writes them,
    [n] chunks from chunk [i] on.  The producer fetches chunk
    [startOffset + i] under [backoff.Retry]; [FullLeavesAtOffset] stands
    for the final result of the retried fetch.  The two unbuffered
    channels hand the results over one at a time and in request order. *)
Fixpoint cloneLoop (s : Service) (tileWidth startOffset : Z) (n : nat)
         (i : Z) (db : DB) (trace : list event) : run unit :=
  match n with
  | O => (db, trace, Ok tt)
  | S n' =>
      let offset := i64 (startOffset + i) in
      match FullLeavesAtOffset (sumDB s) offset with
      | Ok leaves =>
          let start := i64 (offset * tileWidth) in
          let trace' := trace ++ [Fetched offset; Wrote start] in
          match WriteLeaves db start leaves with
          | Ok db' => cloneLoop s tileWidth startOffset n' (i + 1) db' trace'
          | Err e => (db, trace', Err (ErrWriteLeaves e))
          | Panic p => (db, trace', Panic p)
          | Hang => (db, trace', Hang)
          end
      | Err e => (db, trace ++ [Fetched offset], Err e)
      | Panic p => (db, trace ++ [Fetched offset], Panic p)
      | Hang => (db, trace ++ [Fetched offset], Hang)
      end
  end.

(** [CloneLeafTiles] from the statement [if checkpoint.N < head] on. *)
Definition cloneFrom (s : Service) (checkpoint : tlog.Tree) (head : Z)
  : run unit :=
  let db := localDB s in
  if tlog.N checkpoint <? head then
    (db, [], Err (ErrMoreLeavesLocally head (tlog.N checkpoint)))
  else
    let localLeaves := i64 (head + 1) in
    match shl (E := error) 1 (height s) with
    | Ok tileWidth =>
        let remainingLeaves := i64 (tlog.N checkpoint - localLeaves) in
        match quo (E := error) remainingLeaves tileWidth with
        | Ok remainingChunks =>
            match quo (E := error) localLeaves tileWidth with
            | Ok startOffset =>
                if 0 <? remainingChunks then
                  cloneLoop s tileWidth startOffset
                            (Z.to_nat remainingChunks) 0 db []
                else (db, [], Ok tt)
            | Err e => (db, [], Err e)
            | Panic p => (db, [], Panic p)
            | Hang => (db, [], Hang)
            end
        | Err e => (db, [], Err e)
        | Panic p => (db, [], Panic p)
        | Hang => (db, [], Hang)
        end
    | Err e => (db, [], Err e)
    | Panic p => (db, [], Panic p)
    | Hang => (db, [], Hang)
    end.

(** [Service.CloneLeafTiles]: an error of [Head] is logged ("failed to
    find head of database, assuming empty and starting from scratch")
    and the head taken to be -1. *)
Definition CloneLeafTiles (s : Service) (checkpoint : tlog.Tree) : run unit :=
  match Head (localDB s) with
  | Ok head => cloneFrom s checkpoint head
  | Err _ => cloneFrom s checkpoint (-1)
  | Panic p => (localDB s, [], Panic p)
  | Hang => (localDB s, [], Hang)
  end.

(** A phase that reads and writes the local database: the database it
    leaves and its result. *)
Definition bindS {A B} (m : DB * outcome error A)
           (k : DB -> A -> DB * outcome error B) : DB * outcome error B :=
  match m with
  | (db, Ok a) => k db a
  | (db, Err e) => (db, Err e)
  | (db, Panic p) => (db, Panic p)
  | (db, Hang) => (db, Hang)
  end.

(** A write to the database: on failure the database is as it was. *)
Definition write (db : DB) (m : outcome error DB) : DB * outcome error unit :=
  match m with
  | Ok db' => (db', Ok tt)
  | Err e => (db, Err e)
  | Panic p => (db, Panic p)
  | Hang => (db, Hang)
  end.

(** [hashLeafTile]: the loop over the leaves read, [i] being the index
    of the first of [leaves]. *)
Fixpoint hashLeaves (leaves : list bytes) (i : nat) (res : list bytes)
         (leafHashes : bytes) : outcome error (list bytes * bytes) :=
  match leaves with
  | [] => Ok (res, leafHashes)
  | l :: rest =>
      let recordHash := RecordHash l in
      (res' <- setAt res i recordHash ;;
       hashLeaves rest (S i) res'
                  (copyAt leafHashes (i * Z.to_nat HashLenBytes) recordHash))%go
  end.

(** [Service.hashLeafTile]. *)
Definition hashLeafTile (s : Service) (db : DB) (offset : Z)
  : DB * outcome error (list bytes) :=
  bindS (db, shl 1 (height s)) (fun db tileWidth =>
  bindS (db, wrap ErrGetLeaves
                  (Leaves db (i64 (tileWidth * offset)) tileWidth))
        (fun db leaves =>
  bindS (db, make sizeofSlice [] tileWidth) (fun db res =>
  bindS (db, make sizeofByte x00 (i64 (tileWidth * HashLenBytes)))
        (fun db leafHashes =>
  bindS (db, hashLeaves leaves 0 res leafHashes) (fun db filled =>
  bindS (write db (SetTile db (height s) 0 offset (snd filled)))
        (fun db _ => (db, Ok (fst filled)))))))).

(** What one stratum of [HashTiles] did: the roots it sent up, the
    number of roots it received, and how it ended, where [Hang] stands
    for a receive that blocks for ever. *)
Record stratum : Type := mkStratum {
  emitted : list Compact.Range;
  received : nat;
  ended : outcome error unit
}.

(** [hashLeafLevel]: [n] tiles from [offset] on; [sent] are the roots
    sent so far. *)
Fixpoint hashLeafLevel_loop (s : Service) (n : nat) (offset : Z) (db : DB)
         (sent : list Compact.Range) : DB * stratum :=
  match n with
  | O => (db, mkStratum sent 0 (Ok tt))
  | S n' =>
      let read :=
        match Tile db (height s) 0 offset with
        | Err e => if isNoRows e then hashLeafTile s db offset
                   else (db, Err e)
        | r => (db, r)
        end in
      match read with
      | (db1, Ok hashes) =>
          match shlu (E := error) (u64z (u64z offset * 1)) (height s) with
          | Ok begin =>
              let cr := appendAll (rf s) (Compact.NewEmptyRange begin) hashes in
              let got := Z.of_nat (length (Compact.Hashes cr)) in
              if got =? 1
              then hashLeafLevel_loop s n' (offset + 1) db1 (sent ++ [cr])
              else (db1, mkStratum sent 0 (Err (ErrSingleRoot got)))
          | Err e => (db1, mkStratum sent 0 (Err e))
          | Panic p => (db1, mkStratum sent 0 (Panic p))
          | Hang => (db1, mkStratum sent 0 Hang)
          end
      | (db1, Err e) => (db1, mkStratum sent 0 (Err e))
      | (db1, Panic p) => (db1, mkStratum sent 0 (Panic p))
      | (db1, Hang) => (db1, mkStratum sent 0 Hang)
      end
  end.

(** [Service.hashLeafLevel]. *)
Definition hashLeafLevel (s : Service) (tileCount : Z) (db : DB)
  : DB * stratum :=
  hashLeafLevel_loop s (Z.to_nat tileCount) 0 db [].

(** [hashUpperLevel]: the loop over the slots of one tile, [n] slots
    from slot [i] on.  [input] are the roots still to come from the
    stratum below, [found] the stored hashes of the tile if there are
    any.  The result is the rest of the input with how the loop ended. *)
Fixpoint gatherTile (level offset : Z) (found : option (list bytes))
         (n : nat) (i : nat) (input : list Compact.Range)
         (inHashes : list bytes) (tileHashBlob : bytes)
  : list Compact.Range * outcome error (list bytes * bytes) :=
  match n with
  | O => (input, Ok (inHashes, tileHashBlob))
  | S n' =>
      match input with
      | [] => ([], Hang)
      | cr :: input' =>
          let step :=
            (h <- index (Compact.Hashes cr) 0 ;;
             inHashes' <- setAt inHashes i h ;;
             let blob' := copyAt tileHashBlob (i * Z.to_nat HashLenBytes) h in
             match found with
             | Some dbTileHashes =>
                 d <- index dbTileHashes i ;;
                 if bytes_eqb d h then Ok (inHashes', blob')
                 else Err (ErrHashDifference level offset (Z.of_nat i))
             | None => Ok (inHashes', blob')
             end)%go in
          match step with
          | Ok (inHashes', blob') =>
              gatherTile level offset found n' (S i) input' inHashes' blob'
          | Err e => (input', Err e)
          | Panic p => (input', Panic p)
          | Hang => (input', Hang)
          end
      end
  end.

(** [hashUpperLevel]: [n] tiles from [offset] on.  The two buffers
    [inHashes] and [tileHashBlob] are made once and used for every
    tile. *)
Fixpoint hashUpperLevel_loop (s : Service) (level tileWidth : Z) (n : nat)
         (offset : Z) (db : DB) (input : list Compact.Range) (taken : nat)
         (inHashes : list bytes) (tileHashBlob : bytes)
         (sent : list Compact.Range) : DB * stratum :=
  match n with
  | O => (db, mkStratum sent taken (Ok tt))
  | S n' =>
      let lookup :=
        match Tile db (height s) level offset with
        | Ok dbTileHashes => Ok (Some dbTileHashes)
        | Err e => if isNoRows e then Ok None else Err e
        | Panic p => Panic p
        | Hang => Hang
        end in
      match lookup with
      | Ok found =>
          let '(input', gathered) :=
            gatherTile level offset found (Z.to_nat tileWidth) 0 input
                       inHashes tileHashBlob in
          let taken' := (taken + (length input - length input'))%nat in
          match gathered with
          | Ok (inHashes', blob') =>
              let stored :=
                match found with
                | Some _ => (db, Ok tt)
                | None =>
                    write db (wrap (ErrSetTile level offset)
                                   (SetTile db (height s) level offset blob'))
                end in
              match stored with
              | (db1, Ok _) =>
                  let cr := appendAll (rf s)
                              (Compact.NewEmptyRange
                                 (u64z (i64 (offset * tileWidth))))
                              inHashes' in
                  let got := Z.of_nat (length (Compact.Hashes cr)) in
                  if got =? 1
                  then hashUpperLevel_loop s level tileWidth n' (offset + 1)
                         db1 input' taken' inHashes' blob' (sent ++ [cr])
                  else (db1, mkStratum sent taken' (Err (ErrSingleRoot got)))
              | (db1, Err e) => (db1, mkStratum sent taken' (Err e))
              | (db1, Panic p) => (db1, mkStratum sent taken' (Panic p))
              | (db1, Hang) => (db1, mkStratum sent taken' Hang)
              end
          | Err e => (db, mkStratum sent taken' (Err e))
          | Panic p => (db, mkStratum sent taken' (Panic p))
          | Hang => (db, mkStratum sent taken' Hang)
          end
      | Err e => (db, mkStratum sent taken (Err e))
      | Panic p => (db, mkStratum sent taken (Panic p))
      | Hang => (db, mkStratum sent taken Hang)
      end
  end.

(** [Service.hashUpperLevel], fed with the roots the stratum below
    sends. *)
Definition hashUpperLevel (s : Service) (level tileCount : Z)
           (input : list Compact.Range) (db : DB) : DB * stratum :=
  match shl (E := error) 1 (height s) with
  | Ok tileWidth =>
      match make (E := error) sizeofSlice ([] : bytes) tileWidth,
            make (E := error) sizeofByte x00 (i64 (tileWidth * HashLenBytes)) with
      | Ok inHashes, Ok tileHashBlob =>
          hashUpperLevel_loop s level tileWidth (Z.to_nat tileCount) 0 db
                              input 0 inHashes tileHashBlob []
      | Panic p, _ | _, Panic p => (db, mkStratum [] 0 (Panic p))
      | Err e, _ | _, Err e => (db, mkStratum [] 0 (Err e))
      | _, _ => (db, mkStratum [] 0 Hang)
      end
  | Err e => (db, mkStratum [] 0 (Err e))
  | Panic p => (db, mkStratum [] 0 (Panic p))
  | Hang => (db, mkStratum [] 0 Hang)
  end.

(** [HashTiles]: the loop that starts the upper strata, [n] strata from
    [level] on, each fed by the one started before it through a channel
    [outRoots] of capacity [tileWidth] made for it.  The strata run
    side by side in the program and touch different tiles; here each
    runs when the one below is done. *)
Fixpoint upperLevels (s : Service) (tileWidth : Z) (n : nat) (level : Z)
         (tileCount : Z) (input : list Compact.Range) (db : DB)
         (strata : list stratum) : DB * outcome error (list stratum) :=
  match n with
  | O => (db, Ok strata)
  | S n' =>
      match quo (E := error) tileCount tileWidth with
      | Ok tileCount' =>
          match makechan (E := error) sizeofPointer tileWidth with
          | Ok _ =>
              let '(db', st) := hashUpperLevel s level tileCount' input db in
              upperLevels s tileWidth n' (level + 1) tileCount' (emitted st) db'
                          (strata ++ [st])
          | Err e => (db, Err e)
          | Panic p => (db, Panic p)
          | Hang => (db, Hang)
          end
      | Err e => (db, Err e)
      | Panic p => (db, Panic p)
      | Hang => (db, Hang)
      end
  end.

(** A send on a channel of capacity [tileWidth] blocks for ever when the
    receiver, which took [taken] roots, is done and more than
    [tileWidth] further roots are sent. *)
Definition sendBlocks (tileWidth : Z) (st : stratum) (taken : nat) : bool :=
  Z.of_nat taken + tileWidth <? Z.of_nat (length (emitted st)).

(** The strata of which a goroutine never returns: a blocked receive or
    a blocked send.  Nothing receives from the top stratum. *)
Fixpoint stuck (tileWidth : Z) (strata : list stratum) : bool :=
  match strata with
  | [] => false
  | st :: above =>
      match ended st with Hang => true | _ => false end
      || sendBlocks tileWidth st
                    match above with
                    | [] => O
                    | next :: _ => received next
                    end
      || stuck tileWidth above
  end.

(** [g.Wait()]: a panic in a goroutine ends the program; a goroutine
    that never returns keeps [Wait] from returning; otherwise [Wait]
    returns an error of a stratum that failed (the lowest one here, the
    first in time in the program), or [nil]. *)
Definition Wait (tileWidth : Z) (strata : list stratum) : outcome error unit :=
  match find (fun st => isPanic (ended st)) strata with
  | Some st => ended st
  | None =>
      if stuck tileWidth strata then Hang
      else match find (fun st => isErr (ended st)) strata with
           | Some st => ended st
           | None => Ok tt
           end
  end.

(** [Service.HashTiles].  The channel [roots] is made before the first
    goroutine is started. *)
Definition HashTiles (s : Service) (checkpoint : tlog.Tree)
  : DB * outcome error unit :=
  bindS (localDB s, shl 1 (height s)) (fun db tileWidth =>
  bindS (db, quo (tlog.N checkpoint) tileWidth) (fun db tileCount =>
  bindS (db, makechan sizeofPointer tileWidth) (fun db _ =>
  let '(db0, leafLevel) := hashLeafLevel s tileCount db in
  bindS (db0, getLevelsForLeafCount (height s) (tlog.N checkpoint)) (fun db K =>
  bindS (upperLevels s tileWidth (Z.to_nat K) 1 tileCount
                     (emitted leafLevel) db [leafLevel])
        (fun db strata =>
           (db, wrap ErrFailedToHash (Wait tileWidth strata))))))).

(** [strings.Split(s, sep)] for a separator of one byte. *)
Fixpoint Split (s : bytes) (sep : byte) : list bytes :=
  match s with
  | [] => [[]]
  | c :: s' =>
      if Byte.eqb c sep then [] :: Split s' sep
      else match Split s' sep with
           | cur :: rest => (c :: cur) :: rest
           | [] => [[c]]
           end
  end.

(** [ProcessMetadata]: the body of the loop over the leaves of a tile,
    for the leaf [h] of index [leafID]. *)
Definition parseLeaf (leafID : Z) (h : bytes) : outcome error Metadata :=
  (let lines := Split h x0a in
   line0 <- index lines 0 ;;
   let tokens := Split line0 x20 in
   module <- index tokens 0 ;;
   version <- index tokens 1 ;;
   repoHash <- index tokens 2 ;;
   line1 <- index lines 1 ;;
   let tokens := Split line1 x20 in
   got <- index tokens 0 ;;
   if bytes_eqb got module then
     token1 <- index tokens 1 ;;
     got <- sliceTo token1 (length version) ;;
     if bytes_eqb got version then
       modHash <- index tokens 2 ;;
       Ok (mkMetadata module version repoHash modHash)
     else Err (ErrMismatchedVersion leafID got version)
   else Err (ErrMismatchedModule leafID got module))%go.

(** [ProcessMetadata]: the loop over the leaves of a tile, [i] being the
    index in the tile of the first of [hashes]. *)
Fixpoint parseLeaves (leafOffset : Z) (hashes : list bytes) (i : nat)
         (metadata : list Metadata) : outcome error (list Metadata) :=
  match hashes with
  | [] => Ok metadata
  | h :: rest =>
      (m <- parseLeaf (i64 (leafOffset + Z.of_nat i)) h ;;
       metadata' <- setAt metadata i m ;;
       parseLeaves leafOffset rest (S i) metadata')%go
  end.

(** [ProcessMetadata]: one tile.  The slice [metadata] is made once and
    used for every tile. *)
Definition processTile (tileWidth offset : Z) (db : DB)
           (metadata : list Metadata) : DB * outcome error (list Metadata) :=
  let leafOffset := i64 (offset * tileWidth) in
  bindS (db, Leaves db leafOffset tileWidth) (fun db hashes =>
  bindS (db, parseLeaves leafOffset hashes 0 metadata) (fun db metadata' =>
  bindS (write db (SetLeafMetadata db leafOffset metadata'))
        (fun db _ => (db, Ok metadata')))).

(** [ProcessMetadata]: the loop over the tiles, [n] tiles from [offset]
    on. *)
Fixpoint metadataLoop (tileWidth : Z) (n : nat) (offset : Z) (db : DB)
         (metadata : list Metadata) : DB * outcome error unit :=
  match n with
  | O => (db, Ok tt)
  | S n' =>
      bindS (processTile tileWidth offset db metadata) (fun db metadata' =>
      metadataLoop tileWidth n' (offset + 1) db metadata')
  end.

(** [Service.ProcessMetadata]. *)
Definition ProcessMetadata (s : Service) (checkpoint : tlog.Tree)
  : DB * outcome error unit :=
  bindS (localDB s, shl 1 (height s)) (fun db tileWidth =>
  bindS (db, make sizeofMetadata (mkMetadata [] [] [] []) tileWidth)
        (fun db metadata =>
  bindS (db, quo (tlog.N checkpoint) tileWidth) (fun db tileCount =>
  metadataLoop tileWidth (Z.to_nat tileCount) 0 db metadata))).

End Service.

(** *** The range of the root check, append by append *)



(** The range of the tile of stratum [level] at [offset] that holds
    [hashes]: the [2^((level+1)*H)] leaves of the tile under one root,
    the root of the perfect subtree over the hashes. *)
Definition tileRange (f : Compact.RangeFactory) (h : Z) (tile : Z * Z)
           (hashes : list bytes) : Compact.Range :=
  let t := (fst tile + 1) * h in
  Compact.mkRange (snd tile * 2 ^ t) ((snd tile + 1) * 2 ^ t)
                  [(Z.to_nat t, Compact.perfectRoot f (Z.to_nat h) hashes)].

(** [AppendRange] of package [compact] with the range of each tile in
    turn; an error of the package ends the run. *)
Fixpoint appendTiles (f : Compact.RangeFactory) (h : Z) (r : Compact.Range)
         (tiles : list (Z * Z * list bytes))
  : outcome Compact.error Compact.Range :=
  match tiles with
  | [] => Ok r
  | (tile, hashes) :: rest =>
      (r' <- Compact.AppendRange f r (tileRange f h tile hashes) ;;
       appendTiles f h r' rest)%go
  end.


(** The events of a clone that fetches and writes [k] chunks from chunk
    [startOffset] on, each written where its tile starts. *)
Definition schedule (startOffset tileWidth : Z) (k : nat) : list event :=
  flat_map (fun i => [Fetched (startOffset + Z.of_nat i);
                      Wrote ((startOffset + Z.of_nat i) * tileWidth)])
           (seq 0 k).

(** The body of a leaf as the SumDB writes it for a module: the line of
    the repository hash and the line of the go.mod hash, each ended by a
    newline. *)
Definition formatLeaf (module version repoHash modHash : bytes) : bytes :=
  module ++ x20 :: version ++ x20 :: repoHash ++ x0a
    :: module ++ x20 :: (version ++ list_byte_of_string "/go.mod")
    ++ x20 :: modHash ++ [x0a].

(** A token of a leaf: no space and no newline in it. *)
Definition isToken (t : bytes) : Prop := ~ In x20 t /\ ~ In x0a t.

(** *** VerifyTiles *)

(** Modelled from the spec: the operation [TileHashes] of the SumDB
    client (type [SumDBClient], outside the sources), section 4.C: the
    hashes of the remote's tile at [(level, offset)], each a [tlog.Hash]. *)
Class RemoteTiles (SumDB : Type) : Type := {
  TileHashes : SumDB -> Z -> Z -> outcome error (list bytes)
}.

(** The errors [VerifyTiles] makes.  The mismatch carries the two hashes
    in the order of the format string, which labels the first "local" and
    the second "remote". *)
Inductive verifyError : Type :=
| ErrGetTileHashes (e : error)   (* "failed to get tile hashes: %v" *)
| ErrFoundMismatch (level offset leaf : Z) (local remote : bytes).
                                 (* "found mismatched hash at L=%d, O=%d, leaf=%d\n\tlocal : %x\n\tremote: %x" *)

Section Verifier.

Context {DB SumDB : Type} {store : LocalStore DB} {tiles : RemoteTiles SumDB}.

(** [VerifyTiles]: the loop over the slots of a tile, [n] slots from
    slot [i] on.  The local hash is indexed first, to be copied into a
    [tlog.Hash], then the hash of the SumDB. *)
Fixpoint compareTile (level offset : Z) (localHashes sumDBHashes : list bytes)
         (n : nat) (i : nat) : outcome verifyError unit :=
  match n with
  | O => Ok tt
  | S n' =>
      (l <- index localHashes i ;;
       let lHash := toHash l in
       r <- index sumDBHashes i ;;
       if bytes_eqb r lHash
       then compareTile level offset localHashes sumDBHashes n' (S i)
       else Err (ErrFoundMismatch level offset (Z.of_nat i) r l))%go
  end.

(** [VerifyTiles]: the loop over the tiles of one stratum, from [offset]
    on.  The loop has no bound of its own: it ends at the first offset the
    store has no tile for.  [fuel] bounds the number of tiles looked at;
    running out of it stands for a loop that has not ended. *)
Fixpoint verifyLevel (s : @Service DB SumDB) (level : Z) (fuel : nat)
         (offset : Z) : outcome verifyError unit :=
  match fuel with
  | O => Hang
  | S fuel' =>
      match Tile (localDB s) (height s) level offset with
      | Ok localHashes =>
          match TileHashes (sumDB s) level offset with
          | Ok sumDBHashes =>
              (tileWidth <- shl 1 (height s) ;;
               _ <- compareTile level offset localHashes sumDBHashes
                                (Z.to_nat tileWidth) 0 ;;
               verifyLevel s level fuel' (i64 (offset + 1)))%go
          | Err e => Err (ErrGetTileHashes e)
          | Panic p => Panic p
          | Hang => Hang
          end
      | Err e => if isNoRows e then Ok tt else Err (ErrGetTileHashes e)
      | Panic p => Panic p
      | Hang => Hang
      end
  end.

(** [VerifyTiles]: the loop over the strata, [n] strata from [level] on. *)
Fixpoint verifyLevels (s : @Service DB SumDB) (fuel : nat) (n : nat)
         (level : Z) : outcome verifyError unit :=
  match n with
  | O => Ok tt
  | S n' =>
      (_ <- verifyLevel s level fuel 0 ;;
       verifyLevels s fuel n' (level + 1))%go
  end.

(** [Service.VerifyTiles]; [getLevelsForLeafCount] returns no error. *)
Definition VerifyTiles (fuel : nat) (s : @Service DB SumDB)
           (checkpoint : tlog.Tree) : outcome verifyError unit :=
  match getLevelsForLeafCount (height s) (tlog.N checkpoint) with
  | Ok K => verifyLevels s fuel (Z.to_nat (K + 1)) 0
  | Err e => Err (ErrGetTileHashes e)
  | Panic p => Panic p
  | Hang => Hang
  end.

(** The first [n] slots of a stored tile agree with the SumDB: each,
    copied into a [tlog.Hash], is the hash the SumDB gives for it. *)
Definition slotsAgree (localHashes sumDBHashes : list bytes) (n : Z) : Prop :=
  forall i, Z.of_nat i < n ->
    exists l, nth_error localHashes i = Some l
              /\ nth_error sumDBHashes i = Some (toHash l).

(** The tiles of a stratum at the offsets below [m] are stored, the SumDB
    has them, and their slots agree. *)
Definition tilesAgree (s : @Service DB SumDB) (level m : Z) : Prop :=
  forall offset, 0 <= offset < m ->
    exists localHashes sumDBHashes,
      Tile (localDB s) (height s) level offset = Ok localHashes
      /\ TileHashes (sumDB s) level offset = Ok sumDBHashes
      /\ slotsAgree localHashes sumDBHashes (2 ^ height s).

(** The tiles of a stratum that [VerifyTiles] looks at agree with the
    SumDB: the store holds [m] tiles from offset 0 on, which agree, and
    none at offset [m]. *)
Definition agreesUpTo (s : @Service DB SumDB) (level m : Z) : Prop :=
  Tile (localDB s) (height s) level m = Err ErrNoRows
  /\ tilesAgree s level m.

End Verifier.

(** *** Collaborators to run the service on *)

(** A blob cut into hashes of 32 bytes. *)
Fixpoint chunks (fuel : nat) (blob : bytes) : list bytes :=
  match fuel with
  | O => []
  | S fuel' =>
      match blob with
      | [] => []
      | _ => firstn 32 blob :: chunks fuel' (skipn 32 blob)
      end
  end.

Definition keyEqb (a b : Z * Z * Z) : bool :=
  let '(a1, a2, a3) := a in
  let '(b1, b2, b3) := b in
  (a1 =? b1) && (a2 =? b2) && (a3 =? b3).

(** Modelled from the spec: a local store with the contract of section
    4.B, held in memory: the leaves in order, the tiles by
    [(height, level, offset)], the metadata rows by the index of the first
    leaf of their tile.  With [headFails] set, [Head] fails. *)
Record MemStore : Type := mkMem {
  memLeaves : list bytes;
  memTiles : list ((Z * Z * Z) * bytes);
  memMetadata : list (Z * list Metadata);
  headFails : bool
}.

Definition memTile (m : MemStore) (key : Z * Z * Z) : option bytes :=
  option_map snd (find (fun row => keyEqb (fst row) key) (memTiles m)).

#[global] Instance MemStore_LocalStore : LocalStore MemStore := {
  Head m :=
    if headFails m then Err (ErrStore "no head")
    else Ok (Z.of_nat (length (memLeaves m)) - 1);
  WriteLeaves m start leaves :=
    if start =? Z.of_nat (length (memLeaves m))
    then Ok (mkMem (memLeaves m ++ leaves) (memTiles m) (memMetadata m)
                   (headFails m))
    else Err (ErrStore "start is not Head() + 1");
  Leaves m start count :=
    Ok (firstn (Z.to_nat count) (skipn (Z.to_nat start) (memLeaves m)));
  Tile m height level offset :=
    match memTile m (height, level, offset) with
    | Some blob => Ok (chunks (length blob) blob)
    | None => Err ErrNoRows
    end;
  SetTile m height level offset blob :=
    match memTile m (height, level, offset) with
    | Some old =>
        if bytes_eqb old blob then Ok m else Err (ErrStore "tile exists")
    | None =>
        Ok (mkMem (memLeaves m) (memTiles m ++ [((height, level, offset), blob)])
                  (memMetadata m) (headFails m))
    end;
  SetLeafMetadata m start rows :=
    Ok (mkMem (memLeaves m) (memTiles m) (memMetadata m ++ [(start, rows)])
              (headFails m))
}.

(** Modelled from the spec: a remote log with the contract of section
    4.C, which serves the leaves of [logLeaves] in tiles of height
    [logHeight]. *)
Record MemLog : Type := mkLog {
  logLeaves : list bytes;
  logHeight : Z
}.

Definition logSlice (r : MemLog) (start count : Z) : outcome error (list bytes) :=
  if (0 <=? start) && (0 <=? count)
     && (start + count <=? Z.of_nat (length (logLeaves r)))
  then Ok (firstn (Z.to_nat count) (skipn (Z.to_nat start) (logLeaves r)))
  else Err (ErrRemote "no such leaves").

#[global] Instance MemLog_RemoteLog : RemoteLog MemLog := {
  FullLeavesAtOffset r offset :=
    logSlice r (offset * 2 ^ logHeight r) (2 ^ logHeight r);
  PartialLeavesAtOffset r offset count :=
    logSlice r (offset * 2 ^ logHeight r) count
}.

(** Stand-ins for the two SHA-256 hashes of [tlog], to run the service. *)
Definition stubRecordHash (leaf : bytes) : bytes := toHash (x00 :: leaf).
Definition stubNodeHash (l r : bytes) : bytes :=
  map (fun p => Api.byte_of_uint (3 * Byte.to_N (fst p) + 5 * Byte.to_N (snd p) + 1))
      (combine l r).

(** A leaf to fill a log with: ["Leaf "] and the byte [i]. *)
Definition leafNamed (i : nat) : bytes :=
  list_byte_of_string "Leaf " ++ [Api.byte_of_uint (N.of_nat i)].

Definition emptyStore : MemStore := mkMem [] [] [] false.

(** The largest power of two below [n], for [n >= 2]. *)
Fixpoint splitPoint (fuel n k : nat) : nat :=
  match fuel with
  | O => k
  | S fuel' => if (2 * k <? n)%nat then splitPoint fuel' n (2 * k) else k
  end.

(** The Merkle tree hash of RFC 6962 over leaf hashes, computed top-down;
    the compact ranges are tested against it. *)
Fixpoint merkleTreeHash (f : Compact.RangeFactory) (fuel : nat)
         (l : list bytes) : bytes :=
  match fuel with
  | O => []
  | S fuel' =>
      match l with
      | [] => []
      | [h] => h
      | _ =>
          let k := splitPoint (length l) (length l) 1 in
          Compact.Hash f (merkleTreeHash f fuel' (firstn k l))
                       (merkleTreeHash f fuel' (skipn k l))
      end
  end.

(** A log of 18 leaves audited with tiles of height 2: two strata of
    tiles and two stragglers. *)
Definition demoLog : MemLog := mkLog (map leafNamed (seq 0 18)) 2.

Definition demoService (db : MemStore) : Service :=
  NewService stubNodeHash db demoLog 2.

Definition demoCheckpoint : tlog.Tree :=
  Eval vm_compute in
    tlog.mkTree 18
      (merkleTreeHash (rf (demoService emptyStore)) 18
                      (map stubRecordHash (logLeaves demoLog))).

(** The store after [CloneLeafTiles] and [HashTiles]. *)
Definition demoCloned : MemStore :=
  Eval vm_compute in
    fst (fst (CloneLeafTiles (demoService emptyStore) demoCheckpoint)).

Definition demoHashed : MemStore :=
  Eval vm_compute in
    fst (HashTiles stubRecordHash (demoService demoCloned) demoCheckpoint).

(** A store that holds 401 leaves, so that [Head] is 400, against a
    checkpoint of 400 leaves. *)
Definition aheadStore : MemStore := mkMem (repeat [x00] 401) [] [] false.
Definition aheadService : Service :=
  NewService stubNodeHash aheadStore (mkLog [] 8) 8.
Definition aheadCheckpoint : tlog.Tree := tlog.mkTree 400 (repeat x00 32).

(** A store whose [Head] fails: an empty one, and one of three leaves. *)
Definition headlessStore : MemStore := mkMem [] [] [] true.
Definition headlessService : Service :=
  NewService stubNodeHash headlessStore demoLog 2.
Definition staleStore : MemStore := mkMem (repeat [x00] 3) [] [] true.
Definition staleService : Service :=
  NewService stubNodeHash staleStore demoLog 2.

(** Modelled from the spec: a local store that has lost its database, so
    that every operation fails (a persistence I/O failure). *)
Inductive Offline : Type := offline.

#[global] Instance Offline_LocalStore : LocalStore Offline := {
  Head _ := Err (ErrStore "offline");
  WriteLeaves _ _ _ := Err (ErrStore "offline");
  Leaves _ _ _ := Err (ErrStore "offline");
  Tile _ _ _ _ := Err (ErrStore "offline");
  SetTile _ _ _ _ _ := Err (ErrStore "offline");
  SetLeafMetadata _ _ _ := Err (ErrStore "offline")
}.

Definition offlineService : Service :=
  NewService stubNodeHash offline demoLog 2.

(** Modelled from the spec: a local store that can be read and not
    written. *)
Record ReadOnly : Type := mkReadOnly { under : MemStore }.

#[global] Instance ReadOnly_LocalStore : LocalStore ReadOnly := {
  Head r := Head (under r);
  WriteLeaves _ _ _ := Err (ErrStore "read-only");
  Leaves r start count := Leaves (under r) start count;
  Tile r height level offset := Tile (under r) height level offset;
  SetTile _ _ _ _ _ := Err (ErrStore "read-only");
  SetLeafMetadata _ _ _ := Err (ErrStore "read-only")
}.

(** Modelled from the spec: a local store that fails in part (a
    persistence I/O failure): the tile [badTile] and the leaves read
    from [badLeaves] on cannot be read, and after [room] writes every
    write fails. *)
Record Faulty : Type := mkFaulty {
  inner : MemStore;
  badTile : option (Z * Z * Z);
  badLeaves : option Z;
  room : nat
}.

Definition written (f : Faulty) (m : outcome error MemStore)
  : outcome error Faulty :=
  match room f with
  | O => Err (ErrStore "disk full")
  | S n =>
      match m with
      | Ok m' => Ok (mkFaulty m' (badTile f) (badLeaves f) n)
      | Err e => Err e
      | Panic p => Panic p
      | Hang => Hang
      end
  end.

#[global] Instance Faulty_LocalStore : LocalStore Faulty := {
  Head f := Head (inner f);
  WriteLeaves f start leaves := written f (WriteLeaves (inner f) start leaves);
  Leaves f start count :=
    match badLeaves f with
    | Some bad => if start =? bad then Err (ErrStore "unreadable")
                  else Leaves (inner f) start count
    | None => Leaves (inner f) start count
    end;
  Tile f height level offset :=
    match badTile f with
    | Some bad => if keyEqb bad (height, level, offset)
                  then Err (ErrStore "unreadable")
                  else Tile (inner f) height level offset
    | None => Tile (inner f) height level offset
    end;
  SetTile f height level offset blob :=
    written f (SetTile (inner f) height level offset blob);
  SetLeafMetadata f start rows :=
    written f (SetLeafMetadata (inner f) start rows)
}.

(** A log of one full leaf tile of height 8, cloned and hashed, and the
    stored tile with the first byte of the hash in slot 5 changed. *)
Definition log256 : MemLog := mkLog (map leafNamed (seq 0 256)) 8.

Definition service256 (db : MemStore) : Service :=
  NewService stubNodeHash db log256 8.

Definition checkpoint256 : tlog.Tree :=
  Eval vm_compute in
    tlog.mkTree 256
      (merkleTreeHash (rf (service256 emptyStore)) 256
                      (map stubRecordHash (logLeaves log256))).

Definition cloned256 : MemStore :=
  Eval vm_compute in
    fst (fst (CloneLeafTiles (service256 emptyStore) checkpoint256)).

Definition hashed256 : MemStore :=
  Eval vm_compute in
    fst (HashTiles stubRecordHash (service256 cloned256) checkpoint256).

Definition flipAt (n : nat) (b : bytes) : bytes :=
  match skipn n b with
  | c :: rest => firstn n b ++ (if Byte.eqb c xff then x00 else xff) :: rest
  | [] => b
  end.

Definition corrupted256 : MemStore :=
  Eval vm_compute in
    mkMem (memLeaves hashed256)
          (map (fun row => (fst row, flipAt (5 * 32) (snd row))) (memTiles hashed256))
          (memMetadata hashed256) (headFails hashed256).

(** Leaf bodies: two lines, each ended by a newline. *)
Definition leafOf (line0 line1 : string) : bytes :=
  list_byte_of_string line0 ++ x0a :: list_byte_of_string line1 ++ [x0a].

Definition goodLeaf : bytes := leafOf "m v1.0 h1:a" "m v1.0/go.mod h1:b".
Definition prefixLeaf : bytes := leafOf "m v1.0 h1:a" "m v1.0.5/go.mod h1:b".
Definition otherModuleLeaf : bytes := leafOf "m v1.0 h1:a" "n v1.0/go.mod h1:b".

(** A store of one tile of height 1 whose second leaf names another
    module. *)
Definition mixedStore : MemStore := mkMem [goodLeaf; otherModuleLeaf] [] [] false.


(** Modelled from the spec: the tiles of the remote log of section 4.C,
    computed from its leaves with the stand-in hashes.  Slot [i] of the
    tile [(level, offset)] is the root of the perfect subtree over the
    [2^(level * H)] leaves that start at leaf
    [(offset * 2^H + i) * 2^(level * H)]. *)
Definition stubFactory : Compact.RangeFactory :=
  Compact.mkFactory (fun left right => stubNodeHash (toHash left) (toHash right)).

#[global] Instance MemLog_RemoteTiles : RemoteTiles MemLog := {
  TileHashes r level offset :=
    let w := 2 ^ logHeight r in
    let span := 2 ^ (level * logHeight r) in
    if (0 <=? level) && (0 <=? offset)
       && ((offset + 1) * w * span <=? Z.of_nat (length (logLeaves r)))
    then Ok (map (fun i =>
                    Compact.perfectRoot stubFactory
                      (Z.to_nat (level * logHeight r))
                      (map stubRecordHash
                           (firstn (Z.to_nat span)
                                   (skipn (Z.to_nat ((offset * w + Z.of_nat i) * span))
                                          (logLeaves r)))))
                 (seq 0 (Z.to_nat w)))
    else Err (ErrRemote "no such tile")
}.

(** Modelled from the spec: a remote log that leaves out the last of the
    stragglers it is asked for. *)
Record ShortLog : Type := mkShort { whole : MemLog }.

#[global] Instance ShortLog_RemoteLog : RemoteLog ShortLog := {
  FullLeavesAtOffset r offset := FullLeavesAtOffset (whole r) offset;
  PartialLeavesAtOffset r offset count :=
    match PartialLeavesAtOffset (whole r) offset count with
    | Ok leaves => Ok (removelast leaves)
    | failure => failure
    end
}.

(** The hashed store of the log of 18 leaves with one byte of the stored
    tile at level 1 changed, in slot 2. *)
Definition demoTampered : MemStore :=
  Eval vm_compute in
    mkMem (memLeaves demoHashed)
          (map (fun row => if keyEqb (fst row) (2, 1, 0)
                           then (fst row, flipAt (2 * 32) (snd row))
                           else row)
               (memTiles demoHashed))
          (memMetadata demoHashed) (headFails demoHashed).

(** A log of 16 leaves audited with tiles of height 1, four strata of
    tiles, cloned and hashed, and the hashed store with one byte of the
    first stored tile of level 1 changed, in slot 0. *)
Definition log16 : MemLog := mkLog (map leafNamed (seq 0 16)) 1.

Definition service16 (db : MemStore) : Service :=
  NewService stubNodeHash db log16 1.

Definition checkpoint16 : tlog.Tree :=
  Eval vm_compute in
    tlog.mkTree 16
      (merkleTreeHash (rf (service16 emptyStore)) 16
                      (map stubRecordHash (logLeaves log16))).

Definition hashed16 : MemStore :=
  Eval vm_compute in
    fst (HashTiles stubRecordHash
           (service16 (fst (fst (CloneLeafTiles (service16 emptyStore) checkpoint16))))
           checkpoint16).

Definition tampered16 : MemStore :=
  Eval vm_compute in
    mkMem (memLeaves hashed16)
          (map (fun row => if keyEqb (fst row) (1, 1, 0)
                           then (fst row, flipAt 0 (snd row))
                           else row)
               (memTiles hashed16))
          (memMetadata hashed16) (headFails hashed16).

(** The hashed store of the log of 18 leaves with the stored leaf tile
    at offset 1 cut down to three hashes. *)
Definition demoTruncated : MemStore :=
  Eval vm_compute in
    mkMem (memLeaves demoHashed)
          (map (fun row => if keyEqb (fst row) (2, 0, 1)
                           then (fst row, firstn (3 * 32) (snd row))
                           else row)
               (memTiles demoHashed))
          (memMetadata demoHashed) (headFails demoHashed).

(** A store with the first byte of one stored tile changed. *)
Definition tamperTile (m : MemStore) (key : Z * Z * Z) : MemStore :=
  mkMem (memLeaves m)
        (map (fun row => if keyEqb (fst row) key
                         then (fst row, flipAt 0 (snd row))
                         else row)
             (memTiles m))
        (memMetadata m) (headFails m).

(** A log of 22 leaves audited with tiles of height 2: one tile in
    stratum 1, five leaf tiles of which the last lies under no tile of
    stratum 1, and two stragglers. *)
Definition log22 : MemLog := mkLog (map leafNamed (seq 0 22)) 2.

Definition service22 {DB : Type} {store : LocalStore DB} (db : DB)
  : @Service DB MemLog :=
  NewService stubNodeHash db log22 2.

Definition checkpoint22 : tlog.Tree :=
  Eval vm_compute in
    tlog.mkTree 22
      (merkleTreeHash (rf (service22 emptyStore)) 22
                      (map stubRecordHash (logLeaves log22))).

Definition hashed22 : MemStore :=
  Eval vm_compute in
    fst (HashTiles stubRecordHash
           (service22 (fst (fst (CloneLeafTiles (service22 emptyStore) checkpoint22))))
           checkpoint22).

(** A store of two tiles of height 1 whose last leaf names another
    module, and a store of two such tiles of well-formed leaves. *)
Definition lateMismatchStore : MemStore :=
  mkMem [goodLeaf; goodLeaf; goodLeaf; otherModuleLeaf] [] [] false.

Definition goodStore : MemStore :=
  mkMem [goodLeaf; goodLeaf; goodLeaf; goodLeaf] [] [] false.

End Audit.

(** ** strconv and fmt: unsigned decimal numbers *)

(** The two library functions behind the tile keys, for base 10 and 64
    bits, after the Go standard library. *)
Module strconv.

Local Open Scope N_scope.

(** The two kinds of [*strconv.NumError]. *)
Inductive NumError : Type :=
| ErrSyntax   (* "invalid syntax" *)
| ErrRange.   (* "value out of range" *)

(** The value of a decimal digit; any other byte (a letter is a digit of
    a base above 10) is a syntax error. *)
Definition digitValue (c : byte) : option N :=
  let v := Byte.to_N c in
  if (48 <=? v) && (v <=? 57) then Some (v - 48) else None.

(** [maxUint64/10 + 1], the smallest [n] with [n * 10 > maxUint64]. *)
Definition cutoff : N := (2 ^ 64 - 1) / 10 + 1.

(** The loop of [ParseUint] over the bytes of the string, [n] being the
    number read so far. *)
Fixpoint ParseUint_loop (s : bytes) (n : N) : NumError + N :=
  match s with
  | [] => inr n
  | c :: s' =>
      match digitValue c with
      | None => inl ErrSyntax
      | Some d =>
          if cutoff <=? n then inl ErrRange
          else
            let n10 := u64 (n * 10) in
            let n1 := u64 (n10 + d) in
            if (n1 <? n10) || (2 ^ 64 - 1 <? n1) then inl ErrRange
            else ParseUint_loop s' n1
      end
  end.

(** [strconv.ParseUint(s, 10, 64)]: the number, or the error returned in
    its place. *)
Definition ParseUint (s : bytes) : NumError + N :=
  match s with
  | [] => inl ErrSyntax
  | _ => ParseUint_loop s 0
  end.

(** The decimal digit of a number below 10. *)
Definition digit (d : N) : byte := Api.byte_of_uint (48 + d).

(** The loop of the decimal formatter: the digits come out from the last
    to the first.  A [uint64] has at most 20 of them. *)
Fixpoint formatBits (fuel : nat) (u : N) (acc : bytes) : bytes :=
  match fuel with
  | O => acc
  | S fuel' =>
      if u <? 10 then digit u :: acc
      else formatBits fuel' (u / 10) (digit (u mod 10) :: acc)
  end.

(** [strconv.FormatUint(u, 10)], which is what the verb [%d] of
    [fmt.Sprintf] writes for a [uint64]. *)
Definition FormatUint (u : N) : bytes := formatBits 20 u [].

End strconv.

(** ** serverless/internal/storage/tile.go: tile keys *)
Module TileKeys.

Local Open Scope N_scope.

(** [TileKey]: [fmt.Sprintf("%d/%d", level, index)]. *)
Definition TileKey (level index : N) : bytes :=
  strconv.FormatUint level ++ x2f :: strconv.FormatUint index.

(** What a call of [SplitTileKey] comes to: it returns the level and the
    index, or it panics, at run time (an index out of range) or with the
    error of [strconv.ParseUint] ([panic(err)]). *)
Inductive split : Type :=
| Returns (level index : N)
| RuntimePanic (p : panic)
| ErrorPanic (e : strconv.NumError).

(** [SplitTileKey]: the first field is parsed before the second is
    looked for. *)
Definition SplitTileKey (s : bytes) : split :=
  let p := Audit.Split s x2f in
  match nth_error p 0 with
  | None => RuntimePanic (IndexOutOfRange 0 (Z.of_nat (length p)))
  | Some p0 =>
      match strconv.ParseUint p0 with
      | inl e => ErrorPanic e
      | inr l =>
          match nth_error p 1 with
          | None => RuntimePanic (IndexOutOfRange 1 (Z.of_nat (length p)))
          | Some p1 =>
              match strconv.ParseUint p1 with
              | inl e => ErrorPanic e
              | inr i => Returns l i
              end
          end
      end
  end.

End TileKeys.
(** * Properties *)

(** ** Allocation *)

(** A slice or a channel whose bytes fit the allocation limit is made. *)
Lemma make_ok {E A} (size : Z) (z : A) (n : Z) :
  0 <= n -> n * size <= maxAlloc ->
  make (E := E) size z n = Ok (repeat z (Z.to_nat n)).
Proof.
  intros Hn Hs. unfold make.
  replace (n <? 0) with false by (symmetry; apply Z.ltb_ge; lia).
  replace (maxAlloc <? n * size) with false by (symmetry; apply Z.ltb_ge; lia).
  reflexivity.
Qed.

Lemma make_too_large {E A} (size : Z) (z : A) (n : Z) :
  maxAlloc < n * size -> make (E := E) size z n = Panic (MakeSliceLen n).
Proof.
  intros Hs. unfold make.
  replace (maxAlloc <? n * size) with true by (symmetry; apply Z.ltb_lt; lia).
  rewrite orb_true_r. reflexivity.
Qed.

Lemma makechan_ok {E} (size n : Z) :
  0 <= n -> n * size <= maxAlloc - hchanSize ->
  makechan (E := E) size n = Ok tt.
Proof.
  intros Hn Hs. unfold makechan.
  replace (n <? 0) with false by (symmetry; apply Z.ltb_ge; lia).
  replace (maxAlloc - hchanSize <? n * size) with false
    by (symmetry; apply Z.ltb_ge; lia).
  reflexivity.
Qed.

Lemma makechan_too_large {E} (size n : Z) :
  maxAlloc - hchanSize < n * size ->
  makechan (E := E) size n = Panic (MakeChanSize n).
Proof.
  intros Hs. unfold makechan.
  replace (maxAlloc - hchanSize <? n * size) with true
    by (symmetry; apply Z.ltb_lt; lia).
  rewrite orb_true_r. reflexivity.
Qed.

(** Arithmetic with the sizes as numbers. *)
Ltac sizes :=
  change maxAlloc with 281474976710656 in *;
  change hchanSize with 96 in *;
  change sizeofByte with 1 in *;
  change sizeofPointer with 8 in *;
  change sizeofSlice with 24 in *;
  change Audit.sizeofMetadata with 64 in *;
  lia.

(** The width of a tile of height at most [k]. *)
Lemma tileWidth_le (h k : Z) : 0 <= h <= k -> 0 < 2 ^ h <= 2 ^ k.
Proof.
  intros Hh. split; [apply Z.pow_pos_nonneg; lia|].
  apply Z.pow_le_mono_r; lia.
Qed.

(** ** The tile codec *)

Lemma readNodes_isOk (buf : bytes) (nodes : list (option bytes)) :
  isOk (Api.readNodes buf nodes) = (length buf mod 32 =? 0)%nat.
Proof.
  funelim (Api.readNodes buf nodes).
  - reflexivity.
  - match goal with IH : isOk _ = _ |- _ => rewrite IH end.
    unfold Api.Buffer_rest, Api.Buffer_Read in *.
    rewrite length_skipn.
    apply Nat.eqb_eq in Heq. rewrite length_firstn in Heq.
    set (l := length (b :: buf')) in *.
    assert (Hl : (32 <= l)%nat) by lia.
    replace l with ((l - 32) + 1 * 32)%nat at 2 by lia.
    rewrite Nat.Div0.mod_add. reflexivity.
  - simpl isOk. symmetry. apply Nat.eqb_neq.
    unfold Api.Buffer_Read in *.
    apply Nat.eqb_neq in Heq. rewrite length_firstn in Heq.
    set (l := length (b :: buf')) in *.
    assert (Hpos : (0 < l)%nat) by (unfold l; simpl length; lia).
    rewrite Nat.mod_small; lia.
Qed.


Example unmarshal_ex :
  Api.UnmarshalBinary [x20; x01] = Ok (Api.mkTile 1 []).
Proof. reflexivity. Qed.

(** C2, as amended.  The decoder accepts exactly the well-framed inputs: it
    rejects an input shorter than two bytes, a hash-size byte other than 32
    and a payload that is not a whole number of 32-byte hashes, and accepts
    every other input, whatever its leaf-count byte and its number of
    hashes. *)
Theorem UnmarshalBinary_accepts_wellFramed (raw : bytes) :
  isOk (Api.UnmarshalBinary raw) = Api.wellFramed raw.
Proof.
  destruct raw as [|hs [|nl payload]]; try reflexivity;
    unfold Api.UnmarshalBinary, Api.wellFramed.
  - destruct (Byte.eqb hs x20); reflexivity.
  - destruct (Byte.eqb hs x20); [|reflexivity].
    rewrite <- readNodes_isOk with (nodes := []).
    destruct (Api.readNodes payload []); reflexivity.
Qed.

(** C2, counterexample.  A leaf-count byte 0 is not rejected, and neither is
    a payload whose length differs from 32 * (2 * numLeaves - 1): the
    two-byte input [32; 0] decodes to a tile with no leaf, and [32; 1],
    whose payload should hold one hash, decodes to a tile with no node. *)
Lemma UnmarshalBinary_accepts_zero_leaves :
  Api.UnmarshalBinary [x20; x00] = Ok (Api.mkTile 0 [])
  /\ Api.UnmarshalBinary [x20; x01] = Ok (Api.mkTile 1 []).
Proof. split; reflexivity. Qed.

Lemma byte_of_uint_to_N (n : N) :
  Byte.to_N (Api.byte_of_uint n) = (n mod 256)%N.
Proof.
  unfold Api.byte_of_uint.
  destruct (Byte.of_N (n mod 256)) as [b|] eqn:E.
  - apply Byte.to_of_N. exact E.
  - apply Byte.of_N_None_iff in E.
    pose proof (N.mod_upper_bound n 256). lia.
Qed.

Lemma readNodes_step (h rest : bytes) (acc : list (option bytes)) :
  length h = 32%nat ->
  Api.readNodes (h ++ rest) acc = Api.readNodes rest (acc ++ [Some h]).
Proof.
  intros Hh.
  assert (E1 : Api.Buffer_Read 32 (h ++ rest) = h).
  { unfold Api.Buffer_Read. rewrite <- Hh.
    rewrite firstn_app, firstn_all, Nat.sub_diag, firstn_O. apply app_nil_r. }
  assert (E2 : Api.Buffer_rest 32 (h ++ rest) = rest).
  { unfold Api.Buffer_rest. rewrite <- Hh.
    rewrite skipn_app, skipn_all, Nat.sub_diag. reflexivity. }
  destruct h as [|b0 h']; [discriminate|].
  change ((b0 :: h') ++ rest) with (b0 :: (h' ++ rest)) in *.
  simp readNodes. rewrite E1.
  rewrite Hh, Nat.eqb_refl.
  unfold Api.readNodes_unfold_clause_2. rewrite E1, E2. reflexivity.
Qed.

Lemma readNodes_hashes (ns acc : list (option bytes)) :
  Forall Api.isHash ns ->
  Api.readNodes (concat (map Api.node_bytes ns)) acc = Ok (acc ++ ns).
Proof.
  intros H. revert acc. induction H as [|n ns [b [-> Hb]] _ IH]; intros acc.
  - simpl. simp readNodes. rewrite app_nil_r. reflexivity.
  - simpl. rewrite (readNodes_step _ _ _ Hb), IH, <- app_assoc. reflexivity.
Qed.

(** Decoding an encoded tile whose nodes are 32-byte hashes gives the nodes
    back and the leaf count reduced modulo 256. *)
Lemma decode_encode_hashes (t : Api.Tile) :
  Forall Api.isHash (Api.Nodes t) ->
  Api.decode_encode t = Ok (Api.mkTile (Api.NumLeaves t mod 256) (Api.Nodes t)).
Proof.
  intros H. unfold Api.decode_encode, Api.MarshalBinary. simpl.
  rewrite (readNodes_hashes _ [] H). simpl.
  rewrite byte_of_uint_to_N. reflexivity.
Qed.

(** The round trip holds for every tile of fewer than 256 leaves. *)
Lemma decode_encode_below_256 (t : Api.Tile) :
  (Api.NumLeaves t < 256)%N ->
  Forall Api.isHash (Api.Nodes t) ->
  Api.decode_encode t = Ok t.
Proof.
  intros Hn H. rewrite (decode_encode_hashes _ H).
  rewrite N.mod_small by exact Hn. destruct t; reflexivity.
Qed.

(** C3, the code at the failing input.  A full tile, of 256 leaves and 511
    hashes of 32 bytes, does not survive the round trip: its leaf count is
    written as the byte 0 and read back as 0. *)
Theorem decode_encode_full_tile :
  Forall Api.isHash (Api.Nodes Api.fullTile)
  /\ Api.NumLeaves Api.fullTile = 256%N
  /\ Api.decode_encode Api.fullTile = Ok (Api.mkTile 0 (Api.Nodes Api.fullTile))
  /\ Api.decode_encode Api.fullTile <> Ok Api.fullTile.
Proof.
  assert (H : Forall Api.isHash (Api.Nodes Api.fullTile)).
  { apply Forall_forall. intros n Hn. apply repeat_spec in Hn. subst n.
    exists (repeat x00 32). split; reflexivity. }
  split; [exact H|]. split; [reflexivity|].
  rewrite (decode_encode_hashes _ H).
  split; [reflexivity|]. discriminate.
Qed.

(** ** Tile helpers *)

(** At level 0 the key of slot [i] is [2 * i]. *)
Lemma TileNodeKey_level0 (i : N) :
  (i < 2 ^ 63)%N -> Api.TileNodeKey 0 i = (2 * i)%N.
Proof.
  intros Hi. unfold Api.TileNodeKey, u64.
  change (N.shiftl 1 ((0 + 1) mod 2 ^ 64))%N with 2%N.
  change (N.shiftl 1 0 mod 2 ^ 64)%N with 1%N.
  change (2 mod 2 ^ 64)%N with 2%N.
  assert (H2 : (2 * i < 2 ^ 64)%N).
  { change (2 ^ 64)%N with (2 * 2 ^ 63)%N. lia. }
  rewrite (N.mod_small (2 * i + 1)).
  - replace (2 * i + 1 + (2 ^ 64 - 1))%N with (2 * i + 1 * 2 ^ 64)%N by lia.
    rewrite N.Div0.mod_add. apply N.mod_small. exact H2.
  - lia.
Qed.

Lemma TileSize_loop_in_bounds (t : Api.Tile) (n : nat) (i : N) :
  (511 <= length (Api.Nodes t))%nat ->
  (i + N.of_nat n = 256)%N ->
  (exists k, (i <= k < 256)%N /\ Storage.TileSize_loop n i t = Ok k
             /\ Storage.vacant t k /\ forall j, (i <= j < k)%N -> Storage.populated t j)
  \/ (Storage.TileSize_loop n i t = Ok 256%N
      /\ forall j, (i <= j < 256)%N -> Storage.populated t j).
Proof.
  intros Hlen. revert i. induction n as [|n IH]; intros i Hi.
  - right. split; [reflexivity|]. intros j Hj. lia.
  - assert (Hi256 : (i < 256)%N) by lia.
    simpl. rewrite TileNodeKey_level0 by (change (2 ^ 63)%N with 9223372036854775808%N; lia).
    unfold index.
    destruct (nth_error (Api.Nodes t) (N.to_nat (2 * i))) as [node|] eqn:E.
    + destruct node as [h|]; simpl.
      * assert (Hu : u64 (i + 1) = (i + 1)%N).
        { unfold u64. apply N.mod_small.
          change (2 ^ 64)%N with 18446744073709551616%N. lia. }
        rewrite Hu.
        destruct (IH (i + 1)%N) as [[k [Hk [Hr [Hv Hp]]]] | [Hr Hp]]; [lia| |].
        -- left. exists k. repeat split; try lia; try assumption.
           intros j Hj. destruct (N.eq_dec j i) as [->|Hne].
           ++ exists h. exact E.
           ++ apply Hp. lia.
        -- right. split; [exact Hr|].
           intros j Hj. destruct (N.eq_dec j i) as [->|Hne].
           ++ exists h. exact E.
           ++ apply Hp. lia.
      * left. exists i. repeat split; try lia; try assumption.
    + apply nth_error_None in E. lia.
Qed.

Lemma TileSize_loop_out_of_bounds (t : Api.Tile) (n : nat) (i : N) :
  (length (Api.Nodes t) < 511)%nat ->
  (i + N.of_nat n = 256)%N ->
  (2 * N.to_nat i <= length (Api.Nodes t) + 1)%nat ->
  (forall j, (N.to_nat (2 * j) < length (Api.Nodes t))%nat -> Storage.populated t j) ->
  isPanic (Storage.TileSize_loop n i t) = true.
Proof.
  intros Hlen. revert i. induction n as [|n IH]; intros i Hi Hb Hp.
  - lia.
  - assert (Hi256 : (i < 256)%N) by lia.
    simpl. rewrite TileNodeKey_level0 by (change (2 ^ 63)%N with 9223372036854775808%N; lia).
    unfold index.
    destruct (nth_error (Api.Nodes t) (N.to_nat (2 * i))) as [node|] eqn:E.
    + assert (Hin : (N.to_nat (2 * i) < length (Api.Nodes t))%nat).
      { apply nth_error_Some. rewrite E. discriminate. }
      destruct (Hp i Hin) as [h Hh]. rewrite Hh in E. inversion E; subst node.
      simpl.
      assert (Hu : u64 (i + 1) = (i + 1)%N).
      { unfold u64. apply N.mod_small.
        change (2 ^ 64)%N with 18446744073709551616%N. lia. }
      rewrite Hu. apply IH; try assumption; lia.
    + reflexivity.
Qed.

(** C10.  On a tile whose [Nodes] has at least 511 entries, [TileSize] returns
    the least [i < 256] whose level-0 slot, at index [TileNodeKey 0 i = 2 * i],
    is [nil], and 256 when all 256 slots hold a hash.  The length is needed
    for the scan to stay in bounds: on a shorter [Nodes] whose level-0 slots
    all hold a hash (a partial tile without [nil] padding) the scan indexes
    past the end and panics. *)
Theorem TileSize_scan (t : Api.Tile) :
  (forall i, (i < 256)%N -> Api.TileNodeKey 0 i = (2 * i)%N)
  /\ ((511 <= length (Api.Nodes t))%nat ->
      (exists k, (k < 256)%N /\ Storage.TileSize t = Ok k
                 /\ Storage.vacant t k /\ forall j, (j < k)%N -> Storage.populated t j)
      \/ (Storage.TileSize t = Ok 256%N
          /\ forall j, (j < 256)%N -> Storage.populated t j))
  /\ ((length (Api.Nodes t) < 511)%nat ->
      (forall j, (N.to_nat (2 * j) < length (Api.Nodes t))%nat -> Storage.populated t j) ->
      isPanic (Storage.TileSize t) = true).
Proof.
  split; [|split].
  - intros i Hi. apply TileNodeKey_level0.
    change (2 ^ 63)%N with 9223372036854775808%N. lia.
  - intros Hlen.
    destruct (TileSize_loop_in_bounds t 256 0%N Hlen eq_refl)
      as [[k [Hk [Hr [Hv Hp]]]] | [Hr Hp]].
    + left. exists k. repeat split; try lia; try assumption.
      intros j Hj. apply Hp. lia.
    + right. split; [exact Hr|]. intros j Hj. apply Hp. lia.
  - intros Hlen Hp.
    apply (TileSize_loop_out_of_bounds t 256 0%N Hlen eq_refl); [simpl; lia|exact Hp].
Qed.

(** C10 on a padded tile of three leaves and on a tile of one node. *)
Lemma TileSize_scan_witness :
  ((exists k, (k < 256)%N /\ Storage.TileSize Storage.paddedTile = Ok k
              /\ Storage.vacant Storage.paddedTile k
              /\ forall j, (j < k)%N -> Storage.populated Storage.paddedTile j)
   \/ (Storage.TileSize Storage.paddedTile = Ok 256%N
       /\ forall j, (j < 256)%N -> Storage.populated Storage.paddedTile j))
  /\ isPanic (Storage.TileSize Storage.partialTile) = true.
Proof.
  split.
  - apply (TileSize_scan Storage.paddedTile).
    cbv [Storage.paddedTile Api.Nodes].
    rewrite length_app, !repeat_length. lia.
  - apply (TileSize_scan Storage.partialTile).
    + simpl. lia.
    + intros j Hj. change (length _) with 1%nat in Hj.
      assert (j = 0%N) by lia. subst j.
      exists (repeat x00 32). reflexivity.
Defined.

(** ** Strata of a tree *)

Lemma getLevels_loop_spec (height : Z) (fuel : nat) (c top : Z) :
  1 <= height ->
  0 <= c < 2 ^ Z.of_nat fuel ->
  exists n, 0 <= n
    /\ Audit.getLevels_loop fuel height c top = Ok (top + n)
    /\ c < 2 ^ (n * height)
    /\ (0 < n -> 2 ^ ((n - 1) * height) <= c).
Proof.
  intros Hh. revert c top. induction fuel as [|fuel IH]; intros c top Hc.
  - exists 0. simpl in Hc. assert (c = 0) by lia. subst c. simpl.
    repeat split; try lia. rewrite Z.add_0_r. reflexivity.
  - simpl Audit.getLevels_loop. destruct (0 <? c) eqn:E.
    + apply Z.ltb_lt in E.
      assert (Hp : 0 < 2 ^ height) by (apply Z.pow_pos_nonneg; lia).
      assert (H2 : 2 <= 2 ^ height).
      { change 2 with (2 ^ 1) at 1. apply Z.pow_le_mono_r; lia. }
      rewrite Z.shiftr_div_pow2 by lia.
      assert (Hc' : 0 <= c / 2 ^ height < 2 ^ Z.of_nat fuel).
      { split; [apply Z.div_pos; lia|].
        apply Z.div_lt_upper_bound; [lia|].
        rewrite Nat2Z.inj_succ, Z.pow_succ_r in Hc by lia. nia. }
      destruct (IH (c / 2 ^ height) (top + 1) Hc') as [n [Hn [Hr [Hu Hl]]]].
      exists (n + 1). split; [lia|]. split; [rewrite Hr; f_equal; lia|].
      pose proof (Z.div_mod c (2 ^ height) ltac:(lia)) as Hdm.
      pose proof (Z.mod_pos_bound c (2 ^ height) Hp) as Hmb.
      split.
      * replace ((n + 1) * height) with (n * height + height) by lia.
        rewrite Z.pow_add_r by nia. nia.
      * intros _. replace (n + 1 - 1) with n by lia.
        destruct (Z.eq_dec n 0) as [->|Hn0].
        -- simpl. lia.
        -- specialize (Hl ltac:(lia)).
           replace (n * height) with ((n - 1) * height + height) by lia.
           rewrite Z.pow_add_r by nia. nia.
    + apply Z.ltb_ge in E. exists 0. simpl. repeat split; try lia.
      rewrite Z.add_0_r. reflexivity.
Qed.

(** [getLevelsForLeafCount] returns, and what it returns has the bounds of
    the top stratum. *)
Lemma getLevelsForLeafCount_bounds (height leaves : Z) :
  1 <= height ->
  0 <= leaves < 2 ^ 63 ->
  exists K, Audit.getLevelsForLeafCount height leaves = Ok K
    /\ -1 <= K
    /\ leaves < 2 ^ ((K + 2) * height)
    /\ (0 <= K -> 2 ^ ((K + 1) * height) <= leaves).
Proof.
  intros Hh Hl. unfold Audit.getLevelsForLeafCount, shr.
  destruct (height <? 0) eqn:E; [apply Z.ltb_lt in E; lia|]. simpl bind.
  assert (Hp : 0 < 2 ^ height) by (apply Z.pow_pos_nonneg; lia).
  rewrite Z.shiftr_div_pow2 by lia.
  assert (Hc : 0 <= leaves / 2 ^ height < 2 ^ Z.of_nat 64).
  { split; [apply Z.div_pos; lia|].
    apply Z.div_lt_upper_bound; [lia|].
    change (2 ^ Z.of_nat 64) with (2 * 2 ^ 63). nia. }
  destruct (getLevels_loop_spec height 64 (leaves / 2 ^ height) (-1) Hh Hc)
    as [n [Hn [Hr [Hu Hlo]]]].
  exists (-1 + n). split; [exact Hr|]. split; [lia|].
  pose proof (Z.div_mod leaves (2 ^ height) ltac:(lia)) as Hdm.
  pose proof (Z.mod_pos_bound leaves (2 ^ height) Hp) as Hmb.
  split.
  - replace ((-1 + n + 2) * height) with (n * height + height) by lia.
    rewrite Z.pow_add_r by nia. nia.
  - intros HK. specialize (Hlo ltac:(lia)).
    replace ((-1 + n + 1) * height) with ((n - 1) * height + height) by lia.
    rewrite Z.pow_add_r by nia. nia.
Qed.

(** C6.  For a tree size [leaves >= 0] (an [int64]) and a tile height
    [height >= 1], [getLevelsForLeafCount] returns a number [K >= -1].
    Starting from [c = leaves >> height], [K + 1] is the number of further
    shifts by [height] that bring [c] to zero; equivalently [K] is the
    greatest [k >= 0] with [2^((k+1)*height) <= leaves], and -1 exactly when
    [leaves < 2^height]; no stratum above [K] has a full tile. *)
Theorem getLevelsForLeafCount_greatest (height leaves : Z) :
  1 <= height ->
  0 <= leaves < 2 ^ 63 ->
  exists K, Audit.getLevelsForLeafCount height leaves = Ok K
    /\ -1 <= K
    /\ Z.shiftr (Z.shiftr leaves height) ((K + 1) * height) = 0
    /\ (forall n, 0 <= n <= K ->
          0 < Z.shiftr (Z.shiftr leaves height) (n * height))
    /\ (K = -1 <-> leaves < 2 ^ height)
    /\ (forall k, 0 <= k -> (2 ^ ((k + 1) * height) <= leaves <-> k <= K))
    /\ (forall k, K < k -> leaves / 2 ^ ((k + 1) * height) = 0).
Proof.
  intros Hh Hl.
  destruct (getLevelsForLeafCount_bounds height leaves Hh Hl)
    as [K [Hr [HK [Hu Hlo]]]].
  exists K. split; [exact Hr|]. split; [exact HK|].
  assert (Hmono : forall k, K < k -> leaves < 2 ^ ((k + 1) * height)).
  { intros k Hk. eapply Z.lt_le_trans; [exact Hu|].
    apply Z.pow_le_mono_r; nia. }
  assert (Hp : 0 < 2 ^ height) by (apply Z.pow_pos_nonneg; lia).
  assert (Hc : 0 <= leaves / 2 ^ height) by (apply Z.div_pos; lia).
  rewrite (Z.shiftr_div_pow2 leaves height) by lia.
  split; [|split; [|split; [|split]]].
  - rewrite Z.shiftr_div_pow2 by nia. apply Z.div_small. split; [exact Hc|].
    apply Z.div_lt_upper_bound; [lia|].
    rewrite <- Z.pow_add_r by nia.
    replace (height + (K + 1) * height) with ((K + 2) * height) by lia.
    exact Hu.
  - intros n Hn. rewrite Z.shiftr_div_pow2 by nia.
    assert (Hpn : 0 < 2 ^ (n * height)) by (apply Z.pow_pos_nonneg; nia).
    apply Z.div_str_pos. split; [exact Hpn|].
    apply Z.div_le_lower_bound; [lia|].
    rewrite <- Z.pow_add_r by nia.
    eapply Z.le_trans; [|apply Hlo; lia].
    apply Z.pow_le_mono_r; nia.
  - split.
    + intros ->. replace ((-1 + 2) * height) with height in Hu by lia. exact Hu.
    + intros Hlt. destruct (Z.eq_dec K (-1)) as [|Hne]; [assumption|].
      specialize (Hlo ltac:(lia)).
      assert (2 ^ height <= 2 ^ ((K + 1) * height))
        by (apply Z.pow_le_mono_r; nia).
      lia.
  - intros k Hk. split.
    + intros Hle. destruct (Z_le_gt_dec k K) as [|Hgt]; [assumption|].
      specialize (Hmono k ltac:(lia)). lia.
    + intros Hle. specialize (Hlo ltac:(lia)).
      eapply Z.le_trans; [|exact Hlo]. apply Z.pow_le_mono_r; nia.
  - intros k Hk. apply Z.div_small. split; [lia|]. apply Hmono. exact Hk.
Qed.

(** C6 for a tree of 300 leaves and tiles of height 8. *)
Lemma getLevelsForLeafCount_greatest_witness :
  exists K, Audit.getLevelsForLeafCount 8 300 = Ok K
    /\ -1 <= K
    /\ Z.shiftr (Z.shiftr 300 8) ((K + 1) * 8) = 0
    /\ (forall n, 0 <= n <= K -> 0 < Z.shiftr (Z.shiftr 300 8) (n * 8))
    /\ (K = -1 <-> 300 < 2 ^ 8)
    /\ (forall k, 0 <= k -> (2 ^ ((k + 1) * 8) <= 300 <-> k <= K))
    /\ (forall k, K < k -> 300 / 2 ^ ((k + 1) * 8) = 0).
Proof.
  apply (getLevelsForLeafCount_greatest 8 300); lia.
Defined.

Example getLevelsForLeafCount_256 : Audit.getLevelsForLeafCount 8 256 = Ok 0.
Proof. reflexivity. Qed.

Example getLevelsForLeafCount_height0 : Audit.getLevelsForLeafCount 0 1 = Hang.
Proof. reflexivity. Qed.

(** ** Compact ranges *)

Section CompactFacts.

Variable f : Compact.RangeFactory.

Lemma pow2_pos (k : nat) : 0 < 2 ^ Z.of_nat k.
Proof. apply Z.pow_pos_nonneg; lia. Qed.

Lemma pow2_succ (k : nat) : 2 ^ Z.of_nat (S k) = 2 * 2 ^ Z.of_nat k.
Proof. rewrite Nat2Z.inj_succ, Z.pow_succ_r by lia. reflexivity. Qed.

Lemma carry_cons (k' : nat) (h' : bytes) (rest : list (nat * bytes))
      (k : nat) (h : bytes) (e : Z) :
  Compact.carry f ((k', h') :: rest) k h e
  = if Nat.eqb k' k && (e mod 2 ^ Z.of_nat (S k) =? 0)
    then Compact.carry f rest (S k) (Compact.Hash f h' h) e
    else (k, h) :: (k', h') :: rest.
Proof. reflexivity. Qed.

(** A root whose parent is not aligned stays as it is. *)
Lemma carry_unaligned (stack : list (nat * bytes)) (k : nat) (h : bytes) (e : Z) :
  e mod 2 ^ Z.of_nat (S k) <> 0 ->
  Compact.carry f stack k h e = (k, h) :: stack.
Proof.
  intros He. destruct stack as [|[k' h'] rest]; [reflexivity|].
  rewrite carry_cons.
  destruct (e mod 2 ^ Z.of_nat (S k) =? 0) eqn:E.
  - apply Z.eqb_eq in E. contradiction.
  - rewrite andb_false_r. reflexivity.
Qed.

(** Two siblings merge. *)
Lemma carry_sibling (stack : list (nat * bytes)) (k : nat) (h' h : bytes) (e : Z) :
  e mod 2 ^ Z.of_nat (S k) = 0 ->
  Compact.carry f ((k, h') :: stack) k h e
  = Compact.carry f stack (S k) (Compact.Hash f h' h) e.
Proof.
  intros He. rewrite carry_cons.
  rewrite Nat.eqb_refl. apply Z.eqb_eq in He. rewrite He. reflexivity.
Qed.

Lemma appendHash_unfold (r : Compact.Range) (h : bytes) :
  Audit.appendHash f r h
  = Compact.mkRange (Compact.Begin r) (Compact.End r + 1)
      (rev (Compact.carry f (rev (Compact.roots r)) 0 h (Compact.End r + 1))).
Proof. reflexivity. Qed.

Lemma appendAll_app (r : Compact.Range) (l1 l2 : list bytes) :
  Audit.appendAll f r (l1 ++ l2)
  = Audit.appendAll f (Audit.appendAll f r l1) l2.
Proof. unfold Audit.appendAll. apply fold_left_app. Qed.

(** Appending hashes moves the end of a range by their number. *)
Lemma appendAll_bounds (l : list bytes) (r : Compact.Range) :
  Compact.Begin (Audit.appendAll f r l) = Compact.Begin r
  /\ Compact.End (Audit.appendAll f r l) = Compact.End r + Z.of_nat (length l).
Proof.
  revert r. induction l as [|h l IH]; intros r.
  - simpl. split; [reflexivity|lia].
  - change (Audit.appendAll f r (h :: l))
      with (Audit.appendAll f (Audit.appendHash f r h) l).
    destruct (IH (Audit.appendHash f r h)) as [Hb He].
    rewrite Hb, He, appendHash_unfold. simpl. split; [reflexivity|lia].
Qed.

(** Appending the [2^k] hashes of an aligned perfect subtree comes to
    pushing its root. *)
Lemma appendAll_perfect (k : nat) (l : list bytes) (r : Compact.Range) :
  length l = (2 ^ k)%nat ->
  Compact.End r mod 2 ^ Z.of_nat k = 0 ->
  Audit.appendAll f r l
  = Compact.mkRange (Compact.Begin r) (Compact.End r + 2 ^ Z.of_nat k)
      (rev (Compact.carry f (rev (Compact.roots r)) k
              (Compact.perfectRoot f k l) (Compact.End r + 2 ^ Z.of_nat k))).
Proof.
  revert l r. induction k as [|k IH]; intros l r Hlen Hal.
  - destruct l as [|h [|h' l']]; simpl in Hlen; try lia.
    reflexivity.
  - pose proof (pow2_pos k) as Hp. pose proof (pow2_succ k) as Hs.
    assert (Hk : (2 ^ S k = 2 ^ k + 2 ^ k)%nat) by (simpl; lia).
    rewrite <- (firstn_skipn (2 ^ k) l) at 1.
    rewrite appendAll_app.
    assert (Hal1 : Compact.End r mod 2 ^ Z.of_nat k = 0).
    { rewrite Hs in Hal. apply Z.mod_divide in Hal; [|lia].
      apply Z.mod_divide; [lia|].
      destruct Hal as [q Hq]. exists (q * 2). lia. }
    rewrite (IH (firstn (2 ^ k) l) r); [|rewrite length_firstn; lia|exact Hal1].
    set (e1 := Compact.End r + 2 ^ Z.of_nat k).
    assert (He1 : e1 mod 2 ^ Z.of_nat (S k) <> 0).
    { unfold e1. intros Hc. rewrite Hs in Hal, Hc.
      apply Z.mod_divide in Hal; [|lia]. apply Z.mod_divide in Hc; [|lia].
      destruct Hal as [q Hq]. destruct Hc as [q' Hq'].
      assert (2 ^ Z.of_nat k * (2 * (q' - q) - 1) = 0) by lia.
      assert (2 * (q' - q) - 1 = 0) by nia. lia. }
    rewrite (carry_unaligned _ _ _ _ He1).
    rewrite IH; [|rewrite length_skipn; lia|].
    + cbn [Compact.Begin Compact.End Compact.roots].
      rewrite rev_involutive.
      replace (e1 + 2 ^ Z.of_nat k)
        with (Compact.End r + 2 ^ Z.of_nat (S k)) by (unfold e1; lia).
      rewrite carry_sibling.
      * reflexivity.
      * rewrite Hs in *. apply Z.mod_divide in Hal; [|lia].
        apply Z.mod_divide; [lia|].
        destruct Hal as [q Hq]. exists (q + 1). lia.
    + cbn [Compact.End]. unfold e1.
      apply Z.mod_divide in Hal1; [|lia]. apply Z.mod_divide; [lia|].
      destruct Hal1 as [q Hq]. exists (q + 1). lia.
Qed.

Lemma largestFit_eq (n t : nat) (b e : Z) :
  (t <= n)%nat ->
  (t = 0%nat \/ Compact.fits b e t = true) ->
  (forall j, (t < j <= n)%nat -> Compact.fits b e j = false) ->
  Compact.largestFit n b e = t.
Proof.
  induction n as [|n IH]; intros Hle Ht Hj.
  - simpl. lia.
  - cbn [Compact.largestFit].
    destruct (Nat.eq_dec t (S n)) as [->|Hne].
    + destruct Ht as [Ht|Ht]; [discriminate|]. rewrite Ht. reflexivity.
    + rewrite (Hj (S n)) by lia. apply IH; [lia|exact Ht|].
      intros j Hjr. apply Hj. lia.
Qed.

Lemma cover_S (fuel : nat) (b e : Z) :
  Compact.cover (S fuel) b e
  = if b <? e then
      Compact.largestFit 63 b e
      :: Compact.cover fuel (b + 2 ^ Z.of_nat (Compact.largestFit 63 b e)) e
    else [].
Proof. reflexivity. Qed.

(** An aligned perfect subtree is covered by itself. *)
Lemma cover_aligned (t : nat) (o : Z) :
  (t <= 63)%nat ->
  Compact.cover 128 (o * 2 ^ Z.of_nat t) ((o + 1) * 2 ^ Z.of_nat t) = [t].
Proof.
  intros Ht. pose proof (pow2_pos t) as Hp.
  change 128%nat with (S (S 126)).
  assert (Hfit : Compact.largestFit 63 (o * 2 ^ Z.of_nat t)
                                    ((o + 1) * 2 ^ Z.of_nat t) = t).
  { apply largestFit_eq; [exact Ht| |].
    - right. unfold Compact.fits. rewrite Z.mod_mul by lia.
      apply andb_true_intro. split; [reflexivity|]. apply Z.leb_le. lia.
    - intros j Hj. unfold Compact.fits. apply andb_false_intro2.
      apply Z.leb_gt.
      assert (2 ^ Z.of_nat t < 2 ^ Z.of_nat j)
        by (apply Z.pow_lt_mono_r; lia).
      lia. }
  rewrite cover_S.
  replace (o * 2 ^ Z.of_nat t <? (o + 1) * 2 ^ Z.of_nat t) with true
    by (symmetry; apply Z.ltb_lt; lia).
  rewrite Hfit, cover_S.
  replace (o * 2 ^ Z.of_nat t + 2 ^ Z.of_nat t <? (o + 1) * 2 ^ Z.of_nat t)
    with false by (symmetry; apply Z.ltb_ge; lia).
  reflexivity.
Qed.

(** The range of an aligned perfect subtree is made of its one root. *)
Lemma NewRange_aligned (t : nat) (o : Z) (x : bytes) :
  (t <= 63)%nat ->
  Compact.NewRange (o * 2 ^ Z.of_nat t) ((o + 1) * 2 ^ Z.of_nat t) [x]
  = Ok (Compact.mkRange (o * 2 ^ Z.of_nat t) ((o + 1) * 2 ^ Z.of_nat t)
                        [(t, x)]).
Proof.
  intros Ht. pose proof (pow2_pos t) as Hp. unfold Compact.NewRange.
  replace ((o + 1) * 2 ^ Z.of_nat t <? o * 2 ^ Z.of_nat t) with false
    by (symmetry; apply Z.ltb_ge; lia).
  rewrite (cover_aligned t o Ht). reflexivity.
Qed.

(** An adjacent range is appended, and moves the end to its own. *)
Lemma appendRange_adjacent (r other : Compact.Range) :
  Compact.Begin other = Compact.End r ->
  Compact.Begin (Audit.appendRange f r other) = Compact.Begin r
  /\ Compact.End (Audit.appendRange f r other) = Compact.End other.
Proof.
  intros Hadj. unfold Audit.appendRange, Compact.AppendRange.
  rewrite Hadj, Z.eqb_refl. split; reflexivity.
Qed.

End CompactFacts.

(** ** The root check *)

Section RootCheck.

Context {DB SumDB : Type} {store : Audit.LocalStore DB}
        {remote : Audit.RemoteLog SumDB}.
Variable RecordHash : bytes -> bytes.

Let Service := @Audit.Service DB SumDB.

Lemma u64z_small (z : Z) : 0 <= z < 2 ^ 63 -> u64z z = z.
Proof.
  intros Hz. unfold u64z. apply Z.mod_small.
  change (2 ^ 64) with (2 * 2 ^ 63). lia.
Qed.

Lemma i64_small (z : Z) : 0 <= z < 2 ^ 63 -> i64 z = z.
Proof.
  intros Hz. unfold i64. rewrite Z.mod_small; [lia|].
  change (2 ^ 64) with (2 * 2 ^ 63). lia.
Qed.

(** The stored hashes of a tile make a range of one root. *)
Lemma tile_single_root (f : Compact.RangeFactory) (h : Z) (hashes : list bytes) :
  0 <= h ->
  Z.of_nat (length hashes) = 2 ^ h ->
  Compact.Hashes (Audit.appendAll f (Compact.NewEmptyRange 0) hashes)
  = [Compact.perfectRoot f (Z.to_nat h) hashes].
Proof.
  intros Hh Hlen.
  rewrite (appendAll_perfect f (Z.to_nat h)).
  - reflexivity.
  - apply Nat2Z.inj. rewrite Hlen, Nat2Z.inj_pow, Z2Nat.id by lia. reflexivity.
  - apply Z.mod_0_l. pose proof (pow2_pos (Z.to_nat h)). lia.
Qed.

(** The loop over the tiles of a stratum appends them all. *)
Lemma tileLoop_ok (s : Service) (checkpoint : tlog.Tree)
      (level : Z) (t : nat) (n : nat) (offset : Z) (logRange : Compact.Range) :
  0 <= Audit.height s ->
  (t <= 63)%nat ->
  0 <= offset ->
  (offset + Z.of_nat n) * 2 ^ Z.of_nat t < 2 ^ 63 ->
  Compact.End logRange = offset * 2 ^ Z.of_nat t ->
  (forall o, offset <= o < offset + Z.of_nat n ->
     exists hashes,
       Audit.Tile (Audit.localDB s) (Audit.height s) level o = Ok hashes
       /\ Z.of_nat (length hashes) = 2 ^ Audit.height s) ->
  exists r,
    Audit.tileLoop s level (2 ^ Z.of_nat t) n offset logRange = Ok r
    /\ Compact.Begin r = Compact.Begin logRange
    /\ Compact.End r = (offset + Z.of_nat n) * 2 ^ Z.of_nat t.
Proof.
  intros Hh Ht. pose proof (pow2_pos t) as Hp.
  revert offset logRange.
  induction n as [|n IH]; intros offset logRange Ho Hbound Hend Htiles.
  - exists logRange. repeat split. rewrite Hend. f_equal. lia.
  - cbn [Audit.tileLoop].
    destruct (Htiles offset ltac:(lia)) as [hashes [Htile Hlen]].
    rewrite Htile. cbn [Audit.wrap bind].
    rewrite (tile_single_root _ _ _ Hh Hlen).
    assert (Hb1 : (offset + 1) * 2 ^ Z.of_nat t < 2 ^ 63).
    { rewrite Nat2Z.inj_succ in Hbound. nia. }
    assert (Hb0 : offset < 2 ^ 63) by nia.
    rewrite (u64z_small offset), (u64z_small (offset + 1)) by nia.
    rewrite !u64z_small by nia.
    rewrite (NewRange_aligned t offset _ Ht).
    destruct (appendRange_adjacent (Audit.rf s) logRange
                (Compact.mkRange (offset * 2 ^ Z.of_nat t)
                   ((offset + 1) * 2 ^ Z.of_nat t)
                   [(t, Compact.perfectRoot (Audit.rf s)
                          (Z.to_nat (Audit.height s)) hashes)]))
      as [Hb He]; [symmetry; exact Hend|].
    destruct (IH (offset + 1) (Audit.appendRange (Audit.rf s) logRange
                (Compact.mkRange (offset * 2 ^ Z.of_nat t)
                   ((offset + 1) * 2 ^ Z.of_nat t)
                   [(t, Compact.perfectRoot (Audit.rf s)
                          (Z.to_nat (Audit.height s)) hashes)])))
      as [r [Hr [Hrb Hre]]].
    + lia.
    + rewrite Nat2Z.inj_succ in Hbound.
      replace (offset + 1 + Z.of_nat n) with (offset + Z.succ (Z.of_nat n)) by lia.
      exact Hbound.
    + rewrite He. reflexivity.
    + intros o Hor. apply Htiles. lia.
    + exists r. split; [exact Hr|]. split; [rewrite Hrb; exact Hb|].
      rewrite Hre. f_equal. lia.
Qed.

Lemma shiftl_1 (n : Z) : 0 <= n -> Z.shiftl 1 n = 2 ^ n.
Proof. intros Hn. rewrite Z.shiftl_mul_pow2 by lia. lia. Qed.

(** The loop over the strata leaves a range that covers the leaves of the
    full leaf tiles. *)
Lemma levelLoop_ok (s : Service) (checkpoint : tlog.Tree) (n : nat)
      (logRange : Compact.Range) :
  1 <= Audit.height s ->
  0 <= tlog.N checkpoint < 2 ^ 63 ->
  Audit.holdsTiles s checkpoint ->
  (0 < Z.of_nat n -> 2 ^ (Z.of_nat n * Audit.height s) <= tlog.N checkpoint) ->
  Compact.End logRange
  = tlog.N checkpoint / 2 ^ ((Z.of_nat n + 1) * Audit.height s)
    * 2 ^ ((Z.of_nat n + 1) * Audit.height s) ->
  exists r,
    Audit.levelLoop s checkpoint n logRange = Ok r
    /\ Compact.Begin r = Compact.Begin logRange
    /\ Compact.End r
       = tlog.N checkpoint / 2 ^ Audit.height s * 2 ^ Audit.height s.
Proof.
  intros Hh HN Htiles. revert logRange.
  induction n as [|n IH]; intros logRange Htop Hend.
  - exists logRange. repeat split. rewrite Hend. simpl Z.of_nat.
    replace ((0 + 1) * Audit.height s) with (Audit.height s) by lia.
    reflexivity.
  - cbn [Audit.levelLoop].
    set (h := Audit.height s) in *. set (N := tlog.N checkpoint) in *.
    set (shift := (Z.of_nat n + 1) * h).
    assert (Hshift : 0 <= shift) by (unfold shift; nia).
    specialize (Htop ltac:(lia)).
    replace (Z.of_nat (S n) * h) with shift in Htop by (unfold shift; lia).
    replace ((Z.of_nat (S n) + 1) * h) with (shift + h) in Hend
      by (unfold shift; lia).
    rewrite Z.pow_add_r in Hend by lia.
    set (t := Z.to_nat shift).
    assert (Et : 2 ^ shift = 2 ^ Z.of_nat t)
      by (unfold t; rewrite Z2Nat.id by lia; reflexivity).
    assert (Hp : 0 < 2 ^ Z.of_nat t) by apply pow2_pos.
    assert (Hw : 0 < 2 ^ h) by (apply Z.pow_pos_nonneg; lia).
    assert (Ht : (t <= 63)%nat).
    { destruct (Nat.le_gt_cases t 63) as [|Hgt]; [assumption|].
      assert (2 ^ 63 <= 2 ^ Z.of_nat t) by (apply Z.pow_le_mono_r; lia).
      lia. }
    unfold shlu. destruct (shift <? 0) eqn:E; [apply Z.ltb_lt in E; lia|].
    cbn [bind]. rewrite shiftl_1 by lia. rewrite Et in *.
    set (T := 2 ^ Z.of_nat t) in *.
    rewrite (u64z_small T) by lia. rewrite (u64z_small N) by lia.
    unfold quou. destruct (T =? 0) eqn:E0; [apply Z.eqb_eq in E0; lia|].
    cbn [bind].
    assert (HqT : 0 <= N / T) by (apply Z.div_pos; lia).
    assert (HqT' : N / T * T <= N)
      by (rewrite Z.mul_comm; apply Z.mul_div_le; lia).
    set (q := N / (T * 2 ^ h)) in *.
    assert (Hq : 0 <= q) by (apply Z.div_pos; nia).
    assert (Hq' : q * (T * 2 ^ h) <= N)
      by (rewrite Z.mul_comm; apply Z.mul_div_le; nia).
    assert (Hfirst : Compact.End logRange / T = q * 2 ^ h).
    { rewrite Hend. replace (q * (T * 2 ^ h)) with (q * 2 ^ h * T) by lia.
      apply Z.div_mul. lia. }
    assert (Hle : q * 2 ^ h <= N / T).
    { apply Z.div_le_lower_bound; [lia|]. nia. }
    rewrite Hfirst.
    rewrite (i64_small (N / T)) by nia.
    rewrite (i64_small (q * 2 ^ h)) by nia.
    assert (Hn2 : Z.of_nat (Z.to_nat (N / T - q * 2 ^ h)) = N / T - q * 2 ^ h)
      by (apply Z2Nat.id; lia).
    assert (Hpre4 : (q * 2 ^ h + Z.of_nat (Z.to_nat (N / T - q * 2 ^ h)))
                    * 2 ^ Z.of_nat t < 2 ^ 63).
    { rewrite Hn2. fold T. lia. }
    assert (Hpre5 : Compact.End logRange = q * 2 ^ h * 2 ^ Z.of_nat t).
    { rewrite Hend. fold T. lia. }
    assert (Hpre6 : forall o,
               q * 2 ^ h <= o < q * 2 ^ h + Z.of_nat (Z.to_nat (N / T - q * 2 ^ h)) ->
               exists hashes,
                 Audit.Tile (Audit.localDB s) (Audit.height s) (Z.of_nat n) o
                 = Ok hashes
                 /\ Z.of_nat (length hashes) = 2 ^ Audit.height s).
    { intros o Ho. rewrite Hn2 in Ho.
      apply Htiles; [lia|]. fold h. fold shift. fold N.
      rewrite Et. lia. }
    destruct (tileLoop_ok s checkpoint (Z.of_nat n) t
                (Z.to_nat (N / T - q * 2 ^ h)) (q * 2 ^ h) logRange
                ltac:(fold h; lia) Ht ltac:(nia) Hpre4 Hpre5 Hpre6)
      as [r1 [Hr1 [Hb1 He1]]].
    rewrite Hn2 in He1.
    fold T in Hr1. rewrite Hr1. cbn [bind].
    destruct (IH r1) as [r [Hr [Hb He]]].
    + intros Hn. eapply Z.le_trans; [|exact Htop].
      rewrite <- Et. apply Z.pow_le_mono_r; [lia|].
      unfold shift. nia.
    + rewrite He1. fold shift. rewrite Et. fold T. f_equal. lia.
    + exists r. split; [exact Hr|]. split; [rewrite Hb; exact Hb1|exact He].
Qed.


Lemma offsets_S (offset : Z) (n : nat) :
  map (fun i => offset + Z.of_nat i) (seq 0 (S n))
  = offset :: map (fun i => offset + 1 + Z.of_nat i) (seq 0 n).
Proof.
  cbn [seq map]. rewrite <- seq_shift, map_map. f_equal; [lia|].
  apply map_ext. intros i. lia.
Qed.



(** One turn of the loop over the tiles of a stratum, at a tile that is
    held: the range of the tile is appended with [AppendRange]. *)
Lemma tileLoop_step (s : Service) (level : Z) (t n : nat) (offset : Z)
      (logRange : Compact.Range) (hashes : list bytes) :
  0 <= Audit.height s ->
  Z.of_nat t = (level + 1) * Audit.height s ->
  (t <= 63)%nat ->
  0 <= offset ->
  (offset + 1) * 2 ^ Z.of_nat t < 2 ^ 63 ->
  Compact.End logRange = offset * 2 ^ Z.of_nat t ->
  Audit.Tile (Audit.localDB s) (Audit.height s) level offset = Ok hashes ->
  Z.of_nat (length hashes) = 2 ^ Audit.height s ->
  exists r',
    Compact.AppendRange (Audit.rf s) logRange
      (Audit.tileRange (Audit.rf s) (Audit.height s) (level, offset) hashes)
    = Ok r'
    /\ Compact.Begin r' = Compact.Begin logRange
    /\ Compact.End r' = (offset + 1) * 2 ^ Z.of_nat t
    /\ Audit.tileLoop s level (2 ^ Z.of_nat t) (S n) offset logRange
       = Audit.tileLoop s level (2 ^ Z.of_nat t) n (offset + 1) r'.
Proof.
  intros Hh Hlt Ht Ho Hbound Hend Htile Hlen.
  pose proof (pow2_pos t) as Hp.
  assert (Hrange : Audit.tileRange (Audit.rf s) (Audit.height s) (level, offset) hashes
                   = Compact.mkRange (offset * 2 ^ Z.of_nat t)
                       ((offset + 1) * 2 ^ Z.of_nat t)
                       [(t, Compact.perfectRoot (Audit.rf s)
                              (Z.to_nat (Audit.height s)) hashes)]).
  { unfold Audit.tileRange. cbn [fst snd]. rewrite <- Hlt, Nat2Z.id. reflexivity. }
  rewrite Hrange.
  unfold Compact.AppendRange. cbn [Compact.Begin Compact.End Compact.roots].
  rewrite <- Hend, Z.eqb_refl.
  eexists. split; [reflexivity|].
  cbn [Compact.Begin Compact.End]. split; [reflexivity|]. split; [reflexivity|].
  cbn [Audit.tileLoop]. rewrite Htile. cbn [Audit.wrap bind].
  rewrite (tile_single_root _ _ _ Hh Hlen).
  rewrite (u64z_small offset), (u64z_small (offset + 1)) by nia.
  rewrite !u64z_small by nia.
  rewrite (NewRange_aligned t offset _ Ht). cbn [bind].
  unfold Audit.appendRange, Compact.AppendRange.
  cbn [Compact.Begin Compact.End Compact.roots].
  rewrite <- Hend, Z.eqb_refl. reflexivity.
Qed.

(** The loop over the tiles of a stratum appends the range of each of
    its tiles, in order. *)
Lemma tileLoop_appends (s : Service) (level : Z) (t n : nat) :
  0 <= Audit.height s ->
  Z.of_nat t = (level + 1) * Audit.height s ->
  (t <= 63)%nat ->
  forall (offset : Z) (logRange : Compact.Range),
    0 <= offset ->
    (offset + Z.of_nat n) * 2 ^ Z.of_nat t < 2 ^ 63 ->
    Compact.End logRange = offset * 2 ^ Z.of_nat t ->
    (forall o, offset <= o < offset + Z.of_nat n ->
       exists hashes, Audit.holdsTile s (level, o) hashes) ->
    exists tiles r,
      Forall2 (Audit.holdsTile s)
              (map (pair level) (map (fun i => offset + Z.of_nat i) (seq 0 n)))
              tiles
      /\ Audit.tileLoop s level (2 ^ Z.of_nat t) n offset logRange = Ok r
      /\ Audit.appendTiles (Audit.rf s) (Audit.height s) logRange
           (combine (map (pair level)
                         (map (fun i => offset + Z.of_nat i) (seq 0 n)))
                    tiles)
         = Ok r
      /\ Compact.Begin r = Compact.Begin logRange
      /\ Compact.End r = (offset + Z.of_nat n) * 2 ^ Z.of_nat t.
Proof.
  intros Hh Hlt Ht. pose proof (pow2_pos t) as Hp.
  induction n as [|n IH]; intros offset logRange Ho Hbound Hend Htiles.
  - exists [], logRange. cbn [seq map combine Audit.appendTiles Audit.tileLoop].
    split; [constructor|]. repeat split. rewrite Hend. f_equal. lia.
  - destruct (Htiles offset ltac:(lia)) as [hashes [Htile Hlen]].
    cbn [fst snd] in Htile.
    rewrite Nat2Z.inj_succ in Hbound.
    destruct (tileLoop_step s level t n offset logRange hashes
                Hh Hlt Ht Ho ltac:(nia) Hend Htile Hlen)
      as [r' [Happ [Hb' [He' Hstep]]]].
    destruct (IH (offset + 1) r' ltac:(lia)
                 ltac:(replace (offset + 1 + Z.of_nat n)
                         with (offset + Z.succ (Z.of_nat n)) by lia;
                       exact Hbound)
                 He'
                 ltac:(intros o Hor; apply Htiles; lia))
      as [tiles [r [Hheld [Hrun [Hspec [Hb He]]]]]].
    exists (hashes :: tiles), r.
    rewrite offsets_S. cbn [map combine Audit.appendTiles].
    split; [constructor; [split; assumption|exact Hheld]|].
    split; [rewrite Hstep; exact Hrun|].
    split; [rewrite Happ; cbn [bind]; exact Hspec|].
    split; [rewrite Hb; exact Hb'|].
    rewrite He. f_equal. lia.
Qed.

(** The loop over the tiles of a stratum ends at the first tile that the
    store fails to give, with the failure. *)
Lemma tileLoop_fails (s : Service) (level : Z) (t n : nat) (bad : Z)
      (e : Audit.error) :
  0 <= Audit.height s ->
  Z.of_nat t = (level + 1) * Audit.height s ->
  (t <= 63)%nat ->
  Audit.Tile (Audit.localDB s) (Audit.height s) level bad = Err e ->
  forall (offset : Z) (logRange : Compact.Range),
    0 <= offset ->
    offset <= bad < offset + Z.of_nat n ->
    (bad + 1) * 2 ^ Z.of_nat t < 2 ^ 63 ->
    Compact.End logRange = offset * 2 ^ Z.of_nat t ->
    (forall o, offset <= o < bad -> exists hashes, Audit.holdsTile s (level, o) hashes) ->
    Audit.tileLoop s level (2 ^ Z.of_nat t) n offset logRange
    = Err (Audit.ErrGetTile level bad e).
Proof.
  intros Hh Hlt Ht Hbad. pose proof (pow2_pos t) as Hp.
  induction n as [|n IH]; intros offset logRange Ho Hin Hbound Hend Htiles.
  - cbn [Z.of_nat] in Hin. lia.
  - destruct (Z.eq_dec offset bad) as [->|Hne].
    + cbn [Audit.tileLoop]. rewrite Hbad. reflexivity.
    + destruct (Htiles offset ltac:(lia)) as [hashes [Htile Hlen]].
      cbn [fst snd] in Htile.
      destruct (tileLoop_step s level t n offset logRange hashes
                  Hh Hlt Ht Ho ltac:(nia) Hend Htile Hlen)
        as [r' [_ [_ [He' Hstep]]]].
      rewrite Hstep. apply IH; [lia|lia|exact Hbound|exact He'|].
      intros o Hor. apply Htiles. lia.
Qed.


(** One turn of the loop over the strata, for a stratum that has a full
    tile: the loop over its tiles runs from the tile where the range
    ends to the last full tile. *)
Lemma levelLoop_stratum (s : Service) (checkpoint : tlog.Tree) (n : nat)
      (logRange : Compact.Range) :
  1 <= Audit.height s ->
  0 <= tlog.N checkpoint < 2 ^ 63 ->
  2 ^ ((Z.of_nat n + 1) * Audit.height s) <= tlog.N checkpoint ->
  Compact.End logRange
  = tlog.N checkpoint / 2 ^ ((Z.of_nat n + 2) * Audit.height s)
    * 2 ^ ((Z.of_nat n + 2) * Audit.height s) ->
  let t := Z.to_nat ((Z.of_nat n + 1) * Audit.height s) in
  let first := tlog.N checkpoint / 2 ^ ((Z.of_nat n + 2) * Audit.height s)
               * 2 ^ Audit.height s in
  let last := tlog.N checkpoint / 2 ^ ((Z.of_nat n + 1) * Audit.height s) in
  Z.of_nat t = (Z.of_nat n + 1) * Audit.height s
  /\ (t <= 63)%nat
  /\ 0 <= first <= last
  /\ last * 2 ^ Z.of_nat t <= tlog.N checkpoint
  /\ Compact.End logRange = first * 2 ^ Z.of_nat t
  /\ Audit.levelLoop s checkpoint (S n) logRange
     = bind (Audit.tileLoop s (Z.of_nat n) (2 ^ Z.of_nat t)
               (Z.to_nat (last - first)) first logRange)
            (Audit.levelLoop s checkpoint n).
Proof.
  intros Hh HN Htop Hend. cbv zeta.
  set (h := Audit.height s) in *. set (N := tlog.N checkpoint) in *.
  set (shift := (Z.of_nat n + 1) * h) in *.
  assert (Hshift : 0 <= shift) by (unfold shift; nia).
  set (t := Z.to_nat shift).
  assert (Et : Z.of_nat t = shift) by (unfold t; apply Z2Nat.id; exact Hshift).
  replace ((Z.of_nat n + 2) * h) with (shift + h) in * by (unfold shift; lia).
  rewrite Z.pow_add_r in * by lia.
  rewrite <- Et in *.
  assert (Hp : 0 < 2 ^ Z.of_nat t) by apply pow2_pos.
  assert (Hw : 0 < 2 ^ h) by (apply Z.pow_pos_nonneg; lia).
  assert (Ht : (t <= 63)%nat).
  { destruct (Nat.le_gt_cases t 63) as [|Hgt]; [assumption|].
    assert (2 ^ 63 <= 2 ^ Z.of_nat t) by (apply Z.pow_le_mono_r; lia).
    lia. }
  set (T := 2 ^ Z.of_nat t) in *.
  set (q := N / (T * 2 ^ h)) in *.
  assert (Hq : 0 <= q) by (apply Z.div_pos; nia).
  assert (Hq' : q * (T * 2 ^ h) <= N)
    by (rewrite Z.mul_comm; apply Z.mul_div_le; nia).
  assert (HqT : 0 <= N / T) by (apply Z.div_pos; lia).
  assert (HqT' : N / T * T <= N)
    by (rewrite Z.mul_comm; apply Z.mul_div_le; lia).
  assert (Hle : q * 2 ^ h <= N / T).
  { apply Z.div_le_lower_bound; [lia|]. nia. }
  assert (Hfirst : Compact.End logRange / T = q * 2 ^ h).
  { rewrite Hend. replace (q * (T * 2 ^ h)) with (q * 2 ^ h * T) by lia.
    apply Z.div_mul. lia. }
  split; [reflexivity|]. split; [exact Ht|].
  split; [nia|].
  split; [exact HqT'|].
  split; [rewrite Hend; lia|].
  cbn [Audit.levelLoop]. fold h. fold N. fold shift. rewrite <- Et.
  unfold shlu. replace (Z.of_nat t <? 0) with false
    by (symmetry; apply Z.ltb_ge; lia).
  cbn [bind]. rewrite shiftl_1 by lia. fold T.
  rewrite (u64z_small T) by lia. rewrite (u64z_small N) by lia.
  unfold quou. replace (T =? 0) with false by (symmetry; apply Z.eqb_neq; lia).
  cbn [bind]. rewrite Hfirst.
  rewrite (i64_small (N / T)) by nia.
  rewrite (i64_small (q * 2 ^ h)) by nia.
  reflexivity.
Qed.


(** The loop over the strata ends at the first tile of the fringe that
    the store fails to give, with the failure. *)
Lemma levelLoop_fails (s : Service) (checkpoint : tlog.Tree) (level bad : Z)
      (e : Audit.error) :
  1 <= Audit.height s ->
  0 <= tlog.N checkpoint < 2 ^ 63 ->
  0 <= level ->
  tlog.N checkpoint / 2 ^ ((level + 2) * Audit.height s) * 2 ^ Audit.height s
  <= bad < tlog.N checkpoint / 2 ^ ((level + 1) * Audit.height s) ->
  Audit.Tile (Audit.localDB s) (Audit.height s) level bad = Err e ->
  (forall l o,
     level < l \/ (l = level /\ o < bad) ->
     tlog.N checkpoint / 2 ^ ((l + 2) * Audit.height s) * 2 ^ Audit.height s
     <= o < tlog.N checkpoint / 2 ^ ((l + 1) * Audit.height s) ->
     exists hashes, Audit.holdsTile s (l, o) hashes) ->
  forall (n : nat) (logRange : Compact.Range),
    level < Z.of_nat n ->
    2 ^ (Z.of_nat n * Audit.height s) <= tlog.N checkpoint ->
    Compact.End logRange
    = tlog.N checkpoint / 2 ^ ((Z.of_nat n + 1) * Audit.height s)
      * 2 ^ ((Z.of_nat n + 1) * Audit.height s) ->
    Audit.levelLoop s checkpoint n logRange
    = Err (Audit.ErrGetTile level bad e).
Proof.
  intros Hh HN Hlevel Hbad Htile Hbefore.
  induction n as [|n IH]; intros logRange Hn Htop Hend; [cbn [Z.of_nat] in Hn; lia|].
  replace (Z.of_nat (S n) * Audit.height s)
    with ((Z.of_nat n + 1) * Audit.height s) in Htop by lia.
  replace ((Z.of_nat (S n) + 1) * Audit.height s)
    with ((Z.of_nat n + 2) * Audit.height s) in Hend by lia.
  destruct (levelLoop_stratum s checkpoint n logRange Hh HN Htop Hend)
    as [Et [Ht [Hfl [Hlast [Hend' Hstep]]]]].
  set (t := Z.to_nat ((Z.of_nat n + 1) * Audit.height s)) in *.
  set (first := tlog.N checkpoint / 2 ^ ((Z.of_nat n + 2) * Audit.height s)
                * 2 ^ Audit.height s) in *.
  set (last := tlog.N checkpoint / 2 ^ ((Z.of_nat n + 1) * Audit.height s)) in *.
  assert (Hcnt : Z.of_nat (Z.to_nat (last - first)) = last - first)
    by (apply Z2Nat.id; lia).
  pose proof (pow2_pos t) as Hp.
  rewrite Hstep.
  destruct (Z.eq_dec (Z.of_nat n) level) as [Heq|Hne].
  - subst level. fold first in Hbad. fold last in Hbad.
    rewrite (tileLoop_fails s (Z.of_nat n) t (Z.to_nat (last - first)) bad e
               ltac:(lia) Et Ht Htile first logRange ltac:(lia)
               ltac:(rewrite Hcnt; lia) ltac:(nia) Hend').
    + reflexivity.
    + intros o Ho. apply Hbefore; [right; split; [reflexivity|lia]|].
      fold first. fold last. lia.
  - destruct (tileLoop_appends s (Z.of_nat n) t (Z.to_nat (last - first))
                ltac:(lia) Et Ht first logRange ltac:(lia)
                ltac:(rewrite Hcnt; lia) Hend')
      as [tiles1 [r1 [_ [Hrun1 [_ [_ He1]]]]]].
    { intros o Ho. rewrite Hcnt in Ho.
      apply Hbefore; [left; lia|]. fold first. fold last. lia. }
    rewrite Hcnt in He1. rewrite Hrun1. cbn [bind].
    apply IH; [lia| |].
    + eapply Z.le_trans; [|exact Htop]. apply Z.pow_le_mono_r; nia.
    + rewrite He1. replace (first + (last - first)) with last by lia.
      rewrite <- Et. reflexivity.
Qed.

(** A tile of the fringe that the store fails to give, the tiles before
    it being held, ends [CheckRootHash] with the failure. *)
Lemma CheckRootHash_fails_at (s : Service) (checkpoint : tlog.Tree)
      (level bad : Z) (e : Audit.error) :
  1 <= Audit.height s < 63 ->
  0 <= tlog.N checkpoint < 2 ^ 63 ->
  0 <= level ->
  tlog.N checkpoint / 2 ^ ((level + 2) * Audit.height s) * 2 ^ Audit.height s
  <= bad < tlog.N checkpoint / 2 ^ ((level + 1) * Audit.height s) ->
  Audit.Tile (Audit.localDB s) (Audit.height s) level bad = Err e ->
  (forall l o,
     level < l \/ (l = level /\ o < bad) ->
     tlog.N checkpoint / 2 ^ ((l + 2) * Audit.height s) * 2 ^ Audit.height s
     <= o < tlog.N checkpoint / 2 ^ ((l + 1) * Audit.height s) ->
     exists hashes, Audit.holdsTile s (l, o) hashes) ->
  Audit.CheckRootHash RecordHash s checkpoint
  = Err (Audit.ErrGetTile level bad e).
Proof.
  intros Hh HN Hlevel Hbad Htile Hbefore.
  set (h := Audit.height s) in *. set (N := tlog.N checkpoint) in *.
  destruct (getLevelsForLeafCount_bounds h N ltac:(lia) HN)
    as [K [HK [HKlo [Hup Hlo]]]].
  assert (Hw : 0 < 2 ^ h) by (apply Z.pow_pos_nonneg; lia).
  assert (Hfirst : 0 <= N / 2 ^ ((level + 2) * h) * 2 ^ h).
  { apply Z.mul_nonneg_nonneg; [|lia]. apply Z.div_pos; [lia|].
    apply Z.pow_pos_nonneg; nia. }
  assert (Hfull : 2 ^ ((level + 1) * h) <= N).
  { assert (Hp : 0 < 2 ^ ((level + 1) * h)) by (apply Z.pow_pos_nonneg; nia).
    destruct (Z_lt_le_dec N (2 ^ ((level + 1) * h))) as [Hlt|]; [|assumption].
    rewrite (Z.div_small N (2 ^ ((level + 1) * h))) in Hbad by lia. lia. }
  assert (HlK : level < K + 1).
  { destruct (Z_lt_le_dec level (K + 1)) as [|Hge]; [assumption|].
    assert (2 ^ ((K + 2) * h) <= 2 ^ ((level + 1) * h))
      by (apply Z.pow_le_mono_r; nia).
    lia. }
  assert (Hn : Z.of_nat (Z.to_nat (K + 1)) = K + 1) by (apply Z2Nat.id; lia).
  unfold Audit.CheckRootHash, Audit.tiledRange. fold h. fold N.
  rewrite HK. cbn [bind].
  rewrite (levelLoop_fails s checkpoint level bad e ltac:(fold h; lia) HN Hlevel
             Hbad Htile Hbefore (Z.to_nat (K + 1)) (Compact.NewEmptyRange 0)).
  - reflexivity.
  - lia.
  - rewrite Hn. fold h. fold N. apply Hlo. lia.
  - rewrite Hn. fold h. fold N. cbn [Compact.NewEmptyRange Compact.End].
    replace ((K + 1 + 1) * h) with ((K + 2) * h) by lia.
    rewrite Z.div_small by lia. reflexivity.
Qed.




End RootCheck.

(** The service on the log of 18 leaves: the clone fetches and writes the
    four full leaf tiles, the hasher stores four leaf tiles and one tile
    above them, and the root check accepts the RFC 6962 root. *)
Example demo_clone :
  snd (fst (Audit.CloneLeafTiles (Audit.demoService Audit.emptyStore)
                                 Audit.demoCheckpoint))
  = [Audit.Fetched 0; Audit.Wrote 0; Audit.Fetched 1; Audit.Wrote 4;
     Audit.Fetched 2; Audit.Wrote 8; Audit.Fetched 3; Audit.Wrote 12]
  /\ Audit.Head Audit.demoCloned = Ok 15.
Proof. split; vm_compute; reflexivity. Qed.

Example demo_hash :
  snd (Audit.HashTiles Audit.stubRecordHash (Audit.demoService Audit.demoCloned)
                       Audit.demoCheckpoint) = Ok tt
  /\ map fst (Audit.memTiles Audit.demoHashed)
     = [(2, 0, 0); (2, 0, 1); (2, 0, 2); (2, 0, 3); (2, 1, 0)].
Proof. split; vm_compute; reflexivity. Qed.

Example demo_check :
  Audit.CheckRootHash Audit.stubRecordHash (Audit.demoService Audit.demoHashed)
                      Audit.demoCheckpoint = Ok tt.
Proof. vm_compute. reflexivity. Qed.

Lemma demo_holdsTiles :
  Audit.holdsTiles (Audit.demoService Audit.demoHashed) Audit.demoCheckpoint.
Proof.
  intros level offset Hl Ho.
  change (Audit.height (Audit.demoService Audit.demoHashed)) with 2 in *.
  change (tlog.N Audit.demoCheckpoint) with 18 in *.
  destruct (Z_lt_le_dec level 2) as [Hlt|Hge].
  - assert (Hc : level = 0 \/ level = 1) by lia.
    destruct Hc as [-> | ->].
    + change (18 / 2 ^ ((0 + 1) * 2)) with 4 in Ho.
      assert (Hc : offset = 0 \/ offset = 1 \/ offset = 2 \/ offset = 3) by lia.
      destruct Hc as [-> | [-> | [-> | ->]]];
        eexists; split; vm_compute; reflexivity.
    + change (18 / 2 ^ ((1 + 1) * 2)) with 1 in Ho.
      assert (offset = 0) by lia. subst offset.
      eexists; split; vm_compute; reflexivity.
  - assert (2 ^ 6 <= 2 ^ ((level + 1) * 2)) by (apply Z.pow_le_mono_r; lia).
    rewrite Z.div_small in Ho by lia. lia.
Qed.



(** ** The clone *)

Section Clone.

Context {DB SumDB : Type} {store : Audit.LocalStore DB}
        {remote : Audit.RemoteLog SumDB}.

Let Service := @Audit.Service DB SumDB.

(** C4, the code at the failing input.  [CloneLeafTiles] compares the tree
    size with [Head()], not with [localLeaves = Head() + 1].  A checkpoint
    smaller than [Head()] is refused before any fetch; a checkpoint equal
    to [Head()], which has one leaf less than the local store, is not
    refused: the run fetches nothing and returns [nil]. *)
Theorem CloneLeafTiles_regression_check (s : Service) (checkpoint : tlog.Tree)
        (head : Z) :
  Audit.Head (Audit.localDB s) = Ok head ->
  0 <= Audit.height s < 63 ->
  0 <= head < 2 ^ 63 - 1 ->
  (tlog.N checkpoint < head ->
   Audit.CloneLeafTiles s checkpoint
   = (Audit.localDB s, [],
      Err (Audit.ErrMoreLeavesLocally head (tlog.N checkpoint))))
  /\ (tlog.N checkpoint = head ->
      tlog.N checkpoint < head + 1
      /\ Audit.CloneLeafTiles s checkpoint = (Audit.localDB s, [], Ok tt)).
Proof.
  intros Hhead Hh Hb. unfold Audit.CloneLeafTiles. rewrite Hhead.
  unfold Audit.cloneFrom. split.
  - intros Hlt. apply Z.ltb_lt in Hlt. rewrite Hlt. reflexivity.
  - intros Heq. split; [lia|].
    rewrite Heq, Z.ltb_irrefl.
    unfold shl. destruct (Audit.height s <? 0) eqn:E; [apply Z.ltb_lt in E; lia|].
    assert (Hw : 0 < 2 ^ Audit.height s) by (apply Z.pow_pos_nonneg; lia).
    assert (Hw63 : 2 ^ Audit.height s < 2 ^ 63) by (apply Z.pow_lt_mono_r; lia).
    rewrite Z.shiftl_mul_pow2, Z.mul_1_l by lia.
    assert (E1 : i64 (2 ^ Audit.height s) = 2 ^ Audit.height s).
    { unfold i64. rewrite Z.mod_small; [lia|].
      change (2 ^ 64) with (2 * 2 ^ 63). lia. }
    assert (E2 : i64 (head + 1) = head + 1).
    { unfold i64. rewrite Z.mod_small; [lia|].
      change (2 ^ 64) with (2 * 2 ^ 63). lia. }
    rewrite E1, E2.
    replace (head - (head + 1)) with (-1) by lia.
    change (i64 (-1)) with (-1).
    unfold quo. destruct (2 ^ Audit.height s =? 0) eqn:E0;
      [apply Z.eqb_eq in E0; lia|].
    assert (Hq : -1 <= Z.quot (-1) (2 ^ Audit.height s) <= 0).
    { assert (Ho : Z.quot (-1) (2 ^ Audit.height s)
                   = - Z.quot 1 (2 ^ Audit.height s)).
      { change (-1) with (- (1)). apply Z.quot_opp_l. lia. }
      rewrite Ho.
      assert (0 <= Z.quot 1 (2 ^ Audit.height s) <= 1); [|lia].
      split; [apply Z.quot_pos; lia|].
      apply Z.quot_le_upper_bound; lia. }
    assert (E3 : i64 (Z.quot (-1) (2 ^ Audit.height s))
                 = Z.quot (-1) (2 ^ Audit.height s)).
    { unfold i64. rewrite Z.mod_small; [lia|].
      change (2 ^ 64) with (2 * 2 ^ 63). lia. }
    rewrite E3.
    destruct (0 <? Z.quot (-1) (2 ^ Audit.height s)) eqn:E4;
      [apply Z.ltb_lt in E4; lia|].
    reflexivity.
Qed.

End Clone.

(** C4 at a head of 400 and a checkpoint of 400 leaves. *)
Lemma CloneLeafTiles_regression_check_witness :
  Audit.Head Audit.aheadStore = Ok 400
  /\ tlog.N Audit.aheadCheckpoint = 400
  /\ 400 < 400 + 1
  /\ Audit.CloneLeafTiles Audit.aheadService Audit.aheadCheckpoint
     = (Audit.aheadStore, [], Ok tt).
Proof.
  split; [reflexivity|]. split; [reflexivity|].
  apply (CloneLeafTiles_regression_check Audit.aheadService
           Audit.aheadCheckpoint 400).
  - reflexivity.
  - simpl. lia.
  - lia.
  - reflexivity.
Defined.

(** ** The tile hasher *)

Section Hasher.

Context {DB SumDB : Type} {store : Audit.LocalStore DB}
        {remote : Audit.RemoteLog SumDB}.
Variable RecordHash : bytes -> bytes.

Let Service := @Audit.Service DB SumDB.

(** C5, the code at the failing input.  For a tree of one full leaf tile
    of height 8, [HashTiles] takes the tile stored at level 0, offset 0 as
    it is: whatever its 256 hashes are, they are not compared with the
    hashes of the leaves, no upper stratum runs, and the call returns
    [nil] and leaves the store as it was. *)
Theorem HashTiles_trusts_stored_leaf_tile (s : Service) (checkpoint : tlog.Tree)
        (hashes : list bytes) :
  Audit.height s = 8 ->
  tlog.N checkpoint = 256 ->
  Audit.Tile (Audit.localDB s) 8 0 0 = Ok hashes ->
  length hashes = 256%nat ->
  Audit.HashTiles RecordHash s checkpoint = (Audit.localDB s, Ok tt).
Proof.
  intros Hh HN Htile Hlen.
  unfold Audit.HashTiles. rewrite Hh, HN.
  change (shl 1 8) with (@Ok Audit.error Z 256). cbn [Audit.bindS].
  change (quo 256 256) with (@Ok Audit.error Z 1). cbn [Audit.bindS].
  unfold Audit.hashLeafLevel. change (Z.to_nat 1) with 1%nat.
  cbn [Audit.hashLeafLevel_loop]. rewrite Hh, Htile.
  change (shlu (u64z (u64z 0 * 1)) 8) with (@Ok Audit.error Z 0).
  assert (Hone : Compact.Hashes
                   (Audit.appendAll (Audit.rf s) (Compact.NewEmptyRange 0) hashes)
                 = [Compact.perfectRoot (Audit.rf s) 8 hashes]).
  { apply (tile_single_root (Audit.rf s) 8 hashes); [lia|].
    rewrite Hlen. reflexivity. }
  cbv beta iota. rewrite Hone.
  cbn [length Z.of_nat Z.eqb Pos.of_succ_nat Pos.eqb].
  change (Audit.getLevelsForLeafCount 8 256) with (@Ok Audit.error Z 0).
  cbv beta iota. change (Z.to_nat 0) with 0%nat.
  cbn [Audit.upperLevels Audit.bindS Audit.emitted].
  reflexivity.
Qed.

End Hasher.

(** C5 on the store of one full leaf tile whose stored hash in slot 5 was
    changed. *)
Lemma HashTiles_trusts_stored_leaf_tile_witness :
  Audit.Tile Audit.corrupted256 8 0 0 <> Audit.Tile Audit.hashed256 8 0 0
  /\ Audit.HashTiles Audit.stubRecordHash (Audit.service256 Audit.corrupted256)
                     Audit.checkpoint256
     = (Audit.corrupted256, Ok tt).
Proof.
  split.
  - vm_compute. discriminate.
  - destruct (Audit.Tile Audit.corrupted256 8 0 0) as [hashes| | |] eqn:E;
      try (vm_compute in E; discriminate E).
    apply (HashTiles_trusts_stored_leaf_tile Audit.stubRecordHash
             (Audit.service256 Audit.corrupted256) Audit.checkpoint256 hashes).
    + reflexivity.
    + reflexivity.
    + exact E.
    + assert (Hl : option_map (@length bytes)
                     (match Audit.Tile Audit.corrupted256 8 0 0 with
                      | Ok h => Some h | _ => None end) = Some 256%nat)
        by (vm_compute; reflexivity).
      rewrite E in Hl. simpl in Hl. congruence.
Defined.

(** The store of the full leaf tile passes the whole audit; with the tile
    corrupted it is the root check that fails. *)
Example audit_256 :
  snd (Audit.HashTiles Audit.stubRecordHash (Audit.service256 Audit.cloned256)
                       Audit.checkpoint256) = Ok tt
  /\ Audit.CheckRootHash Audit.stubRecordHash (Audit.service256 Audit.hashed256)
                         Audit.checkpoint256 = Ok tt
  /\ isErr (Audit.CheckRootHash Audit.stubRecordHash
              (Audit.service256 Audit.corrupted256) Audit.checkpoint256) = true.
Proof. repeat split; vm_compute; reflexivity. Qed.

(** ** The metadata processor *)

Lemma bytes_eqb_eq (a b : bytes) : bytes_eqb a b = true <-> a = b.
Proof.
  unfold bytes_eqb. destruct (bytes_eq_dec a b); split; congruence.
Qed.

Lemma Split_nonempty (s : bytes) (sep : byte) : Audit.Split s sep <> [].
Proof.
  destruct s as [|c s]; simpl; [discriminate|].
  destruct (Byte.eqb c sep); [discriminate|].
  destruct (Audit.Split s sep); discriminate.
Qed.

(** What the loop body does with a leaf of two lines of three tokens. *)
Lemma parseLeaf_two_lines (leafID : Z) (h l0 l1 : bytes) (rest : list bytes)
      (m1 v1 r1 m2 v2 r2 : bytes) :
  Audit.Split h x0a = l0 :: l1 :: rest ->
  Audit.Split l0 x20 = [m1; v1; r1] ->
  Audit.Split l1 x20 = [m2; v2; r2] ->
  Audit.parseLeaf leafID h
  = if bytes_eqb m2 m1 then
      if (length v1 <=? length v2)%nat then
        if bytes_eqb (firstn (length v1) v2) v1
        then Ok (Audit.mkMetadata m1 v1 r1 r2)
        else Err (Audit.ErrMismatchedVersion leafID (firstn (length v1) v2) v1)
      else Panic (SliceOutOfRange (Z.of_nat (length v1)) (Z.of_nat (length v2)))
    else Err (Audit.ErrMismatchedModule leafID m2 m1).
Proof.
  intros Hlines H0 H1. unfold Audit.parseLeaf.
  rewrite Hlines. cbn [index nth_error bind]. rewrite H0.
  cbn [index nth_error bind]. rewrite H1. cbn [index nth_error bind].
  destruct (bytes_eqb m2 m1); [|reflexivity].
  unfold sliceTo. destruct (length v1 <=? length v2)%nat; [|reflexivity].
  cbn [bind]. destruct (bytes_eqb (firstn (length v1) v2) v1); reflexivity.
Qed.

Lemma setAt_length {E A} (l l' : list A) (i : nat) (x : A) :
  setAt (E := E) l i x = Ok l' -> length l' = length l.
Proof.
  unfold setAt. destruct (i <? length l)%nat eqn:Ei; [|discriminate].
  apply Nat.ltb_lt in Ei. intros H. injection H as <-.
  rewrite length_app, length_firstn.
  destruct l as [|a l0]; cbn [length] in *; [lia|].
  rewrite length_skipn. lia.
Qed.

(** The first leaf of a tile that fails ends the loop over the leaves. *)
Lemma parseLeaves_first_failure (leafOffset : Z) (before : list bytes)
      (h : bytes) (after : list bytes) (e : Audit.error) :
  forall (i : nat) (metadata : list Audit.Metadata),
    (i + length before < length metadata)%nat ->
    (forall j leaf, nth_error before j = Some leaf ->
       isOk (Audit.parseLeaf (i64 (leafOffset + Z.of_nat (i + j))) leaf) = true) ->
    Audit.parseLeaf (i64 (leafOffset + Z.of_nat (i + length before))) h = Err e ->
    Audit.parseLeaves leafOffset (before ++ h :: after) i metadata = Err e.
Proof.
  induction before as [|leaf before IH]; intros i metadata Hlen Hok Hh.
  - cbn [app Audit.parseLeaves]. cbn [length] in Hh. rewrite Nat.add_0_r in Hh.
    rewrite Hh. reflexivity.
  - cbn [app Audit.parseLeaves].
    pose proof (Hok 0%nat leaf eq_refl) as H0. rewrite Nat.add_0_r in H0.
    destruct (Audit.parseLeaf (i64 (leafOffset + Z.of_nat i)) leaf) as [m| | |];
      try discriminate H0.
    cbn [bind]. cbn [length] in Hlen.
    destruct (setAt (E := Audit.error) metadata i m) as [metadata'| | |] eqn:Es;
      try (unfold setAt in Es;
           destruct (i <? length metadata)%nat eqn:Ei;
           [discriminate Es | apply Nat.ltb_ge in Ei; lia]).
    cbn [bind]. apply IH.
    + rewrite (setAt_length _ _ _ _ Es). lia.
    + intros j leaf' Hj. replace (S i + j)%nat with (i + S j)%nat by lia.
      apply Hok. exact Hj.
    + cbn [length] in Hh. replace (S i + length before)%nat
        with (i + S (length before))%nat by lia. exact Hh.
Qed.


Section MetadataRun.

Context {DB SumDB : Type} {store : Audit.LocalStore DB}.

Let Service := @Audit.Service DB SumDB.

Lemma parseLeaves_length (leafOffset : Z) (hashes : list bytes) :
  forall (i : nat) (metadata metadata' : list Audit.Metadata),
    Audit.parseLeaves leafOffset hashes i metadata = Ok metadata' ->
    length metadata' = length metadata.
Proof.
  induction hashes as [|h hashes IH]; intros i metadata metadata' Hrun.
  - cbn [Audit.parseLeaves] in Hrun. injection Hrun as <-. reflexivity.
  - cbn [Audit.parseLeaves] in Hrun.
    destruct (Audit.parseLeaf (i64 (leafOffset + Z.of_nat i)) h) as [m| | |];
      cbn [bind] in Hrun; try discriminate Hrun.
    destruct (setAt (E := Audit.error) metadata i m) as [md1| | |] eqn:Es;
      cbn [bind] in Hrun; try discriminate Hrun.
    rewrite (IH _ _ _ Hrun). exact (setAt_length _ _ _ _ Es).
Qed.

Lemma processTile_length (tileWidth offset : Z) (db db' : DB)
      (metadata metadata' : list Audit.Metadata) :
  Audit.processTile tileWidth offset db metadata = (db', Ok metadata') ->
  length metadata' = length metadata.
Proof.
  unfold Audit.processTile.
  destruct (Audit.Leaves db (i64 (offset * tileWidth)) tileWidth) as [hashes| | |];
    cbn [Audit.bindS]; try discriminate.
  destruct (Audit.parseLeaves (i64 (offset * tileWidth)) hashes 0 metadata)
    as [md1| | |] eqn:Ep; cbn [Audit.bindS]; try discriminate.
  unfold Audit.write.
  destruct (Audit.SetLeafMetadata db (i64 (offset * tileWidth)) md1);
    cbn [Audit.bindS]; try discriminate.
  intros H. injection H as _ <-. exact (parseLeaves_length _ _ _ _ _ Ep).
Qed.

(** The loop over the tiles, once its first [n] tiles are done, goes on
    with the tiles that follow, on the database the [n] tiles left and
    with the slice of rows they left. *)
Lemma metadataLoop_split (tileWidth : Z) (n m : nat) :
  forall (offset : Z) (db db1 : DB) (metadata : list Audit.Metadata),
    Audit.metadataLoop tileWidth n offset db metadata = (db1, Ok tt) ->
    exists metadata1,
      length metadata1 = length metadata
      /\ Audit.metadataLoop tileWidth (n + m) offset db metadata
         = Audit.metadataLoop tileWidth m (offset + Z.of_nat n) db1 metadata1.
Proof.
  induction n as [|n IH]; intros offset db db1 metadata Hrun.
  - cbn [Audit.metadataLoop] in Hrun. injection Hrun as <-.
    exists metadata. split; [reflexivity|].
    cbn [Nat.add Z.of_nat]. rewrite Z.add_0_r. reflexivity.
  - cbn [Audit.metadataLoop Nat.add] in *.
    destruct (Audit.processTile tileWidth offset db metadata)
      as [db' [metadata'| | |]] eqn:Et; cbn [Audit.bindS] in *;
      try discriminate Hrun.
    destruct (IH _ _ _ _ Hrun) as [metadata1 [Hlen Hgo]].
    exists metadata1. split.
    + rewrite Hlen. exact (processTile_length _ _ _ _ _ _ Et).
    + rewrite Hgo. f_equal. lia.
Qed.

(** [ProcessMetadata] with tiles of height at most 16 is its loop over
    the full tiles of the tree, on a slice of [2^H] empty rows. *)
Lemma ProcessMetadata_loop (s : Service) (checkpoint : tlog.Tree) :
  0 <= Audit.height s <= 16 ->
  0 <= tlog.N checkpoint < 2 ^ 63 ->
  Audit.ProcessMetadata s checkpoint
  = Audit.metadataLoop (2 ^ Audit.height s)
      (Z.to_nat (tlog.N checkpoint / 2 ^ Audit.height s)) 0 (Audit.localDB s)
      (repeat (Audit.mkMetadata [] [] [] []) (Z.to_nat (2 ^ Audit.height s))).
Proof.
  intros Hh HN.
  set (h := Audit.height s) in *. set (N := tlog.N checkpoint) in *.
  pose proof (tileWidth_le h 16 ltac:(lia)) as Hw.
  change (2 ^ 16) with 65536 in Hw.
  unfold Audit.ProcessMetadata. fold h. fold N.
  unfold shl. replace (h <? 0) with false by (symmetry; apply Z.ltb_ge; lia).
  rewrite shiftl_1 by lia. rewrite (i64_small (2 ^ h)) by lia.
  cbn [Audit.bindS]. rewrite make_ok by sizes. cbn [Audit.bindS].
  unfold quo. replace (2 ^ h =? 0) with false by (symmetry; apply Z.eqb_neq; lia).
  rewrite Z.quot_div_nonneg by lia.
  assert (Hq : 0 <= N / 2 ^ h <= N).
  { split; [apply Z.div_pos; lia|]. apply Z.div_le_upper_bound; [lia|]. nia. }
  rewrite (i64_small (N / 2 ^ h)) by lia. reflexivity.
Qed.

(** A tile that fails after [k] tiles were processed ends the run of
    [ProcessMetadata] with its failure, on the database the [k] tiles
    left. *)
Lemma ProcessMetadata_fails_at (s : Service) (checkpoint : tlog.Tree)
      (k : nat) (db : DB) (e : Audit.error) :
  0 <= Audit.height s <= 16 ->
  tlog.N checkpoint < 2 ^ 63 ->
  Z.of_nat k < tlog.N checkpoint / 2 ^ Audit.height s ->
  Audit.metadataLoop (2 ^ Audit.height s) k 0 (Audit.localDB s)
    (repeat (Audit.mkMetadata [] [] [] []) (Z.to_nat (2 ^ Audit.height s)))
  = (db, Ok tt) ->
  (forall metadata,
     length metadata = Z.to_nat (2 ^ Audit.height s) ->
     Audit.processTile (2 ^ Audit.height s) (Z.of_nat k) db metadata
     = (db, Err e)) ->
  Audit.ProcessMetadata s checkpoint = (db, Err e).
Proof.
  intros Hh HN63 Hk Hdone Hfail.
  set (h := Audit.height s) in *. set (N := tlog.N checkpoint) in *.
  pose proof (tileWidth_le h 16 ltac:(lia)) as Hw.
  assert (HN : 0 <= N).
  { destruct (Z_lt_le_dec N 0) as [Hneg|]; [|assumption].
    assert (N / 2 ^ h < 0) by (apply Z.div_lt_upper_bound; lia). lia. }
  rewrite ProcessMetadata_loop by (fold h; fold N; lia). fold h. fold N.
  replace (Z.to_nat (N / 2 ^ h))
    with (k + S (Z.to_nat (N / 2 ^ h) - S k))%nat by lia.
  destruct (metadataLoop_split (2 ^ h) k (S (Z.to_nat (N / 2 ^ h) - S k))
              0 (Audit.localDB s) db _ Hdone) as [metadata1 [Hlen Hgo]].
  rewrite Hgo. cbn [Audit.metadataLoop]. rewrite Z.add_0_l.
  rewrite Hfail; [reflexivity|].
  rewrite Hlen, repeat_length. reflexivity.
Qed.

(** Leaves that the loop body accepts, no more than the slice has rows,
    are all parsed. *)
Lemma parseLeaves_ok (leafOffset : Z) (hashes : list bytes) :
  forall (i : nat) (metadata : list Audit.Metadata),
    (i + length hashes <= length metadata)%nat ->
    (forall j leaf, nth_error hashes j = Some leaf ->
       isOk (Audit.parseLeaf (i64 (leafOffset + Z.of_nat (i + j))) leaf) = true) ->
    exists metadata', Audit.parseLeaves leafOffset hashes i metadata = Ok metadata'.
Proof.
  induction hashes as [|h hashes IH]; intros i metadata Hlen Hok.
  - exists metadata. reflexivity.
  - cbn [Audit.parseLeaves]. cbn [length] in Hlen.
    pose proof (Hok 0%nat h eq_refl) as H0. rewrite Nat.add_0_r in H0.
    destruct (Audit.parseLeaf (i64 (leafOffset + Z.of_nat i)) h) as [m| | |];
      try discriminate H0.
    cbn [bind].
    destruct (setAt (E := Audit.error) metadata i m) as [metadata1| | |] eqn:Es;
      try (unfold setAt in Es;
           destruct (i <? length metadata)%nat eqn:Ei;
           [discriminate Es | apply Nat.ltb_ge in Ei; lia]).
    cbn [bind]. apply IH.
    + rewrite (setAt_length _ _ _ _ Es). lia.
    + intros j leaf Hj. replace (S i + j)%nat with (i + S j)%nat by lia.
      apply Hok. exact Hj.
Qed.

End MetadataRun.

Section MetadataProcessor.

Context {DB SumDB : Type} {store : Audit.LocalStore DB}.

Let Service := @Audit.Service DB SumDB.

(** C7, as amended.  For a leaf of two lines of three space-separated
    tokens, processing succeeds if and only if the module of the second
    line equals the module of the first and the version of the first line
    is a prefix of the version token of the second (whatever follows it,
    [/go.mod] or not).  When the modules differ, and when the version
    token is long enough and does not start with the version, the leaf
    gives an error that carries its index; such an error at the first
    leaf of a tile that fails aborts the tile, and the store is left
    without metadata for that tile.  It aborts the run as well: with
    tiles of height at most 16, when [k] tiles were processed before
    that tile, [ProcessMetadata] returns the error of the leaf and leaves
    the store as the [k] tiles left it. *)
Theorem ProcessMetadata_cross_check (leafID : Z) (h l0 l1 : bytes)
        (rest : list bytes) (m1 v1 r1 m2 v2 r2 : bytes) :
  Audit.Split h x0a = l0 :: l1 :: rest ->
  Audit.Split l0 x20 = [m1; v1; r1] ->
  Audit.Split l1 x20 = [m2; v2; r2] ->
  (isOk (Audit.parseLeaf leafID h) = true
   <-> m2 = m1 /\ exists suffix, v2 = v1 ++ suffix)
  /\ (m2 <> m1 ->
      Audit.parseLeaf leafID h = Err (Audit.ErrMismatchedModule leafID m2 m1))
  /\ (m2 = m1 -> (length v1 <= length v2)%nat -> firstn (length v1) v2 <> v1 ->
      Audit.parseLeaf leafID h
      = Err (Audit.ErrMismatchedVersion leafID (firstn (length v1) v2) v1))
  /\ (forall tileWidth offset (db : DB) metadata before after e,
        leafID = i64 (i64 (offset * tileWidth) + Z.of_nat (length before)) ->
        Audit.Leaves db (i64 (offset * tileWidth)) tileWidth
        = Ok (before ++ h :: after) ->
        (length before < length metadata)%nat ->
        (forall j leaf, nth_error before j = Some leaf ->
           isOk (Audit.parseLeaf (i64 (i64 (offset * tileWidth) + Z.of_nat j)) leaf)
           = true) ->
        Audit.parseLeaf leafID h = Err e ->
        Audit.processTile tileWidth offset db metadata = (db, Err e)
        /\ forall n, Audit.metadataLoop tileWidth (S n) offset db metadata
                     = (db, Err e))
  /\ (forall (s : Service) (checkpoint : tlog.Tree) (k : nat) (db : DB)
             before after e,
        0 <= Audit.height s <= 16 ->
        tlog.N checkpoint < 2 ^ 63 ->
        Z.of_nat k < tlog.N checkpoint / 2 ^ Audit.height s ->
        Audit.metadataLoop (2 ^ Audit.height s) k 0 (Audit.localDB s)
          (repeat (Audit.mkMetadata [] [] [] [])
                  (Z.to_nat (2 ^ Audit.height s)))
        = (db, Ok tt) ->
        leafID = Z.of_nat k * 2 ^ Audit.height s + Z.of_nat (length before) ->
        Audit.Leaves db (Z.of_nat k * 2 ^ Audit.height s) (2 ^ Audit.height s)
        = Ok (before ++ h :: after) ->
        Z.of_nat (length before) < 2 ^ Audit.height s ->
        (forall j leaf, nth_error before j = Some leaf ->
           isOk (Audit.parseLeaf
                   (Z.of_nat k * 2 ^ Audit.height s + Z.of_nat j) leaf)
           = true) ->
        Audit.parseLeaf leafID h = Err e ->
        Audit.ProcessMetadata s checkpoint = (db, Err e)).
Proof.
  intros Hlines H0 H1.
  pose proof (parseLeaf_two_lines leafID h l0 l1 rest m1 v1 r1 m2 v2 r2
                Hlines H0 H1) as Hparse.
  assert (Habort : forall tileWidth offset (db : DB) metadata before after e,
             leafID = i64 (i64 (offset * tileWidth) + Z.of_nat (length before)) ->
             Audit.Leaves db (i64 (offset * tileWidth)) tileWidth
             = Ok (before ++ h :: after) ->
             (length before < length metadata)%nat ->
             (forall j leaf, nth_error before j = Some leaf ->
                isOk (Audit.parseLeaf
                        (i64 (i64 (offset * tileWidth) + Z.of_nat j)) leaf)
                = true) ->
             Audit.parseLeaf leafID h = Err e ->
             Audit.processTile tileWidth offset db metadata = (db, Err e)).
  { intros tileWidth offset db metadata before after e Hid Hleaves Hlen Hok Herr.
    unfold Audit.processTile. rewrite Hleaves. cbn [Audit.bindS].
    rewrite (parseLeaves_first_failure (i64 (offset * tileWidth)) before h after e
               0%nat metadata).
    - reflexivity.
    - simpl. exact Hlen.
    - intros j leaf Hj. simpl. apply Hok. exact Hj.
    - simpl. rewrite <- Hid. exact Herr. }
  split; [|split; [|split; [|split]]].
  - rewrite Hparse. split.
    + destruct (bytes_eqb m2 m1) eqn:Em; [|discriminate].
      destruct (length v1 <=? length v2)%nat eqn:El; [|discriminate].
      destruct (bytes_eqb (firstn (length v1) v2) v1) eqn:Ev; [|discriminate].
      intros _. apply bytes_eqb_eq in Em. apply bytes_eqb_eq in Ev.
      split; [exact Em|]. exists (skipn (length v1) v2).
      rewrite <- Ev at 1. symmetry. apply firstn_skipn.
    + intros [Hm [suffix Hv]]. subst m2 v2.
      assert (Em : bytes_eqb m1 m1 = true) by (apply bytes_eqb_eq; reflexivity).
      rewrite Em, length_app.
      replace (length v1 <=? length v1 + length suffix)%nat with true
        by (symmetry; apply Nat.leb_le; lia).
      rewrite firstn_app, Nat.sub_diag, firstn_all, firstn_O, app_nil_r.
      assert (Ev : bytes_eqb v1 v1 = true) by (apply bytes_eqb_eq; reflexivity).
      rewrite Ev. reflexivity.
  - intros Hne. rewrite Hparse.
    destruct (bytes_eqb m2 m1) eqn:Em; [|reflexivity].
    apply bytes_eqb_eq in Em. contradiction.
  - intros Hm Hl Hv. rewrite Hparse. subst m2.
    assert (Em : bytes_eqb m1 m1 = true) by (apply bytes_eqb_eq; reflexivity).
    rewrite Em. apply Nat.leb_le in Hl. rewrite Hl.
    destruct (bytes_eqb (firstn (length v1) v2) v1) eqn:Ev; [|reflexivity].
    apply bytes_eqb_eq in Ev. contradiction.
  - intros tileWidth offset db metadata before after e Hid Hleaves Hlen Hok Herr.
    pose proof (Habort tileWidth offset db metadata before after e
                  Hid Hleaves Hlen Hok Herr) as Htile.
    split; [exact Htile|].
    intros n. cbn [Audit.metadataLoop]. rewrite Htile. reflexivity.
  - intros s checkpoint k db before after e Hh HN63 Hk Hdone Hid Hleaves Hlen
           Hok Herr.
    set (w := 2 ^ Audit.height s) in *.
    pose proof (tileWidth_le (Audit.height s) 16 ltac:(lia)) as Hw. fold w in Hw.
    assert (Hkw : (Z.of_nat k + 1) * w <= tlog.N checkpoint).
    { assert (tlog.N checkpoint / w * w <= tlog.N checkpoint)
        by (rewrite Z.mul_comm; apply Z.mul_div_le; lia).
      nia. }
    apply (ProcessMetadata_fails_at s checkpoint k db e Hh HN63 Hk Hdone).
    fold w. intros metadata Hmd.
    apply (Habort w (Z.of_nat k) db metadata before after e).
    + rewrite (i64_small (Z.of_nat k * w)) by nia.
      rewrite i64_small by nia. exact Hid.
    + rewrite (i64_small (Z.of_nat k * w)) by nia. exact Hleaves.
    + rewrite Hmd. lia.
    + intros j leaf Hj.
      assert (Hjl : (j < length before)%nat)
        by (apply nth_error_Some; rewrite Hj; discriminate).
      rewrite (i64_small (Z.of_nat k * w)) by nia.
      rewrite i64_small by nia. apply Hok. exact Hj.
    + exact Herr.
Qed.

End MetadataProcessor.

(** C7, counterexample.  The second line of the leaf names version
    [v1.0.5]; the first line names [v1.0]; the leaf is accepted. *)
Lemma parseLeaf_accepts_longer_version :
  Audit.Split Audit.prefixLeaf x0a
  = [list_byte_of_string "m v1.0 h1:a";
     list_byte_of_string "m v1.0.5/go.mod h1:b"; []]
  /\ Audit.Split (list_byte_of_string "m v1.0.5/go.mod h1:b") x20
     = [list_byte_of_string "m";
        list_byte_of_string "v1.0.5" ++ list_byte_of_string "/go.mod";
        list_byte_of_string "h1:b"]
  /\ list_byte_of_string "v1.0.5" <> list_byte_of_string "v1.0"
  /\ Audit.parseLeaf 7 Audit.prefixLeaf
     = Ok (Audit.mkMetadata (list_byte_of_string "m") (list_byte_of_string "v1.0")
             (list_byte_of_string "h1:a") (list_byte_of_string "h1:b")).
Proof.
  split; [reflexivity|]. split; [reflexivity|].
  split; [discriminate|reflexivity].
Qed.

(** C7, as amended, on a well-formed leaf, on a tile whose second leaf
    names another module, and on a store of two tiles of which the last
    leaf names another module: the metadata of the first tile is
    written, and the run ends with the error of leaf 3. *)
Lemma ProcessMetadata_cross_check_witness :
  (isOk (Audit.parseLeaf 0 Audit.goodLeaf) = true
   <-> list_byte_of_string "m" = list_byte_of_string "m"
       /\ exists suffix,
            list_byte_of_string "v1.0/go.mod" = list_byte_of_string "v1.0" ++ suffix)
  /\ Audit.processTile 2 0 Audit.mixedStore
       (repeat (Audit.mkMetadata [] [] [] []) 2)
     = (Audit.mixedStore,
        Err (Audit.ErrMismatchedModule 1 (list_byte_of_string "n")
               (list_byte_of_string "m")))
  /\ Audit.ProcessMetadata
       (Audit.NewService Audit.stubNodeHash Audit.lateMismatchStore
          Audit.demoLog 1)
       (tlog.mkTree 4 [])
     = (Audit.mkMem (Audit.memLeaves Audit.lateMismatchStore) []
          [(0, [Audit.mkMetadata (list_byte_of_string "m")
                  (list_byte_of_string "v1.0") (list_byte_of_string "h1:a")
                  (list_byte_of_string "h1:b");
                Audit.mkMetadata (list_byte_of_string "m")
                  (list_byte_of_string "v1.0") (list_byte_of_string "h1:a")
                  (list_byte_of_string "h1:b")])]
          false,
        Err (Audit.ErrMismatchedModule 3 (list_byte_of_string "n")
               (list_byte_of_string "m"))).
Proof.
  split; [|split].
  - apply (ProcessMetadata_cross_check (DB := Audit.MemStore)
             (SumDB := Audit.MemLog) 0 Audit.goodLeaf
             (list_byte_of_string "m v1.0 h1:a")
             (list_byte_of_string "m v1.0/go.mod h1:b") [[]]
             (list_byte_of_string "m") (list_byte_of_string "v1.0")
             (list_byte_of_string "h1:a")
             (list_byte_of_string "m") (list_byte_of_string "v1.0/go.mod")
             (list_byte_of_string "h1:b")); reflexivity.
  - destruct (ProcessMetadata_cross_check (DB := Audit.MemStore)
                (SumDB := Audit.MemLog) 1
                Audit.otherModuleLeaf
                (list_byte_of_string "m v1.0 h1:a")
                (list_byte_of_string "n v1.0/go.mod h1:b") [[]]
                (list_byte_of_string "m") (list_byte_of_string "v1.0")
                (list_byte_of_string "h1:a")
                (list_byte_of_string "n") (list_byte_of_string "v1.0/go.mod")
                (list_byte_of_string "h1:b") eq_refl eq_refl eq_refl)
      as [_ [Hmod [_ [Htile _]]]].
    refine (proj1 (Htile 2 0 Audit.mixedStore _ [Audit.goodLeaf] [] _ _ _ _ _ _)).
    + reflexivity.
    + reflexivity.
    + simpl. lia.
    + intros j leaf Hj. destruct j as [|[|j]]; simpl in Hj; try discriminate.
      injection Hj as <-. reflexivity.
    + apply Hmod. discriminate.
  - destruct (ProcessMetadata_cross_check (DB := Audit.MemStore)
                (SumDB := Audit.MemLog) 3
                Audit.otherModuleLeaf
                (list_byte_of_string "m v1.0 h1:a")
                (list_byte_of_string "n v1.0/go.mod h1:b") [[]]
                (list_byte_of_string "m") (list_byte_of_string "v1.0")
                (list_byte_of_string "h1:a")
                (list_byte_of_string "n") (list_byte_of_string "v1.0/go.mod")
                (list_byte_of_string "h1:b") eq_refl eq_refl eq_refl)
      as [_ [Hmod [_ [_ Hrun]]]].
    apply (Hrun (Audit.NewService Audit.stubNodeHash Audit.lateMismatchStore
                   Audit.demoLog 1)
                (tlog.mkTree 4 []) 1%nat _ [Audit.goodLeaf] []).
    + simpl. lia.
    + simpl. lia.
    + vm_compute. reflexivity.
    + reflexivity.
    + reflexivity.
    + reflexivity.
    + vm_compute. reflexivity.
    + intros j leaf Hj. destruct j as [|[|j]]; simpl in Hj; try discriminate.
      injection Hj as <-. reflexivity.
    + apply Hmod. discriminate.
Defined.





(** ** Failures of the local store *)

Section StoreFailures.

Context {DB SumDB : Type} {store : Audit.LocalStore DB}
        {remote : Audit.RemoteLog SumDB}.

Let Service := @Audit.Service DB SumDB.

(** The loop of the clone, once its first [n] chunks are written, goes on
    with the chunks that follow. *)
Lemma cloneLoop_split (s : Service) (tileWidth startOffset : Z) (n m : nat) :
  forall (i : Z) (db db1 : DB) (trace trace1 : list Audit.event),
    Audit.cloneLoop s tileWidth startOffset n i db trace = (db1, trace1, Ok tt) ->
    Audit.cloneLoop s tileWidth startOffset (n + m) i db trace
    = Audit.cloneLoop s tileWidth startOffset m (i + Z.of_nat n) db1 trace1.
Proof.
  induction n as [|n IH]; intros i db db1 trace trace1 Hrun.
  - cbn [Audit.cloneLoop] in Hrun. injection Hrun as <- <-.
    cbn [Nat.add Z.of_nat]. rewrite Z.add_0_r. reflexivity.
  - cbn [Audit.cloneLoop Nat.add] in *.
    destruct (Audit.FullLeavesAtOffset (Audit.sumDB s) (i64 (startOffset + i)))
      as [leaves| | |]; try discriminate Hrun.
    destruct (Audit.WriteLeaves db (i64 (i64 (startOffset + i) * tileWidth)) leaves)
      as [db'| | |]; try discriminate Hrun.
    rewrite (IH _ _ _ _ _ Hrun). f_equal. lia.
Qed.

(** A failure of [WriteLeaves] after [k] chunks were written ends the
    run of [CloneLeafTiles] with the failure, on the database the [k]
    chunks left. *)
Lemma CloneLeafTiles_fails_at (s : Service) (checkpoint : tlog.Tree)
      (head : Z) (k : nat) (db : DB) (trace : list Audit.event)
      (leaves : list bytes) (e : Audit.error) :
  Audit.Head (Audit.localDB s) = Ok head ->
  0 <= Audit.height s < 63 ->
  -1 <= head ->
  tlog.N checkpoint < 2 ^ 63 ->
  Z.of_nat k < (tlog.N checkpoint - (head + 1)) / 2 ^ Audit.height s ->
  Audit.cloneLoop s (2 ^ Audit.height s) ((head + 1) / 2 ^ Audit.height s)
                  k 0 (Audit.localDB s) [] = (db, trace, Ok tt) ->
  Audit.FullLeavesAtOffset (Audit.sumDB s)
    ((head + 1) / 2 ^ Audit.height s + Z.of_nat k) = Ok leaves ->
  Audit.WriteLeaves db
    (((head + 1) / 2 ^ Audit.height s + Z.of_nat k) * 2 ^ Audit.height s) leaves
  = Err e ->
  Audit.CloneLeafTiles s checkpoint
  = (db,
     trace ++ [Audit.Fetched ((head + 1) / 2 ^ Audit.height s + Z.of_nat k);
               Audit.Wrote (((head + 1) / 2 ^ Audit.height s + Z.of_nat k)
                            * 2 ^ Audit.height s)],
     Err (Audit.ErrWriteLeaves e)).
Proof.
  intros Hhead Hh Hm HN63 Hk Hdone Hfetch Hwrite.
  set (h := Audit.height s) in *. set (N := tlog.N checkpoint) in *.
  assert (Hw : 0 < 2 ^ h) by (apply Z.pow_pos_nonneg; lia).
  assert (Hw63 : 2 ^ h < 2 ^ 63) by (apply Z.pow_lt_mono_r; lia).
  set (w := 2 ^ h) in *.
  assert (Hrem : w <= N - (head + 1)).
  { destruct (Z_lt_le_dec (N - (head + 1)) w) as [Hlt|]; [|assumption].
    destruct (Z_lt_le_dec (N - (head + 1)) 0) as [Hneg|Hpos].
    - assert ((N - (head + 1)) / w < 0) by (apply Z.div_lt_upper_bound; lia). lia.
    - rewrite Z.div_small in Hk by lia. lia. }
  set (R := (N - (head + 1)) / w) in *.
  set (S0 := (head + 1) / w) in *.
  assert (HR : R * w <= N - (head + 1))
    by (unfold R; rewrite Z.mul_comm; apply Z.mul_div_le; lia).
  assert (HS : 0 <= S0 /\ S0 * w <= head + 1).
  { split; [apply Z.div_pos; lia|].
    unfold S0. rewrite Z.mul_comm. apply Z.mul_div_le. lia. }
  assert (HRN : 0 <= R <= N).
  { split; [apply Z.div_pos; lia|]. apply Z.div_le_upper_bound; [lia|]. nia. }
  unfold Audit.CloneLeafTiles. rewrite Hhead. unfold Audit.cloneFrom.
  fold h. fold N.
  replace (N <? head) with false by (symmetry; apply Z.ltb_ge; lia).
  unfold shl. replace (h <? 0) with false by (symmetry; apply Z.ltb_ge; lia).
  rewrite shiftl_1 by lia. fold w. rewrite (i64_small w) by lia.
  rewrite (i64_small (head + 1)) by lia.
  rewrite (i64_small (N - (head + 1))) by lia.
  unfold quo. replace (w =? 0) with false by (symmetry; apply Z.eqb_neq; lia).
  rewrite !Z.quot_div_nonneg by lia. fold R. fold S0.
  rewrite (i64_small R) by lia. rewrite (i64_small S0) by nia.
  replace (0 <? R) with true by (symmetry; apply Z.ltb_lt; lia).
  replace (Z.to_nat R) with (k + S (Z.to_nat R - S k))%nat by lia.
  rewrite (cloneLoop_split s w S0 k _ 0 _ _ _ _ Hdone).
  cbn [Audit.cloneLoop]. rewrite Z.add_0_l.
  rewrite (i64_small (S0 + Z.of_nat k)) by nia.
  rewrite Hfetch.
  rewrite (i64_small ((S0 + Z.of_nat k) * w)) by nia.
  rewrite Hwrite. reflexivity.
Qed.

(** C9, as amended.  In [CloneLeafTiles] an error of [Head] is not fatal:
    the run goes on as it does for a head of -1, that is for an empty
    store.  The other failures of the local store end the loop that made
    the call, and with it the run, with the failure and without a second
    attempt.  A failure of [WriteLeaves] after [k] chunks were written
    makes [CloneLeafTiles] return it, wrapped, and leaves the database as
    the [k] chunks left it.  A failure of [Tile] at a tile of the fringe,
    the tiles read before it being held, makes [CheckRootHash] return
    it, wrapped with the stratum and the offset of the tile.  A failure
    of [Leaves] or of [SetLeafMetadata] at a tile, [k] tiles being
    processed before it, makes [ProcessMetadata] (with tiles of height at
    most 16) return it as it is and leaves the database as the [k] tiles
    left it. *)
Theorem LocalStore_failures (s : Service) (checkpoint : tlog.Tree) :
  (forall e, Audit.Head (Audit.localDB s) = Err e ->
             Audit.CloneLeafTiles s checkpoint = Audit.cloneFrom s checkpoint (-1))
  /\ (forall tileWidth startOffset n i db trace leaves e,
        Audit.FullLeavesAtOffset (Audit.sumDB s) (i64 (startOffset + i))
        = Ok leaves ->
        Audit.WriteLeaves db (i64 (i64 (startOffset + i) * tileWidth)) leaves
        = Err e ->
        Audit.cloneLoop s tileWidth startOffset (S n) i db trace
        = (db,
           trace ++ [Audit.Fetched (i64 (startOffset + i));
                     Audit.Wrote (i64 (i64 (startOffset + i) * tileWidth))],
           Err (Audit.ErrWriteLeaves e)))
  /\ (forall level tileLeafCount n offset logRange e,
        Audit.Tile (Audit.localDB s) (Audit.height s) level offset = Err e ->
        Audit.tileLoop s level tileLeafCount (S n) offset logRange
        = Err (Audit.ErrGetTile level offset e))
  /\ (forall tileWidth offset n (db : DB) metadata e,
        Audit.Leaves db (i64 (offset * tileWidth)) tileWidth = Err e ->
        Audit.metadataLoop tileWidth (S n) offset db metadata = (db, Err e))
  /\ (forall tileWidth offset n (db : DB) metadata hashes metadata' e,
        Audit.Leaves db (i64 (offset * tileWidth)) tileWidth = Ok hashes ->
        Audit.parseLeaves (i64 (offset * tileWidth)) hashes 0 metadata
        = Ok metadata' ->
        Audit.SetLeafMetadata db (i64 (offset * tileWidth)) metadata' = Err e ->
        Audit.metadataLoop tileWidth (S n) offset db metadata = (db, Err e))
  /\ (forall head (k : nat) (db : DB) trace leaves e,
        Audit.Head (Audit.localDB s) = Ok head ->
        0 <= Audit.height s < 63 ->
        -1 <= head ->
        tlog.N checkpoint < 2 ^ 63 ->
        Z.of_nat k < (tlog.N checkpoint - (head + 1)) / 2 ^ Audit.height s ->
        Audit.cloneLoop s (2 ^ Audit.height s)
          ((head + 1) / 2 ^ Audit.height s) k 0 (Audit.localDB s) []
        = (db, trace, Ok tt) ->
        Audit.FullLeavesAtOffset (Audit.sumDB s)
          ((head + 1) / 2 ^ Audit.height s + Z.of_nat k) = Ok leaves ->
        Audit.WriteLeaves db
          (((head + 1) / 2 ^ Audit.height s + Z.of_nat k) * 2 ^ Audit.height s)
          leaves
        = Err e ->
        Audit.CloneLeafTiles s checkpoint
        = (db,
           trace ++ [Audit.Fetched ((head + 1) / 2 ^ Audit.height s + Z.of_nat k);
                     Audit.Wrote (((head + 1) / 2 ^ Audit.height s + Z.of_nat k)
                                  * 2 ^ Audit.height s)],
           Err (Audit.ErrWriteLeaves e)))
  /\ (forall (RecordHash : bytes -> bytes) level offset e,
        1 <= Audit.height s < 63 ->
        0 <= tlog.N checkpoint < 2 ^ 63 ->
        0 <= level ->
        tlog.N checkpoint / 2 ^ ((level + 2) * Audit.height s)
        * 2 ^ Audit.height s
        <= offset < tlog.N checkpoint / 2 ^ ((level + 1) * Audit.height s) ->
        Audit.Tile (Audit.localDB s) (Audit.height s) level offset = Err e ->
        (forall l o,
           level < l \/ (l = level /\ o < offset) ->
           tlog.N checkpoint / 2 ^ ((l + 2) * Audit.height s)
           * 2 ^ Audit.height s
           <= o < tlog.N checkpoint / 2 ^ ((l + 1) * Audit.height s) ->
           exists hashes, Audit.holdsTile s (l, o) hashes) ->
        Audit.CheckRootHash RecordHash s checkpoint
        = Err (Audit.ErrGetTile level offset e))
  /\ (forall (k : nat) (db : DB) e,
        0 <= Audit.height s <= 16 ->
        tlog.N checkpoint < 2 ^ 63 ->
        Z.of_nat k < tlog.N checkpoint / 2 ^ Audit.height s ->
        Audit.metadataLoop (2 ^ Audit.height s) k 0 (Audit.localDB s)
          (repeat (Audit.mkMetadata [] [] [] [])
                  (Z.to_nat (2 ^ Audit.height s)))
        = (db, Ok tt) ->
        Audit.Leaves db (Z.of_nat k * 2 ^ Audit.height s) (2 ^ Audit.height s)
        = Err e ->
        Audit.ProcessMetadata s checkpoint = (db, Err e))
  /\ (forall (k : nat) (db : DB) hashes e,
        0 <= Audit.height s <= 16 ->
        tlog.N checkpoint < 2 ^ 63 ->
        Z.of_nat k < tlog.N checkpoint / 2 ^ Audit.height s ->
        Audit.metadataLoop (2 ^ Audit.height s) k 0 (Audit.localDB s)
          (repeat (Audit.mkMetadata [] [] [] [])
                  (Z.to_nat (2 ^ Audit.height s)))
        = (db, Ok tt) ->
        Audit.Leaves db (Z.of_nat k * 2 ^ Audit.height s) (2 ^ Audit.height s)
        = Ok hashes ->
        Z.of_nat (length hashes) <= 2 ^ Audit.height s ->
        (forall j leaf, nth_error hashes j = Some leaf ->
           isOk (Audit.parseLeaf
                   (Z.of_nat k * 2 ^ Audit.height s + Z.of_nat j) leaf)
           = true) ->
        (forall rows,
           Audit.SetLeafMetadata db (Z.of_nat k * 2 ^ Audit.height s) rows
           = Err e) ->
        Audit.ProcessMetadata s checkpoint = (db, Err e)).
Proof.
  split; [|split; [|split; [|split; [|split; [|split; [|split; [|split]]]]]]].
  - intros e He. unfold Audit.CloneLeafTiles. rewrite He. reflexivity.
  - intros tileWidth startOffset n i db trace leaves e Hf Hw.
    cbn [Audit.cloneLoop]. rewrite Hf, Hw. reflexivity.
  - intros level tileLeafCount n offset logRange e Ht.
    cbn [Audit.tileLoop]. rewrite Ht. reflexivity.
  - intros tileWidth offset n db metadata e Hl.
    cbn [Audit.metadataLoop]. unfold Audit.processTile. rewrite Hl. reflexivity.
  - intros tileWidth offset n db metadata hashes metadata' e Hl Hp Hs.
    cbn [Audit.metadataLoop]. unfold Audit.processTile.
    rewrite Hl. cbn [Audit.bindS]. rewrite Hp. cbn [Audit.bindS].
    rewrite Hs. reflexivity.
  - intros head k db trace leaves e.
    apply CloneLeafTiles_fails_at.
  - intros RecordHash level offset e.
    apply CheckRootHash_fails_at.
  - intros k db e Hh HN63 Hk Hdone Hleaves.
    set (w := 2 ^ Audit.height s) in *.
    pose proof (tileWidth_le (Audit.height s) 16 ltac:(lia)) as Hw. fold w in Hw.
    assert (Hkw : (Z.of_nat k + 1) * w <= tlog.N checkpoint).
    { assert (tlog.N checkpoint / w * w <= tlog.N checkpoint)
        by (rewrite Z.mul_comm; apply Z.mul_div_le; lia).
      nia. }
    apply (ProcessMetadata_fails_at s checkpoint k db e Hh HN63 Hk Hdone).
    fold w. intros metadata Hmd. unfold Audit.processTile.
    rewrite (i64_small (Z.of_nat k * w)) by nia.
    rewrite Hleaves. reflexivity.
  - intros k db hashes e Hh HN63 Hk Hdone Hleaves Hlen Hok Hset.
    set (w := 2 ^ Audit.height s) in *.
    pose proof (tileWidth_le (Audit.height s) 16 ltac:(lia)) as Hw. fold w in Hw.
    assert (Hkw : (Z.of_nat k + 1) * w <= tlog.N checkpoint).
    { assert (tlog.N checkpoint / w * w <= tlog.N checkpoint)
        by (rewrite Z.mul_comm; apply Z.mul_div_le; lia).
      nia. }
    apply (ProcessMetadata_fails_at s checkpoint k db e Hh HN63 Hk Hdone).
    fold w. intros metadata Hmd. unfold Audit.processTile.
    rewrite (i64_small (Z.of_nat k * w)) by nia.
    rewrite Hleaves. cbn [Audit.bindS].
    destruct (parseLeaves_ok (Z.of_nat k * w) hashes 0 metadata) as [rows Hrows].
    + rewrite Hmd. cbn [Nat.add]. lia.
    + intros j leaf Hj. cbn [Nat.add].
      assert (Hjl : (j < length hashes)%nat)
        by (apply nth_error_Some; rewrite Hj; discriminate).
      rewrite i64_small by nia. apply Hok. exact Hj.
    + rewrite Hrows. cbn [Audit.bindS]. rewrite Hset. reflexivity.
Qed.

End StoreFailures.

(** C9, counterexample.  [Head] fails on the store and the run does not
    fail: for the checkpoint of 18 leaves it fetches and writes the four
    leaf tiles and returns [nil]. *)
Lemma CloneLeafTiles_survives_Head_error :
  Audit.Head Audit.headlessStore = Err (Audit.ErrStore "no head")
  /\ snd (Audit.CloneLeafTiles Audit.headlessService Audit.demoCheckpoint) = Ok tt
  /\ snd (fst (Audit.CloneLeafTiles Audit.headlessService Audit.demoCheckpoint))
     = [Audit.Fetched 0; Audit.Wrote 0; Audit.Fetched 1; Audit.Wrote 4;
        Audit.Fetched 2; Audit.Wrote 8; Audit.Fetched 3; Audit.Wrote 12].
Proof. repeat split; vm_compute; reflexivity. Qed.

(** The fringe of the log of 22 leaves, but for its last tile, is held by
    the hashed store with that tile unreadable. *)
Lemma faulty22_holds (l o : Z) :
  0 < l \/ (l = 0 /\ o < 4) ->
  22 / 2 ^ ((l + 2) * 2) * 2 ^ 2 <= o < 22 / 2 ^ ((l + 1) * 2) ->
  exists hashes,
    Audit.holdsTile
      (Audit.service22 (Audit.mkFaulty Audit.hashed22 (Some (2, 0, 4)) None 0))
      (l, o) hashes.
Proof.
  intros Hl Ho.
  destruct (Z_lt_le_dec l 2) as [Hlt|Hge].
  - assert (Hc : l = 0 \/ l = 1) by lia.
    destruct Hc as [-> | ->].
    + change (22 / 2 ^ ((0 + 2) * 2) * 2 ^ 2) with 4 in Ho. lia.
    + change (22 / 2 ^ ((1 + 2) * 2) * 2 ^ 2) with 0 in Ho.
      change (22 / 2 ^ ((1 + 1) * 2)) with 1 in Ho.
      assert (o = 0) by lia. subst o.
      eexists; split; vm_compute; reflexivity.
  - assert (2 ^ 6 <= 2 ^ ((l + 1) * 2)) by (apply Z.pow_le_mono_r; lia).
    rewrite (Z.div_small 22 (2 ^ ((l + 1) * 2))) in Ho by lia.
    assert (0 <= 22 / 2 ^ ((l + 2) * 2) * 2 ^ 2); [|lia].
    apply Z.mul_nonneg_nonneg; [|lia]. apply Z.div_pos; [lia|].
    apply Z.pow_pos_nonneg; lia.
Qed.

(** C9, as amended: a store of three leaves whose [Head] fails; a store
    with room for one write, on which the clone of the log of 18 leaves
    ends at its second chunk; the hashed store of the log of 22 leaves
    with the last tile of the fringe unreadable, on which the root check
    ends at that tile; and two stores of two tiles of leaves, one that
    cannot read the second tile and one with room for one write, on
    which the metadata of the first tile is written and the run ends at
    the second. *)
Lemma LocalStore_failures_witness :
  Audit.CloneLeafTiles Audit.staleService Audit.demoCheckpoint
  = Audit.cloneFrom Audit.staleService Audit.demoCheckpoint (-1)
  /\ Audit.CloneLeafTiles
       (Audit.NewService Audit.stubNodeHash
          (Audit.mkFaulty Audit.emptyStore None None 1) Audit.demoLog 2)
       Audit.demoCheckpoint
     = (Audit.mkFaulty
          (Audit.mkMem (map Audit.leafNamed [0; 1; 2; 3]%nat) [] [] false)
          None None 0,
        [Audit.Fetched 0; Audit.Wrote 0; Audit.Fetched 1; Audit.Wrote 4],
        Err (Audit.ErrWriteLeaves (Audit.ErrStore "disk full")))
  /\ Audit.CheckRootHash Audit.stubRecordHash
       (Audit.service22 (Audit.mkFaulty Audit.hashed22 (Some (2, 0, 4)) None 0))
       Audit.checkpoint22
     = Err (Audit.ErrGetTile 0 4 (Audit.ErrStore "unreadable"))
  /\ snd (Audit.ProcessMetadata
            (Audit.NewService Audit.stubNodeHash
               (Audit.mkFaulty Audit.goodStore None (Some 2) 5) Audit.demoLog 1)
            (tlog.mkTree 4 []))
     = Err (Audit.ErrStore "unreadable")
  /\ map fst
         (Audit.memMetadata
            (Audit.inner
               (fst (Audit.ProcessMetadata
                       (Audit.NewService Audit.stubNodeHash
                          (Audit.mkFaulty Audit.goodStore None (Some 2) 5)
                          Audit.demoLog 1)
                       (tlog.mkTree 4 [])))))
     = [0]
  /\ snd (Audit.ProcessMetadata
            (Audit.NewService Audit.stubNodeHash
               (Audit.mkFaulty Audit.goodStore None None 1) Audit.demoLog 1)
            (tlog.mkTree 4 []))
     = Err (Audit.ErrStore "disk full").
Proof.
  destruct (LocalStore_failures Audit.staleService Audit.demoCheckpoint)
    as [Hhead _].
  destruct (LocalStore_failures
              (Audit.NewService Audit.stubNodeHash
                 (Audit.mkFaulty Audit.emptyStore None None 1) Audit.demoLog 2)
              Audit.demoCheckpoint)
    as [_ [_ [_ [_ [_ [Hwrite _]]]]]].
  destruct (LocalStore_failures
              (Audit.service22
                 (Audit.mkFaulty Audit.hashed22 (Some (2, 0, 4)) None 0))
              Audit.checkpoint22)
    as [_ [_ [_ [_ [_ [_ [Htile _]]]]]]].
  destruct (LocalStore_failures
              (Audit.NewService Audit.stubNodeHash
                 (Audit.mkFaulty Audit.goodStore None (Some 2) 5) Audit.demoLog 1)
              (tlog.mkTree 4 []))
    as [_ [_ [_ [_ [_ [_ [_ [Hleaves _]]]]]]]].
  destruct (LocalStore_failures
              (Audit.NewService Audit.stubNodeHash
                 (Audit.mkFaulty Audit.goodStore None None 1) Audit.demoLog 1)
              (tlog.mkTree 4 []))
    as [_ [_ [_ [_ [_ [_ [_ [_ Hset]]]]]]]].
  split; [|split; [|split; [|split; [|split]]]].
  - apply (Hhead (Audit.ErrStore "no head")). reflexivity.
  - refine (Hwrite (-1) 1%nat
              (Audit.mkFaulty
                 (Audit.mkMem (map Audit.leafNamed [0; 1; 2; 3]%nat) [] [] false)
                 None None 0)
              [Audit.Fetched 0; Audit.Wrote 0]
              (map Audit.leafNamed [4; 5; 6; 7]%nat)
              (Audit.ErrStore "disk full") _ _ _ _ _ _ _ _).
    + reflexivity.
    + simpl. lia.
    + lia.
    + vm_compute. reflexivity.
    + vm_compute. reflexivity.
    + vm_compute. reflexivity.
    + vm_compute. reflexivity.
    + vm_compute. reflexivity.
  - apply Htile.
    + simpl. lia.
    + simpl. lia.
    + lia.
    + split; vm_compute; [discriminate|reflexivity].
    + vm_compute. reflexivity.
    + exact faulty22_holds.
  - rewrite (Hleaves 1%nat
               (Audit.mkFaulty
                  (Audit.mkMem (Audit.memLeaves Audit.goodStore) []
                     [(0, repeat (Audit.mkMetadata (list_byte_of_string "m")
                                    (list_byte_of_string "v1.0")
                                    (list_byte_of_string "h1:a")
                                    (list_byte_of_string "h1:b")) 2)]
                     false)
                  None (Some 2) 4)
               (Audit.ErrStore "unreadable")).
    + reflexivity.
    + simpl. lia.
    + simpl. lia.
    + vm_compute. reflexivity.
    + vm_compute. reflexivity.
    + vm_compute. reflexivity.
  - rewrite (Hleaves 1%nat
               (Audit.mkFaulty
                  (Audit.mkMem (Audit.memLeaves Audit.goodStore) []
                     [(0, repeat (Audit.mkMetadata (list_byte_of_string "m")
                                    (list_byte_of_string "v1.0")
                                    (list_byte_of_string "h1:a")
                                    (list_byte_of_string "h1:b")) 2)]
                     false)
                  None (Some 2) 4)
               (Audit.ErrStore "unreadable")).
    + reflexivity.
    + simpl. lia.
    + simpl. lia.
    + vm_compute. reflexivity.
    + vm_compute. reflexivity.
    + vm_compute. reflexivity.
  - rewrite (Hset 1%nat
               (Audit.mkFaulty
                  (Audit.mkMem (Audit.memLeaves Audit.goodStore) []
                     [(0, repeat (Audit.mkMetadata (list_byte_of_string "m")
                                    (list_byte_of_string "v1.0")
                                    (list_byte_of_string "h1:a")
                                    (list_byte_of_string "h1:b")) 2)]
                     false)
                  None None 0)
               [Audit.goodLeaf; Audit.goodLeaf]
               (Audit.ErrStore "disk full")).
    + reflexivity.
    + simpl. lia.
    + simpl. lia.
    + vm_compute. reflexivity.
    + vm_compute. reflexivity.
    + vm_compute. reflexivity.
    + vm_compute. discriminate.
    + intros j leaf Hj.
      destruct j as [|[|[|j]]]; simpl in Hj; try discriminate Hj;
        injection Hj as <-; reflexivity.
    + intros rows. reflexivity.
Defined.
(** * Further properties *)

(** ** More on the tile codec *)

(** What the read loop returns: the nodes it was given, followed by the
    payload cut into hashes of 32 bytes. *)
Lemma readNodes_payload (buf : bytes) (acc nodes : list (option bytes)) :
  Api.readNodes buf acc = Ok nodes ->
  exists read, nodes = acc ++ read
    /\ Forall Api.isHash read
    /\ concat (map Api.node_bytes read) = buf.
Proof.
  funelim (Api.readNodes buf acc); intros Hr.
  - injection Hr as <-. exists []. rewrite app_nil_r. repeat split. constructor.
  - match goal with
    | IH : forall _, _ -> exists _, _ |- _ =>
        destruct (IH _ Hr) as [read [Hn [Hh Hc]]]
    end.
    exists (Some (Api.Buffer_Read 32 (b :: buf')) :: read).
    split; [rewrite Hn, <- app_assoc; reflexivity|].
    split.
    + constructor; [|exact Hh].
      eexists. split; [reflexivity|]. apply Nat.eqb_eq. exact Heq.
    + cbn [map concat Api.node_bytes]. rewrite Hc.
      unfold Api.Buffer_Read, Api.Buffer_rest. apply firstn_skipn.
  - discriminate Hr.
Qed.

(** The error of the read loop on a payload that is not a whole number
    of hashes: a short read of the bytes left over. *)
Lemma readNodes_short (buf : bytes) (acc : list (option bytes)) :
  (length buf mod 32 <> 0)%nat ->
  Api.readNodes buf acc = Err (Api.ErrShortRead (length buf mod 32)).
Proof.
  funelim (Api.readNodes buf acc); intros Hm.
  - simpl in Hm. contradiction.
  - apply Nat.eqb_eq in Heq. unfold Api.Buffer_Read, Api.Buffer_rest in *.
    rewrite length_firstn in Heq.
    set (l := length (b :: buf')) in *.
    assert (Hl : (32 <= l)%nat) by lia.
    assert (Hmod : (l mod 32 = (l - 32) mod 32)%nat).
    { replace l with ((l - 32) + 1 * 32)%nat at 1 by lia.
      apply Nat.Div0.mod_add. }
    match goal with
    | IH : _ -> Api.readNodes _ _ = _ |- _ => rewrite IH
    end.
    + rewrite length_skipn. fold l. rewrite Hmod. reflexivity.
    + rewrite length_skipn. fold l. rewrite <- Hmod. exact Hm.
  - apply Nat.eqb_neq in Heq. unfold Api.Buffer_Read in *.
    rewrite length_firstn in *.
    set (l := length (b :: buf')) in *.
    assert (Hl : (l < 32)%nat) by lia.
    rewrite Nat.mod_small by lia.
    rewrite Nat.min_r by lia. reflexivity.
Qed.

(** The hashes of a tile take 32 bytes each. *)
Lemma length_concat_hashes (ns : list (option bytes)) :
  Forall Api.isHash ns ->
  length (concat (map Api.node_bytes ns)) = (32 * length ns)%nat.
Proof.
  induction 1 as [|n ns [h [-> Hlen]] _ IH]; [reflexivity|].
  cbn [map concat Api.node_bytes length]. rewrite length_app, Hlen. lia.
Qed.

(** An input the decoder accepts, taken apart. *)
Lemma UnmarshalBinary_frame (raw : bytes) (t : Api.Tile) :
  Api.UnmarshalBinary raw = Ok t ->
  exists numLeaves,
    raw = x20 :: numLeaves :: concat (map Api.node_bytes (Api.Nodes t))
    /\ Api.NumLeaves t = Byte.to_N numLeaves
    /\ Forall Api.isHash (Api.Nodes t).
Proof.
  unfold Api.UnmarshalBinary.
  destruct raw as [|hs [|numLeaves payload]]; try discriminate.
  - destruct (Byte.eqb hs x20); discriminate.
  - destruct (Byte.eqb hs x20) eqn:Ehs; [|discriminate].
    apply Byte.byte_dec_bl in Ehs. subst hs.
    destruct (Api.readNodes payload []) as [nodes| | |] eqn:Er; try discriminate.
    cbn [bind]. intros Ht. injection Ht as <-.
    destruct (readNodes_payload _ _ _ Er) as [read [Hn [Hh Hc]]].
    cbn [app] in Hn. subst nodes.
    exists numLeaves. cbn [Api.NumLeaves Api.Nodes].
    rewrite Hc. repeat split. exact Hh.
Qed.

(** X1.  Encoding is the inverse of decoding on every input the decoder
    accepts: a tile decoded from [raw] is encoded as [raw] again.  Such a
    tile has a leaf count below 256 and [(len(raw) - 2) / 32] nodes, none
    of them [nil], each of 32 bytes. *)
Theorem MarshalBinary_UnmarshalBinary (raw : bytes) (t : Api.Tile) :
  Api.UnmarshalBinary raw = Ok t ->
  Api.MarshalBinary t = Ok raw
  /\ (Api.NumLeaves t < 256)%N
  /\ Forall Api.isHash (Api.Nodes t)
  /\ length raw = (2 + 32 * length (Api.Nodes t))%nat.
Proof.
  intros Hd. destruct (UnmarshalBinary_frame raw t Hd) as [numLeaves [Hraw [Hn Hh]]].
  pose proof (Byte.to_N_bounded numLeaves) as Hb.
  split; [|split; [|split]].
  - unfold Api.MarshalBinary. rewrite Hn, Hraw.
    unfold Api.byte_of_uint. rewrite N.mod_small by lia.
    rewrite Byte.of_to_N. reflexivity.
  - rewrite Hn. lia.
  - exact Hh.
  - rewrite Hraw. cbn [length]. rewrite (length_concat_hashes _ Hh). lia.
Qed.

(** X1 on a frame of three leaves and two hashes. *)
Lemma MarshalBinary_UnmarshalBinary_witness :
  Api.MarshalBinary (Api.mkTile 3 [Some (repeat x01 32); Some (repeat x02 32)])
  = Ok (x20 :: x03 :: repeat x01 32 ++ repeat x02 32)
  /\ (3 < 256)%N.
Proof.
  destruct (MarshalBinary_UnmarshalBinary
              (x20 :: x03 :: repeat x01 32 ++ repeat x02 32)
              (Api.mkTile 3 [Some (repeat x01 32); Some (repeat x02 32)]))
    as [Hm [Hn _]].
  - reflexivity.
  - split; [exact Hm|exact Hn].
Defined.

(** X2.  The errors of the decoder, case by case: no byte at all, a first
    byte other than 32 (whatever follows), no second byte, and a payload
    that is not a whole number of 32-byte hashes, which is reported as a
    short read of the bytes left over after the last whole hash. *)
Theorem UnmarshalBinary_errors (hs numLeaves : byte) (rest payload : bytes) :
  Api.UnmarshalBinary [] = Err Api.ErrReadHashSize
  /\ (hs <> x20 ->
      Api.UnmarshalBinary (hs :: rest) = Err (Api.ErrInvalidHashSize hs))
  /\ Api.UnmarshalBinary [x20] = Err Api.ErrReadNumLeaves
  /\ ((length payload mod 32 <> 0)%nat ->
      Api.UnmarshalBinary (x20 :: numLeaves :: payload)
      = Err (Api.ErrShortRead (length payload mod 32))).
Proof.
  split; [reflexivity|]. split; [|split; [reflexivity|]].
  - intros Hhs. unfold Api.UnmarshalBinary.
    destruct (Byte.eqb hs x20) eqn:E; [|reflexivity].
    apply Byte.byte_dec_bl in E. contradiction.
  - intros Hm. unfold Api.UnmarshalBinary. cbn [Byte.eqb].
    change (Byte.eqb x20 x20) with true. cbv iota.
    rewrite (readNodes_short _ _ Hm). reflexivity.
Qed.

(** X2 on a first byte of 31 and on a payload of 40 bytes. *)
Lemma UnmarshalBinary_errors_witness :
  Api.UnmarshalBinary [x1f; x01] = Err (Api.ErrInvalidHashSize x1f)
  /\ Api.UnmarshalBinary (x20 :: x01 :: repeat x00 40)
     = Err (Api.ErrShortRead 8).
Proof.
  destruct (UnmarshalBinary_errors x1f x01 [x01] (repeat x00 40))
    as [_ [Hhs [_ Hshort]]].
  split.
  - apply Hhs. discriminate.
  - apply Hshort. rewrite repeat_length. discriminate.
Defined.

(** The bytes written for the nodes are those written for the nodes that
    are not [nil]. *)
Lemma concat_node_bytes_filter (ns : list (option bytes)) :
  concat (map Api.node_bytes ns)
  = concat (map Api.node_bytes
                (filter (fun n => match n with Some _ => true | None => false end) ns)).
Proof.
  induction ns as [|[b|] ns IH]; cbn [map concat filter Api.node_bytes app].
  - reflexivity.
  - rewrite IH. reflexivity.
  - exact IH.
Qed.

(** X3.  The encoding writes nothing for a [nil] node, so the [nil]
    entries of [Nodes] do not survive the round trip: a tile whose nodes
    are 32-byte hashes or [nil] is decoded with its hashes moved up into
    the places of the [nil] entries before them, and, if it has a [nil]
    entry, is not reconstructed. *)
Theorem decode_encode_drops_nil (t : Api.Tile) :
  Forall (fun n => n = None \/ Api.isHash n) (Api.Nodes t) ->
  Api.decode_encode t
  = Ok (Api.mkTile (Api.NumLeaves t mod 256)
          (filter (fun n => match n with Some _ => true | None => false end)
                  (Api.Nodes t)))
  /\ (In None (Api.Nodes t) -> Api.decode_encode t <> Ok t).
Proof.
  intros H.
  set (keep := fun n : option bytes => match n with Some _ => true | None => false end).
  assert (Hk : Forall Api.isHash (filter keep (Api.Nodes t))).
  { apply Forall_forall. intros n Hn. apply filter_In in Hn.
    destruct Hn as [Hin Hkeep].
    rewrite Forall_forall in H. destruct (H n Hin) as [-> | Hh]; [discriminate|exact Hh]. }
  assert (Hd : Api.decode_encode t
               = Ok (Api.mkTile (Api.NumLeaves t mod 256) (filter keep (Api.Nodes t)))).
  { unfold Api.decode_encode, Api.MarshalBinary. cbn [bind].
    unfold Api.UnmarshalBinary. change (Byte.eqb x20 x20) with true. cbv iota.
    rewrite concat_node_bytes_filter. fold keep.
    rewrite (readNodes_hashes _ [] Hk). cbn [app bind].
    rewrite byte_of_uint_to_N. reflexivity. }
  split; [exact Hd|].
  intros Hin Heq. rewrite Hd in Heq.
  assert (Hf : In None (filter keep (Api.Nodes t))).
  { injection Heq as Heq. apply (f_equal Api.Nodes) in Heq.
    cbn [Api.Nodes] in Heq. rewrite Heq. exact Hin. }
  apply filter_In in Hf. destruct Hf as [_ Hf]. discriminate Hf.
Qed.

(** X3 on the tile of three leaves padded with [nil] entries. *)
Lemma decode_encode_drops_nil_witness :
  Api.decode_encode Storage.paddedTile
  = Ok (Api.mkTile 3 (repeat (Some (repeat x00 32)) 5))
  /\ Api.decode_encode Storage.paddedTile <> Ok Storage.paddedTile.
Proof.
  destruct (decode_encode_drops_nil Storage.paddedTile) as [Hd Hne].
  - unfold Storage.paddedTile. cbn [Api.Nodes].
    apply Forall_app. split; apply Forall_forall; intros n Hn;
      apply repeat_spec in Hn; subst n.
    + right. exists (repeat x00 32). split; reflexivity.
    + left. reflexivity.
  - split.
    + rewrite Hd. reflexivity.
    + apply Hne. unfold Storage.paddedTile. cbn [Api.Nodes].
      apply in_or_app. right. left. reflexivity.
Defined.

(** X4.  [TileSize] on a decoded tile: the decoder gives no [nil] node,
    so the scan finds no vacant slot.  It returns 256 when the frame holds
    511 hashes or more, whatever the leaf count says, and indexes past the
    end of [Nodes], which panics, on every shorter frame. *)
Theorem TileSize_of_decoded (raw : bytes) (t : Api.Tile) :
  Api.UnmarshalBinary raw = Ok t ->
  ((2 + 32 * 511 <= length raw)%nat -> Storage.TileSize t = Ok 256%N)
  /\ ((length raw < 2 + 32 * 511)%nat -> isPanic (Storage.TileSize t) = true).
Proof.
  intros Hd.
  destruct (UnmarshalBinary_frame raw t Hd) as [numLeaves [Hraw [_ Hh]]].
  assert (Hlen : length raw = (2 + 32 * length (Api.Nodes t))%nat).
  { rewrite Hraw. cbn [length]. rewrite (length_concat_hashes _ Hh). lia. }
  assert (Hpop : forall j, (N.to_nat (2 * j) < length (Api.Nodes t))%nat ->
                           Storage.populated t j).
  { intros j Hj. unfold Storage.populated.
    destruct (nth_error (Api.Nodes t) (N.to_nat (2 * j))) as [n|] eqn:E.
    - rewrite Forall_forall in Hh.
      destruct (Hh n (nth_error_In _ _ E)) as [h [-> _]]. exists h. reflexivity.
    - apply nth_error_None in E. lia. }
  split.
  - intros Hl.
    destruct (TileSize_loop_in_bounds t 256 0%N ltac:(lia) eq_refl)
      as [[k [Hk [_ [Hv _]]]] | [Hr _]]; [|exact Hr].
    unfold Storage.vacant in Hv.
    destruct (Hpop k) as [h Hh'].
    + apply nth_error_Some. rewrite Hv. discriminate.
    + rewrite Hh' in Hv. discriminate.
  - intros Hl.
    apply (TileSize_loop_out_of_bounds t 256 0%N); [lia|reflexivity|simpl; lia|exact Hpop].
Qed.

(** X4 on the encoding of a full tile and on that of a tile of three
    leaves. *)
Lemma TileSize_of_decoded_witness :
  Storage.TileSize (Api.mkTile 0 (Api.Nodes Api.fullTile)) = Ok 256%N
  /\ isPanic (Storage.TileSize (Api.mkTile 3 (repeat (Some (repeat x00 32)) 5))) = true.
Proof.
  split.
  - apply (TileSize_of_decoded
             (x20 :: x00 :: concat (map Api.node_bytes (Api.Nodes Api.fullTile)))).
    + vm_compute. reflexivity.
    + vm_compute. lia.
  - apply (TileSize_of_decoded
             (x20 :: x03 :: concat (repeat (repeat x00 32) 5))).
    + vm_compute. reflexivity.
    + vm_compute. lia.
Defined.

(** ** In-tile node keys *)

(** The key of a node, plus one, without the wrap-around. *)
Lemma TileNodeKey_closed (level index : N) :
  Api.keyFits level index ->
  (Api.TileNodeKey level index + 1 = 2 ^ level * (2 * index + 1))%N.
Proof.
  unfold Api.keyFits. intros Hfit.
  assert (Hp : (0 < 2 ^ level)%N) by (apply N.neq_0_lt_0, N.pow_nonzero; lia).
  assert (Hl : (level <= 64)%N).
  { destruct (N.le_gt_cases level 64) as [|Hgt]; [assumption|].
    assert (2 ^ 64 < 2 ^ level)%N by (apply N.pow_lt_mono_r; lia).
    nia. }
  unfold Api.TileNodeKey, u64.
  rewrite (N.mod_small (level + 1)) by (change (2 ^ 64)%N with 18446744073709551616%N; lia).
  rewrite !N.shiftl_1_l.
  rewrite N.Div0.add_mod_idemp_l.
  rewrite N.pow_add_r. change (2 ^ 1)%N with 2%N.
  set (p := (2 ^ level)%N) in *. set (M := (2 ^ 64)%N) in *.
  assert (HM : (0 < M)%N) by (unfold M; apply N.neq_0_lt_0, N.pow_nonzero; lia).
  pose proof (N.div_mod' (p * 2) M) as Ha.
  pose proof (N.div_mod' p M) as Hb.
  assert (Hc : ((p * 2) mod M * index + p mod M + (M - 1)
                + (p * 2 / M * index + p / M) * M
                = (p * (2 * index + 1) - 1) + 1 * M)%N) by nia.
  rewrite <- (N.Div0.mod_add _ (p * 2 / M * index + p / M) M), Hc.
  rewrite N.Div0.mod_add. rewrite N.mod_small by nia. nia.
Qed.

(** A number is a power of two times an odd number in one way. *)
Lemma pow2_odd_unique (l l' i i' : N) :
  (2 ^ l * (2 * i + 1) = 2 ^ l' * (2 * i' + 1))%N -> l = l' /\ i = i'.
Proof.
  revert l'. induction l as [|l IH] using N.peano_ind; intros l' H.
  - destruct l' as [|l'] using N.peano_ind.
    + change (2 ^ 0)%N with 1%N in H. lia.
    + rewrite N.pow_succ_r' in H. change (2 ^ 0)%N with 1%N in H. lia.
  - destruct l' as [|l'] using N.peano_ind.
    + rewrite N.pow_succ_r' in H. change (2 ^ 0)%N with 1%N in H. lia.
    + rewrite !N.pow_succ_r' in H.
      destruct (IH l') as [-> ->]; [lia|]. split; reflexivity.
Qed.

(** X5.  The keys of the nodes of a tile follow the in-order traversal of
    the tile: as long as the [uint64] arithmetic does not wrap around, the
    key of node [(level, index)] is [2^level * (2 * index + 1) - 1], a
    parent lies midway between its two children, [2^level] above the left
    one and [2^level] below the right one, and two nodes have the same key
    only if they are the same node. *)
Theorem TileNodeKey_in_order (level index level' index' : N) :
  (Api.keyFits level index ->
   Api.TileNodeKey level index = (2 ^ level * (2 * index + 1) - 1)%N)
  /\ (Api.keyFits level (2 * index + 1) ->
      Api.TileNodeKey (level + 1) index
      = (Api.TileNodeKey level (2 * index) + 2 ^ level)%N
      /\ Api.TileNodeKey level (2 * index + 1)
         = (Api.TileNodeKey (level + 1) index + 2 ^ level)%N)
  /\ (Api.keyFits level index -> Api.keyFits level' index' ->
      Api.TileNodeKey level index = Api.TileNodeKey level' index' ->
      level = level' /\ index = index').
Proof.
  split; [|split].
  - intros Hfit. pose proof (TileNodeKey_closed level index Hfit). lia.
  - intros Hfit. unfold Api.keyFits in Hfit.
    assert (Hp : (0 < 2 ^ level)%N) by (apply N.neq_0_lt_0, N.pow_nonzero; lia).
    assert (H1 : Api.keyFits level (2 * index)) by (unfold Api.keyFits; nia).
    assert (H2 : Api.keyFits (level + 1) index).
    { unfold Api.keyFits. rewrite N.pow_add_r. change (2 ^ 1)%N with 2%N. nia. }
    pose proof (TileNodeKey_closed _ _ Hfit) as E0.
    pose proof (TileNodeKey_closed _ _ H1) as E1.
    pose proof (TileNodeKey_closed _ _ H2) as E2.
    rewrite N.pow_add_r in E2. change (2 ^ 1)%N with 2%N in E2.
    split; nia.
  - intros Hfit Hfit' Heq.
    pose proof (TileNodeKey_closed _ _ Hfit) as E.
    pose proof (TileNodeKey_closed _ _ Hfit') as E'.
    apply pow2_odd_unique. lia.
Qed.

(** X5 in a tile of height 8: the root, its two children, and two nodes
    of different levels. *)
Lemma TileNodeKey_in_order_witness :
  Api.TileNodeKey 7 0 = 127%N
  /\ Api.TileNodeKey 7 0 = (Api.TileNodeKey 6 0 + 2 ^ 6)%N
  /\ Api.TileNodeKey 6 1 = (Api.TileNodeKey 7 0 + 2 ^ 6)%N
  /\ Api.TileNodeKey 1 1 <> Api.TileNodeKey 0 3.
Proof.
  destruct (TileNodeKey_in_order 7 0 7 0) as [Hc _].
  destruct (TileNodeKey_in_order 6 0 6 0) as [_ [Hm _]].
  destruct (TileNodeKey_in_order 1 1 0 3) as [_ [_ Hi]].
  split; [apply Hc; unfold Api.keyFits; vm_compute; discriminate|].
  split; [apply Hm; unfold Api.keyFits; vm_compute; discriminate|].
  split; [apply Hm; unfold Api.keyFits; vm_compute; discriminate|].
  intros Heq. apply Hi in Heq.
  - destruct Heq as [Hl _]. discriminate Hl.
  - unfold Api.keyFits; vm_compute; discriminate.
  - unfold Api.keyFits; vm_compute; discriminate.
Defined.

(** ** Tile addresses *)

(** The row width of [NodeCoordsToTileAddress]. *)
Lemma tileRowWidth_pow2 (treeLevel : N) :
  u64 (N.shiftl 1 (8 - treeLevel mod 8)) = (2 ^ (8 - treeLevel mod 8))%N
  /\ (2 ^ (treeLevel mod 8) * 2 ^ (8 - treeLevel mod 8) = 256)%N.
Proof.
  pose proof (N.mod_upper_bound treeLevel 8 ltac:(lia)) as Hm.
  set (m := (treeLevel mod 8)%N) in *.
  rewrite N.shiftl_1_l.
  assert (Hc : (m = 0 \/ m = 1 \/ m = 2 \/ m = 3 \/ m = 4 \/ m = 5 \/ m = 6 \/ m = 7)%N)
    by lia.
  destruct Hc as [-> | [-> | [-> | [-> | [-> | [-> | [-> | ->]]]]]]];
    split; reflexivity.
Qed.

(** The address of a node, taken apart. *)
Lemma NodeCoordsToTileAddress_parts (treeLevel treeIndex : N)
      (tileLevel tileIndex nodeLevel nodeIndex : N) :
  Storage.NodeCoordsToTileAddress treeLevel treeIndex
  = (tileLevel, tileIndex, nodeLevel, nodeIndex) ->
  (nodeLevel < 8)%N
  /\ (nodeIndex < 2 ^ (8 - nodeLevel))%N
  /\ treeLevel = (8 * tileLevel + nodeLevel)%N
  /\ treeIndex = (tileIndex * 2 ^ (8 - nodeLevel) + nodeIndex)%N.
Proof.
  unfold Storage.NodeCoordsToTileAddress.
  destruct (tileRowWidth_pow2 treeLevel) as [-> Hw].
  pose proof (N.mod_upper_bound treeLevel 8 ltac:(lia)) as Hm.
  intros H. injection H as <- <- <- <-.
  set (m := (treeLevel mod 8)%N) in *.
  assert (Hp : (2 ^ (8 - m) <> 0)%N) by (apply N.pow_nonzero; lia).
  split; [exact Hm|]. split; [apply N.mod_upper_bound; exact Hp|].
  split.
  - unfold m. apply N.div_mod'.
  - rewrite N.mul_comm. apply N.div_mod'.
Qed.

(** X6.  [NodeCoordsToTileAddress] loses nothing: the node level is below
    8, the node index is below the width [2^(8 - nodeLevel)] of its row in
    the tile, and the tree coordinates are given back by
    [treeLevel = 8 * tileLevel + nodeLevel] and
    [treeIndex = tileIndex * 2^(8 - nodeLevel) + nodeIndex]. *)
Theorem NodeCoordsToTileAddress_inverse (treeLevel treeIndex : N) :
  let '(tileLevel, tileIndex, nodeLevel, nodeIndex) :=
    Storage.NodeCoordsToTileAddress treeLevel treeIndex in
  (nodeLevel < 8)%N
  /\ (nodeIndex < 2 ^ (8 - nodeLevel))%N
  /\ treeLevel = (8 * tileLevel + nodeLevel)%N
  /\ treeIndex = (tileIndex * 2 ^ (8 - nodeLevel) + nodeIndex)%N.
Proof.
  destruct (Storage.NodeCoordsToTileAddress treeLevel treeIndex)
    as [[[tileLevel tileIndex] nodeLevel] nodeIndex] eqn:E.
  exact (NodeCoordsToTileAddress_parts _ _ _ _ _ _ E).
Qed.

(** X7.  The place of a tree node in its tile, as [TileNodeKey] numbers
    it, is a slot of a tile of 511 nodes, and no two tree nodes are given
    the same slot of the same tile. *)
Theorem NodeCoordsToTileAddress_slot (treeLevel treeIndex treeLevel' treeIndex' : N)
        (tileLevel tileIndex nodeLevel nodeIndex nodeLevel' nodeIndex' : N) :
  Storage.NodeCoordsToTileAddress treeLevel treeIndex
  = (tileLevel, tileIndex, nodeLevel, nodeIndex) ->
  (Api.TileNodeKey nodeLevel nodeIndex < 511)%N
  /\ (Storage.NodeCoordsToTileAddress treeLevel' treeIndex'
      = (tileLevel, tileIndex, nodeLevel', nodeIndex') ->
      Api.TileNodeKey nodeLevel nodeIndex = Api.TileNodeKey nodeLevel' nodeIndex' ->
      treeLevel = treeLevel' /\ treeIndex = treeIndex').
Proof.
  assert (Hfit : forall L I tl ti nl ni,
             Storage.NodeCoordsToTileAddress L I = (tl, ti, nl, ni) ->
             (2 ^ nl * (2 * ni + 1) < 512)%N
             /\ L = (8 * tl + nl)%N /\ I = (ti * 2 ^ (8 - nl) + ni)%N).
  { intros L I tl ti nl ni H.
    destruct (NodeCoordsToTileAddress_parts _ _ _ _ _ _ H) as [Hnl [Hni [HL HI]]].
    split; [|split; assumption].
    assert (Hw : (2 ^ nl * 2 ^ (8 - nl) = 256)%N).
    { rewrite <- N.pow_add_r. replace (nl + (8 - nl))%N with 8%N by lia. reflexivity. }
    nia. }
  intros H. destruct (Hfit _ _ _ _ _ _ H) as [Hk [HL HI]].
  assert (Hf : Api.keyFits nodeLevel nodeIndex).
  { unfold Api.keyFits. change (2 ^ 64)%N with 18446744073709551616%N. lia. }
  pose proof (TileNodeKey_closed _ _ Hf) as Hc.
  split; [lia|].
  intros H' Hkey. destruct (Hfit _ _ _ _ _ _ H') as [Hk' [HL' HI']].
  assert (Hf' : Api.keyFits nodeLevel' nodeIndex').
  { unfold Api.keyFits. change (2 ^ 64)%N with 18446744073709551616%N. lia. }
  pose proof (TileNodeKey_closed _ _ Hf') as Hc'.
  destruct (pow2_odd_unique nodeLevel nodeLevel' nodeIndex nodeIndex') as [-> ->];
    [lia|].
  split; congruence.
Qed.

(** X7 on the nodes [(19, 1000)] and [(16, 8000)], which lie in the tile
    [(2, 31)], at the levels 3 and 0 of it. *)
Lemma NodeCoordsToTileAddress_slot_witness :
  (Api.TileNodeKey 3 8 < 511)%N
  /\ Api.TileNodeKey 3 8 <> Api.TileNodeKey 0 64.
Proof.
  destruct (NodeCoordsToTileAddress_slot 19 1000 16 8000 2 31 3 8 0 64 eq_refl)
    as [Hk Hinj].
  split; [exact Hk|].
  intros Heq. destruct (Hinj eq_refl Heq) as [Hl _]. discriminate Hl.
Defined.

(** ** Tile keys *)

(** Splitting at a separator that the first field does not contain. *)
Lemma Split_app (a b : bytes) (sep : byte) :
  ~ In sep a ->
  Audit.Split (a ++ sep :: b) sep = a :: Audit.Split b sep.
Proof.
  induction a as [|c a IH]; intros Hn.
  - cbn [app Audit.Split]. rewrite (Byte.byte_dec_lb (@eq_refl byte sep)). reflexivity.
  - cbn [app Audit.Split].
    destruct (Byte.eqb c sep) eqn:E.
    + apply Byte.byte_dec_bl in E. subst c. exfalso. apply Hn. left. reflexivity.
    + rewrite IH; [reflexivity|]. intros Hin. apply Hn. right. exact Hin.
Qed.

Lemma Split_none (a : bytes) (sep : byte) :
  ~ In sep a -> Audit.Split a sep = [a].
Proof.
  induction a as [|c a IH]; intros Hn.
  - reflexivity.
  - cbn [Audit.Split].
    destruct (Byte.eqb c sep) eqn:E.
    + apply Byte.byte_dec_bl in E. subst c. exfalso. apply Hn. left. reflexivity.
    + rewrite IH; [reflexivity|]. intros Hin. apply Hn. right. exact Hin.
Qed.

(** The decimal digits are read back as their values, and none of them is
    the separator of a tile key. *)
Lemma digitValue_digit (d : N) :
  (d < 10)%N ->
  strconv.digitValue (strconv.digit d) = Some d /\ strconv.digit d <> x2f.
Proof.
  intros Hd.
  assert (Hc : (d = 0 \/ d = 1 \/ d = 2 \/ d = 3 \/ d = 4 \/ d = 5 \/ d = 6
                \/ d = 7 \/ d = 8 \/ d = 9)%N) by lia.
  destruct Hc as [-> | [-> | [-> | [-> | [-> | [-> | [-> | [-> | [-> | ->]]]]]]]]];
    split; first [reflexivity | discriminate].
Qed.

(** The formatter writes digits only, and at least one. *)
Lemma formatBits_digits (fuel : nat) (u : N) (acc : bytes) :
  ~ In x2f acc -> ~ In x2f (strconv.formatBits fuel u acc).
Proof.
  revert u acc. induction fuel as [|fuel IH]; intros u acc Hacc.
  - exact Hacc.
  - cbn [strconv.formatBits]. destruct (u <? 10)%N eqn:E.
    + apply N.ltb_lt in E. intros [Hd | Hin]; [|exact (Hacc Hin)].
      destruct (digitValue_digit u E) as [_ Hne]. exact (Hne Hd).
    + apply IH. intros [Hd | Hin]; [|exact (Hacc Hin)].
      assert (Hm : (u mod 10 < 10)%N) by (apply N.mod_upper_bound; lia).
      destruct (digitValue_digit _ Hm) as [_ Hne]. exact (Hne Hd).
Qed.

Lemma formatBits_nonempty (fuel : nat) (u : N) (acc : bytes) :
  strconv.formatBits (S fuel) u acc <> [].
Proof.
  revert u acc. induction fuel as [|fuel IH]; intros u acc.
  - cbn [strconv.formatBits]. destruct (u <? 10)%N; discriminate.
  - change (strconv.formatBits (S (S fuel)) u acc)
      with (if (u <? 10)%N then strconv.digit u :: acc
            else strconv.formatBits (S fuel) (u / 10) (strconv.digit (u mod 10) :: acc)).
    destruct (u <? 10)%N; [discriminate|apply IH].
Qed.

(** One step of the parser on a digit that does not overflow. *)
Lemma ParseUint_loop_digit (d n : N) (s : bytes) :
  (d < 10)%N -> (n * 10 + d < 2 ^ 64)%N ->
  strconv.ParseUint_loop (strconv.digit d :: s) n
  = strconv.ParseUint_loop s (n * 10 + d).
Proof.
  intros Hd Hn. cbn [strconv.ParseUint_loop].
  destruct (digitValue_digit d Hd) as [-> _].
  change (2 ^ 64)%N with 18446744073709551616%N in *.
  unfold strconv.cutoff. change ((2 ^ 64 - 1) / 10 + 1)%N with 1844674407370955162%N.
  destruct (1844674407370955162 <=? n)%N eqn:E; [apply N.leb_le in E; lia|].
  unfold u64. change (2 ^ 64)%N with 18446744073709551616%N.
  rewrite (N.mod_small (n * 10)) by lia.
  rewrite (N.mod_small (n * 10 + d)) by lia.
  destruct (n * 10 + d <? n * 10)%N eqn:E1; [apply N.ltb_lt in E1; lia|].
  destruct (18446744073709551616 - 1 <? n * 10 + d)%N eqn:E2;
    [apply N.ltb_lt in E2; lia|].
  reflexivity.
Qed.

(** Reading back what the formatter wrote, in front of [acc]. *)
Lemma ParseUint_loop_formatBits (fuel : nat) (u : N) (acc : bytes) (n : N) :
  (u < 10 ^ N.of_nat fuel)%N ->
  exists k,
    ((n * 10 ^ k + u < 2 ^ 64)%N ->
     strconv.ParseUint_loop (strconv.formatBits fuel u acc) n
     = strconv.ParseUint_loop acc (n * 10 ^ k + u)).
Proof.
  revert u acc. induction fuel as [|fuel IH]; intros u acc Hu.
  - exists 0%N. intros _. simpl in Hu. assert (u = 0%N) by lia. subst u.
    cbn [strconv.formatBits]. f_equal. change (10 ^ 0)%N with 1%N. lia.
  - cbn [strconv.formatBits]. destruct (u <? 10)%N eqn:E.
    + apply N.ltb_lt in E. exists 1%N. intros Hfit.
      change (10 ^ 1)%N with 10%N in *.
      apply ParseUint_loop_digit; assumption.
    + apply N.ltb_ge in E.
      assert (Hdiv : (u / 10 < 10 ^ N.of_nat fuel)%N).
      { apply N.Div0.div_lt_upper_bound.
        rewrite Nat2N.inj_succ, N.pow_succ_r' in Hu. exact Hu. }
      destruct (IH (u / 10)%N (strconv.digit (u mod 10) :: acc) Hdiv) as [k Hk].
      exists (k + 1)%N. intros Hfit.
      rewrite N.pow_add_r in Hfit. change (10 ^ 1)%N with 10%N in Hfit.
      pose proof (N.div_mod' u 10) as Hdm.
      pose proof (N.mod_upper_bound u 10 ltac:(lia)) as Hm.
      rewrite N.pow_add_r. change (10 ^ 1)%N with 10%N.
      set (p := (10 ^ k)%N) in *.
      set (q := (u / 10)%N) in *. set (r := (u mod 10)%N) in *.
      assert (Hq : (n * p + q < 2 ^ 64)%N).
      { change (2 ^ 64)%N with 18446744073709551616%N in *. nia. }
      assert (Hr : ((n * p + q) * 10 + r < 2 ^ 64)%N).
      { change (2 ^ 64)%N with 18446744073709551616%N in *. nia. }
      rewrite (Hk Hq).
      rewrite (ParseUint_loop_digit _ _ _ Hm Hr).
      f_equal. nia.
Qed.

(** [ParseUint] reads back what [FormatUint] writes for a [uint64]. *)
Lemma ParseUint_FormatUint (u : N) :
  (u < 2 ^ 64)%N -> strconv.ParseUint (strconv.FormatUint u) = inr u.
Proof.
  intros Hu. unfold strconv.ParseUint, strconv.FormatUint.
  destruct (strconv.formatBits 20 u []) eqn:E;
    [exfalso; exact (formatBits_nonempty 19 u [] E)|].
  rewrite <- E.
  destruct (ParseUint_loop_formatBits 20 u [] 0) as [k Hk].
  - change (10 ^ N.of_nat 20)%N with 100000000000000000000%N.
    change (2 ^ 64)%N with 18446744073709551616%N in Hu. lia.
  - rewrite Hk by (cbn [N.mul]; exact Hu). reflexivity.
Qed.

(** X8.  [SplitTileKey] undoes [TileKey]: for a level and an index that
    are [uint64] values it returns the two numbers the key was made of.
    It does the same when further fields follow the first two, which it
    does not look at.  So two tile addresses have the same key only if
    they are equal. *)
Theorem SplitTileKey_TileKey (level index level' index' : N) (rest : bytes) :
  (level < 2 ^ 64)%N -> (index < 2 ^ 64)%N ->
  TileKeys.SplitTileKey (TileKeys.TileKey level index)
  = TileKeys.Returns level index
  /\ TileKeys.SplitTileKey (TileKeys.TileKey level index ++ x2f :: rest)
     = TileKeys.Returns level index
  /\ (TileKeys.TileKey level index = TileKeys.TileKey level' index' ->
      (level' < 2 ^ 64)%N -> (index' < 2 ^ 64)%N ->
      level = level' /\ index = index').
Proof.
  intros Hl Hi.
  assert (Hsplit : forall l i, (l < 2 ^ 64)%N -> (i < 2 ^ 64)%N ->
            TileKeys.SplitTileKey (TileKeys.TileKey l i) = TileKeys.Returns l i).
  { intros l i Hl' Hi'. unfold TileKeys.SplitTileKey, TileKeys.TileKey.
    rewrite Split_app by (apply formatBits_digits; intros []).
    rewrite Split_none by (apply formatBits_digits; intros []).
    cbn [nth_error].
    rewrite (ParseUint_FormatUint l Hl'), (ParseUint_FormatUint i Hi'). reflexivity. }
  split; [apply Hsplit; assumption|]. split.
  - unfold TileKeys.SplitTileKey, TileKeys.TileKey.
    rewrite <- app_assoc. cbn [app].
    rewrite Split_app by (apply formatBits_digits; intros []).
    rewrite Split_app by (apply formatBits_digits; intros []).
    cbn [nth_error].
    rewrite (ParseUint_FormatUint level Hl), (ParseUint_FormatUint index Hi).
    reflexivity.
  - intros Heq Hl' Hi'.
    pose proof (Hsplit level index Hl Hi) as H1.
    pose proof (Hsplit level' index' Hl' Hi') as H2.
    rewrite Heq, H2 in H1. injection H1 as -> ->. split; reflexivity.
Qed.

(** X8 on the key of tile [(3, 1234567)]. *)
Lemma SplitTileKey_TileKey_witness :
  TileKeys.TileKey 3 1234567 = list_byte_of_string "3/1234567"
  /\ TileKeys.SplitTileKey (list_byte_of_string "3/1234567")
     = TileKeys.Returns 3 1234567
  /\ TileKeys.SplitTileKey (list_byte_of_string "3/1234567/8")
     = TileKeys.Returns 3 1234567.
Proof.
  destruct (SplitTileKey_TileKey 3 1234567 3 1234567 (list_byte_of_string "8"))
    as [H1 [H2 _]].
  - vm_compute. reflexivity.
  - vm_compute. reflexivity.
  - split; [reflexivity|]. split; [exact H1|exact H2].
Defined.

(** X9.  The keys [SplitTileKey] panics on.  A key that does not start
    with a decimal digit, the empty key and a key with a sign among them,
    and a key with nothing after its first separator make [ParseUint]
    fail with a syntax error, with which the function panics; a key that
    is one decimal number, with no separator, makes it index the second
    field of a slice of one field. *)
Theorem SplitTileKey_panics (c : byte) (rest : bytes) (n : N) :
  TileKeys.SplitTileKey [] = TileKeys.ErrorPanic strconv.ErrSyntax
  /\ (strconv.digitValue c = None ->
      TileKeys.SplitTileKey (c :: rest) = TileKeys.ErrorPanic strconv.ErrSyntax)
  /\ ((n < 2 ^ 64)%N ->
      TileKeys.SplitTileKey (strconv.FormatUint n ++ [x2f])
      = TileKeys.ErrorPanic strconv.ErrSyntax)
  /\ ((n < 2 ^ 64)%N ->
      TileKeys.SplitTileKey (strconv.FormatUint n)
      = TileKeys.RuntimePanic (IndexOutOfRange 1 1)).
Proof.
  split; [reflexivity|]. split; [|split].
  - intros Hc. unfold TileKeys.SplitTileKey. cbn [Audit.Split].
    destruct (Byte.eqb c x2f) eqn:E; [reflexivity|].
    pose proof (Split_nonempty rest x2f) as Hne.
    destruct (Audit.Split rest x2f) as [|cur more]; [contradiction|].
    cbn [nth_error strconv.ParseUint strconv.ParseUint_loop]. rewrite Hc.
    reflexivity.
  - intros Hn. unfold TileKeys.SplitTileKey.
    rewrite Split_app by (apply formatBits_digits; intros []).
    cbn [Audit.Split nth_error]. rewrite (ParseUint_FormatUint n Hn). reflexivity.
  - intros Hn. unfold TileKeys.SplitTileKey.
    rewrite Split_none by (apply formatBits_digits; intros []).
    cbn [nth_error length Z.of_nat]. rewrite (ParseUint_FormatUint n Hn). reflexivity.
Qed.

(** X9 on the keys ["-1/2"], ["12/"] and ["12"]. *)
Lemma SplitTileKey_panics_witness :
  TileKeys.SplitTileKey (list_byte_of_string "-1/2")
  = TileKeys.ErrorPanic strconv.ErrSyntax
  /\ TileKeys.SplitTileKey (list_byte_of_string "12/")
     = TileKeys.ErrorPanic strconv.ErrSyntax
  /\ TileKeys.SplitTileKey (list_byte_of_string "12")
     = TileKeys.RuntimePanic (IndexOutOfRange 1 1).
Proof.
  destruct (SplitTileKey_panics "-"%byte (list_byte_of_string "1/2") 12)
    as [_ [Hsign [Hempty Hone]]].
  split; [apply Hsign; reflexivity|].
  split; [apply Hempty; vm_compute; reflexivity|].
  apply Hone; vm_compute; reflexivity.
Defined.

(** ** More on the strata of a tree *)

(** With a tile height of 0 the shifted index never changes, so the loop
    has no end. *)
Lemma getLevels_loop_height0 (fuel : nat) (c top : Z) :
  0 < c -> Audit.getLevels_loop fuel 0 c top = Hang.
Proof.
  intros Hc. revert top. induction fuel as [|fuel IH]; intros top.
  - cbn [Audit.getLevels_loop].
    replace (0 <? c) with true by (symmetry; apply Z.ltb_lt; exact Hc).
    reflexivity.
  - cbn [Audit.getLevels_loop].
    replace (0 <? c) with true by (symmetry; apply Z.ltb_lt; exact Hc).
    rewrite Z.shiftr_0_r. apply IH.
Qed.

(** X10.  [getLevelsForLeafCount] outside the heights and sizes it is
    meant for.  A negative tile height makes the first shift panic.  A
    tree size below [2^height], a negative one included, gives -1: no
    stratum.  With a tile height of 0 and a tree of at least one leaf the
    loop never ends, whatever number of iterations it is given. *)
Theorem getLevelsForLeafCount_edges (height leaves : Z) :
  (height < 0 ->
   Audit.getLevelsForLeafCount height leaves = Panic NegativeShift)
  /\ (0 <= height -> leaves < 2 ^ height ->
      Audit.getLevelsForLeafCount height leaves = Ok (-1))
  /\ (height = 0 -> 0 < leaves ->
      Audit.getLevelsForLeafCount height leaves = Hang
      /\ forall fuel top, Audit.getLevels_loop fuel height leaves top = Hang).
Proof.
  split; [|split].
  - intros Hh. unfold Audit.getLevelsForLeafCount, shr.
    replace (height <? 0) with true by (symmetry; apply Z.ltb_lt; exact Hh).
    reflexivity.
  - intros Hh Hl. unfold Audit.getLevelsForLeafCount, shr.
    replace (height <? 0) with false by (symmetry; apply Z.ltb_ge; exact Hh).
    cbn [bind]. rewrite Z.shiftr_div_pow2 by exact Hh.
    assert (Hp : 0 < 2 ^ height) by (apply Z.pow_pos_nonneg; lia).
    assert (Hc : leaves / 2 ^ height <= 0).
    { assert (leaves / 2 ^ height < 1); [|lia].
      apply Z.div_lt_upper_bound; lia. }
    cbn [Audit.getLevels_loop].
    replace (0 <? leaves / 2 ^ height) with false
      by (symmetry; apply Z.ltb_ge; exact Hc).
    reflexivity.
  - intros -> Hl. split.
    + unfold Audit.getLevelsForLeafCount, shr. cbn [Z.ltb Z.compare bind].
      rewrite Z.shiftr_0_r. apply getLevels_loop_height0. exact Hl.
    + intros fuel top. apply getLevels_loop_height0. exact Hl.
Qed.

(** X10 at the heights -1, 8 and 0. *)
Lemma getLevelsForLeafCount_edges_witness :
  Audit.getLevelsForLeafCount (-1) 300 = Panic NegativeShift
  /\ Audit.getLevelsForLeafCount 8 (-5) = Ok (-1)
  /\ Audit.getLevelsForLeafCount 0 300 = Hang.
Proof.
  destruct (getLevelsForLeafCount_edges (-1) 300) as [Hneg _].
  destruct (getLevelsForLeafCount_edges 8 (-5)) as [_ [Hsmall _]].
  destruct (getLevelsForLeafCount_edges 0 300) as [_ [_ Hzero]].
  split; [apply Hneg; lia|]. split; [apply Hsmall; lia|].
  apply Hzero; lia.
Defined.

(** ** Checkpoints without a full tile *)

Section NoFullTile.

Context {DB SumDB : Type} {store : Audit.LocalStore DB}
        {remote : Audit.RemoteLog SumDB} {tiles : Audit.RemoteTiles SumDB}.
Variable RecordHash : bytes -> bytes.

Let Service := @Audit.Service DB SumDB.

(** The tile width of a service, and the number of tiles of a tree smaller
    than a tile. *)
Lemma tileWidth_ok (h : Z) :
  0 <= h < 63 -> shl (E := Audit.error) 1 h = Ok (2 ^ h).
Proof.
  intros Hh. unfold shl.
  replace (h <? 0) with false by (symmetry; apply Z.ltb_ge; lia).
  rewrite shiftl_1 by lia. rewrite i64_small; [reflexivity|].
  split; [apply Z.pow_nonneg; lia|apply Z.pow_lt_mono_r; lia].
Qed.

Lemma quo_small (n w : Z) :
  0 <= n < w -> quo (E := Audit.error) n w = Ok 0.
Proof.
  intros Hn. unfold quo.
  replace (w =? 0) with false by (symmetry; apply Z.eqb_neq; lia).
  rewrite Z.quot_small by exact Hn. reflexivity.
Qed.

(** X11.  A checkpoint with fewer leaves than a tile.  With tiles of
    height at most 16, [HashTiles] and [ProcessMetadata] return [nil] and
    leave the store as it was.  With tiles too wide to allocate, the two
    panic before they read anything: [HashTiles] when it makes the
    channel of the leaf roots (heights from 45 on), [ProcessMetadata]
    when it makes the slice of the rows (heights from 43 on).
    [VerifyTiles] allocates nothing and returns [nil] whatever the store
    and the SumDB hold, since it looks at no stratum.  Likewise
    [CloneLeafTiles], whose channels have no buffer, fetches and writes
    nothing when the checkpoint has fewer than a tile of leaves beyond
    the local ones: the stragglers are not copied. *)
Theorem phases_without_full_tile (s : Service) (checkpoint : tlog.Tree)
        (head : Z) :
  0 <= Audit.height s < 63 ->
  (0 <= tlog.N checkpoint < 2 ^ Audit.height s ->
   (Audit.height s <= 16 ->
    Audit.HashTiles RecordHash s checkpoint = (Audit.localDB s, Ok tt)
    /\ Audit.ProcessMetadata s checkpoint = (Audit.localDB s, Ok tt))
   /\ (45 <= Audit.height s ->
       Audit.HashTiles RecordHash s checkpoint
       = (Audit.localDB s, Panic (MakeChanSize (2 ^ Audit.height s))))
   /\ (43 <= Audit.height s ->
       Audit.ProcessMetadata s checkpoint
       = (Audit.localDB s, Panic (MakeSliceLen (2 ^ Audit.height s))))
   /\ forall fuel, Audit.VerifyTiles fuel s checkpoint = Ok tt)
  /\ (Audit.Head (Audit.localDB s) = Ok head ->
      -1 <= head ->
      head + 1 <= tlog.N checkpoint < head + 1 + 2 ^ Audit.height s ->
      tlog.N checkpoint < 2 ^ 63 ->
      Audit.CloneLeafTiles s checkpoint = (Audit.localDB s, [], Ok tt)).
Proof.
  intros Hh.
  set (h := Audit.height s) in *. set (N := tlog.N checkpoint) in *.
  assert (Hw : 0 < 2 ^ h) by (apply Z.pow_pos_nonneg; lia).
  assert (Hw63 : 2 ^ h < 2 ^ 63) by (apply Z.pow_lt_mono_r; lia).
  split.
  - intros HN.
    assert (HK : Audit.getLevelsForLeafCount h N = Ok (-1)).
    { unfold Audit.getLevelsForLeafCount, shr.
      replace (h <? 0) with false by (symmetry; apply Z.ltb_ge; lia).
      cbn [bind]. rewrite Z.shiftr_div_pow2 by lia.
      rewrite Z.div_small by lia. reflexivity. }
    split; [|split; [|split]].
    + intros H16. pose proof (tileWidth_le h 16 ltac:(lia)) as Hw16.
      change (2 ^ 16) with 65536 in Hw16.
      split.
      * unfold Audit.HashTiles. fold h. fold N.
        rewrite tileWidth_ok by lia. cbn [Audit.bindS].
        rewrite quo_small by lia. cbn [Audit.bindS].
        rewrite makechan_ok by sizes.
        cbn [Audit.bindS].
        unfold Audit.hashLeafLevel. cbn [Z.to_nat Audit.hashLeafLevel_loop].
        rewrite HK. cbn [Audit.bindS Z.to_nat Z.add Audit.upperLevels Audit.emitted].
        unfold Audit.Wait. cbn [find isPanic Audit.ended Audit.stuck].
        unfold Audit.sendBlocks. cbn [Audit.emitted length Z.of_nat].
        replace (0 + 2 ^ h <? 0) with false by (symmetry; apply Z.ltb_ge; lia).
        reflexivity.
      * unfold Audit.ProcessMetadata. fold h. fold N.
        rewrite tileWidth_ok by lia. cbn [Audit.bindS].
        rewrite make_ok by sizes.
        cbn [Audit.bindS]. rewrite quo_small by lia. reflexivity.
    + intros H45.
      assert (Hw45 : 2 ^ 45 <= 2 ^ h) by (apply Z.pow_le_mono_r; lia).
      change (2 ^ 45) with 35184372088832 in Hw45.
      unfold Audit.HashTiles. fold h. fold N.
      rewrite tileWidth_ok by lia. cbn [Audit.bindS].
      rewrite quo_small by lia. cbn [Audit.bindS].
      rewrite makechan_too_large by sizes.
      reflexivity.
    + intros H43.
      assert (Hw43 : 2 ^ 43 <= 2 ^ h) by (apply Z.pow_le_mono_r; lia).
      change (2 ^ 43) with 8796093022208 in Hw43.
      unfold Audit.ProcessMetadata. fold h. fold N.
      rewrite tileWidth_ok by lia. cbn [Audit.bindS].
      rewrite make_too_large
        by sizes.
      reflexivity.
    + intros fuel. unfold Audit.VerifyTiles. fold h. fold N. rewrite HK.
      reflexivity.
  - intros Hhead Hm HN HN63.
    unfold Audit.CloneLeafTiles. rewrite Hhead. unfold Audit.cloneFrom.
    fold h. fold N.
    replace (N <? head) with false by (symmetry; apply Z.ltb_ge; lia).
    rewrite tileWidth_ok by lia.
    rewrite (i64_small (head + 1)) by lia.
    rewrite (i64_small (N - (head + 1))) by lia.
    rewrite quo_small by lia.
    unfold quo.
    replace (2 ^ h =? 0) with false by (symmetry; apply Z.eqb_neq; lia).
    reflexivity.
Qed.

End NoFullTile.

(** X11 on the log of 18 leaves with tiles of height 8 and of height 62,
    and on the store of 16 of its leaves with tiles of height 2. *)
Lemma phases_without_full_tile_witness :
  Audit.HashTiles Audit.stubRecordHash
    (Audit.NewService Audit.stubNodeHash Audit.demoCloned Audit.demoLog 8)
    Audit.demoCheckpoint = (Audit.demoCloned, Ok tt)
  /\ Audit.ProcessMetadata
       (Audit.NewService Audit.stubNodeHash Audit.demoCloned Audit.demoLog 8)
       Audit.demoCheckpoint = (Audit.demoCloned, Ok tt)
  /\ Audit.HashTiles Audit.stubRecordHash
       (Audit.NewService Audit.stubNodeHash Audit.demoCloned Audit.demoLog 62)
       Audit.demoCheckpoint
     = (Audit.demoCloned, Panic (MakeChanSize (2 ^ 62)))
  /\ Audit.ProcessMetadata
       (Audit.NewService Audit.stubNodeHash Audit.demoCloned Audit.demoLog 62)
       Audit.demoCheckpoint
     = (Audit.demoCloned, Panic (MakeSliceLen (2 ^ 62)))
  /\ Audit.VerifyTiles 0
       (Audit.NewService Audit.stubNodeHash Audit.demoCloned Audit.demoLog 8)
       Audit.demoCheckpoint = Ok tt
  /\ Audit.CloneLeafTiles (Audit.demoService Audit.demoCloned) Audit.demoCheckpoint
     = (Audit.demoCloned, [], Ok tt).
Proof.
  destruct (phases_without_full_tile Audit.stubRecordHash
              (Audit.NewService Audit.stubNodeHash Audit.demoCloned Audit.demoLog 8)
              Audit.demoCheckpoint 15) as [Hsmall _]; [simpl; lia|].
  destruct Hsmall as [Hok [_ [_ Hverify]]]; [simpl; lia|].
  destruct Hok as [Hhash Hmeta]; [simpl; lia|].
  destruct (phases_without_full_tile Audit.stubRecordHash
              (Audit.NewService Audit.stubNodeHash Audit.demoCloned Audit.demoLog 62)
              Audit.demoCheckpoint 15) as [Hlarge _]; [simpl; lia|].
  destruct Hlarge as [_ [Hchan [Hslice _]]]; [simpl; lia|].
  destruct (phases_without_full_tile Audit.stubRecordHash
              (Audit.demoService Audit.demoCloned) Audit.demoCheckpoint 15)
    as [_ Hclone]; [simpl; lia|].
  split; [exact Hhash|]. split; [exact Hmeta|].
  split; [apply Hchan; simpl; lia|]. split; [apply Hslice; simpl; lia|].
  split; [apply Hverify|].
  apply Hclone; [reflexivity|lia|simpl; lia|simpl; lia].
Defined.

(** ** More on the root check *)

Section Stragglers.

Context {DB SumDB : Type} {store : Audit.LocalStore DB}
        {remote : Audit.RemoteLog SumDB}.
Variable RecordHash : bytes -> bytes.

Let Service := @Audit.Service DB SumDB.

(** X12.  [CheckRootHash] counts what the SumDB sends as stragglers.  On
    a store that holds the tiles for the checkpoint, the stragglers are
    asked for at tile offset [N / 2^H], [N mod 2^H] of them; if the SumDB
    answers with another number of leaves, the call fails with the
    calculation error, which carries the number of leaves found, and no
    root hash is compared. *)
Theorem CheckRootHash_counts_stragglers (s : Service) (checkpoint : tlog.Tree)
        (stragglers : list bytes) :
  1 <= Audit.height s < 63 ->
  0 <= tlog.N checkpoint < 2 ^ 63 ->
  Audit.holdsTiles s checkpoint ->
  Audit.PartialLeavesAtOffset (Audit.sumDB s)
    (tlog.N checkpoint / 2 ^ Audit.height s)
    (tlog.N checkpoint mod 2 ^ Audit.height s) = Ok stragglers ->
  Z.of_nat (length stragglers) <> tlog.N checkpoint mod 2 ^ Audit.height s ->
  Audit.CheckRootHash RecordHash s checkpoint
  = Err (Audit.ErrCalculation
           (tlog.N checkpoint / 2 ^ Audit.height s * 2 ^ Audit.height s
            + Z.of_nat (length stragglers))
           (tlog.N checkpoint)).
Proof.
  intros Hh HN Htiles Hfetch Hlen.
  set (h := Audit.height s) in *. set (N := tlog.N checkpoint) in *.
  assert (Hw : 0 < 2 ^ h) by (apply Z.pow_pos_nonneg; lia).
  assert (Hw63 : 2 ^ h < 2 ^ 63) by (apply Z.pow_lt_mono_r; lia).
  destruct (getLevelsForLeafCount_bounds h N ltac:(lia) HN)
    as [K [HK [HKlo [Hup Hlo]]]].
  assert (Hn : Z.of_nat (Z.to_nat (K + 1)) = K + 1) by (apply Z2Nat.id; lia).
  destruct (levelLoop_ok s checkpoint (Z.to_nat (K + 1))
              (Compact.NewEmptyRange 0) ltac:(fold h; lia) HN Htiles)
    as [tiled [Htiled [Hb He]]].
  { rewrite Hn. fold h. fold N. intros HK0. apply Hlo. lia. }
  { rewrite Hn. fold h. fold N. cbn [Compact.NewEmptyRange Compact.End].
    replace ((K + 1 + 1) * h) with ((K + 2) * h) by lia.
    rewrite Z.div_small by lia. reflexivity. }
  fold h in He. fold N in He.
  assert (Hmod : N - Compact.End tiled = N mod 2 ^ h).
  { rewrite He, Z.mod_eq by lia. lia. }
  pose proof (Z.mod_pos_bound N (2 ^ h) Hw) as Hmb.
  assert (Hdiv : 0 <= N / 2 ^ h <= N).
  { split; [apply Z.div_pos; lia|]. apply Z.div_le_upper_bound; [lia|]. nia. }
  assert (Hstr : Audit.fetchStragglers s checkpoint tiled = Ok stragglers).
  { unfold Audit.fetchStragglers. fold h. fold N.
    rewrite (u64z_small N) by lia.
    rewrite Hmod. rewrite (u64z_small (N mod 2 ^ h)) by lia.
    rewrite (i64_small (N mod 2 ^ h)) by lia.
    unfold shl. destruct (h <? 0) eqn:E; [apply Z.ltb_lt in E; lia|].
    cbn [bind]. rewrite shiftl_1 by lia. rewrite (i64_small (2 ^ h)) by lia.
    unfold quo. destruct (2 ^ h =? 0) eqn:E0; [apply Z.eqb_eq in E0; lia|].
    cbn [bind]. rewrite Z.quot_div_nonneg by lia.
    rewrite (i64_small (N / 2 ^ h)) by lia.
    rewrite Hfetch. reflexivity. }
  destruct (appendAll_bounds (Audit.rf s) (map RecordHash stragglers) tiled)
    as [_ Hwe].
  rewrite length_map in Hwe.
  unfold Audit.CheckRootHash, Audit.tiledRange. fold h. fold N.
  rewrite HK. cbn [bind]. rewrite Htiled. cbn [bind].
  rewrite Hstr. cbn [bind].
  unfold Audit.checkRange, Audit.withStragglers. fold N.
  rewrite Hwe, (u64z_small N) by lia.
  replace (Compact.End tiled + Z.of_nat (length stragglers) =? N) with false
    by (symmetry; apply Z.eqb_neq; lia).
  rewrite He. reflexivity.
Qed.

End Stragglers.
(** X12 on the hashed store of the log of 18 leaves and a SumDB that
    sends one straggler where two are asked for. *)
Lemma CheckRootHash_counts_stragglers_witness :
  Audit.PartialLeavesAtOffset (Audit.mkShort Audit.demoLog) 4 2
  = Ok [Audit.leafNamed 16]
  /\ Audit.CheckRootHash Audit.stubRecordHash
       (Audit.NewService Audit.stubNodeHash Audit.demoHashed
          (Audit.mkShort Audit.demoLog) 2)
       Audit.demoCheckpoint
     = Err (Audit.ErrCalculation 17 18).
Proof.
  split; [reflexivity|].
  apply (CheckRootHash_counts_stragglers Audit.stubRecordHash
           (Audit.NewService Audit.stubNodeHash Audit.demoHashed
              (Audit.mkShort Audit.demoLog) 2)
           Audit.demoCheckpoint [Audit.leafNamed 16]).
  - simpl. lia.
  - simpl. lia.
  - exact demo_holdsTiles.
  - reflexivity.
  - vm_compute. discriminate.
Defined.

(** ** More on the metadata processor *)

(** X13.  A leaf in the format of the SumDB is parsed into its four
    fields: for a module, a version and two hashes that hold no space and
    no newline, the loop body of [ProcessMetadata] gives the metadata
    [{module, version, repoHash, modHash}], whatever the index of the
    leaf. *)
Theorem parseLeaf_formatLeaf (leafID : Z) (module version repoHash modHash : bytes) :
  Audit.isToken module -> Audit.isToken version ->
  Audit.isToken repoHash -> Audit.isToken modHash ->
  Audit.parseLeaf leafID (Audit.formatLeaf module version repoHash modHash)
  = Ok (Audit.mkMetadata module version repoHash modHash).
Proof.
  intros [Hm1 Hm2] [Hv1 Hv2] [Hr1 Hr2] [Hh1 Hh2].
  set (gomod := list_byte_of_string "/go.mod").
  assert (Hg1 : ~ In x20 gomod) by (vm_compute; intuition discriminate).
  assert (Hg2 : ~ In x0a gomod) by (vm_compute; intuition discriminate).
  set (l0 := module ++ x20 :: version ++ x20 :: repoHash).
  set (l1 := module ++ x20 :: (version ++ gomod) ++ x20 :: modHash).
  assert (Hf : Audit.formatLeaf module version repoHash modHash
               = l0 ++ x0a :: l1 ++ [x0a]).
  { unfold Audit.formatLeaf, l0, l1. fold gomod.
    repeat (rewrite <- ?app_assoc; cbn [app]). reflexivity. }
  assert (Hn0 : ~ In x0a l0).
  { unfold l0. intros Hin.
    repeat (apply in_app_or in Hin; destruct Hin as [Hin|Hin]; [tauto|];
            destruct Hin as [Hin|Hin]; [discriminate Hin|]).
    tauto. }
  assert (Hn1 : ~ In x0a l1).
  { unfold l1. intros Hin.
    apply in_app_or in Hin. destruct Hin as [Hin|Hin]; [tauto|].
    destruct Hin as [Hin|Hin]; [discriminate Hin|].
    apply in_app_or in Hin. destruct Hin as [Hin|Hin].
    - apply in_app_or in Hin. tauto.
    - destruct Hin as [Hin|Hin]; [discriminate Hin|tauto]. }
  assert (Hlines : Audit.Split (Audit.formatLeaf module version repoHash modHash) x0a
                   = [l0; l1; []]).
  { rewrite Hf, (Split_app l0 _ x0a Hn0), (Split_app l1 _ x0a Hn1). reflexivity. }
  assert (H0 : Audit.Split l0 x20 = [module; version; repoHash]).
  { unfold l0. rewrite (Split_app module _ x20 Hm1), (Split_app version _ x20 Hv1),
      (Split_none repoHash x20 Hr1). reflexivity. }
  assert (H1 : Audit.Split l1 x20 = [module; version ++ gomod; modHash]).
  { unfold l1. rewrite (Split_app module _ x20 Hm1).
    rewrite (Split_app (version ++ gomod) _ x20).
    - rewrite (Split_none modHash x20 Hh1). reflexivity.
    - intros Hin. apply in_app_or in Hin. tauto. }
  rewrite (parseLeaf_two_lines leafID _ l0 l1 [[]] module version repoHash
             module (version ++ gomod) modHash Hlines H0 H1).
  assert (Em : bytes_eqb module module = true) by (apply bytes_eqb_eq; reflexivity).
  rewrite Em, length_app.
  replace (length version <=? length version + length gomod)%nat with true
    by (symmetry; apply Nat.leb_le; lia).
  rewrite firstn_app, Nat.sub_diag, firstn_all, firstn_O, app_nil_r.
  assert (Ev : bytes_eqb version version = true) by (apply bytes_eqb_eq; reflexivity).
  rewrite Ev. reflexivity.
Qed.

(** X13 on a leaf of the module [m] at version [v1.0]. *)
Lemma parseLeaf_formatLeaf_witness :
  Audit.formatLeaf (list_byte_of_string "m") (list_byte_of_string "v1.0")
    (list_byte_of_string "h1:a") (list_byte_of_string "h1:b") = Audit.goodLeaf
  /\ Audit.parseLeaf 7 Audit.goodLeaf
     = Ok (Audit.mkMetadata (list_byte_of_string "m") (list_byte_of_string "v1.0")
             (list_byte_of_string "h1:a") (list_byte_of_string "h1:b")).
Proof.
  split; [reflexivity|].
  apply (parseLeaf_formatLeaf 7 (list_byte_of_string "m") (list_byte_of_string "v1.0")
           (list_byte_of_string "h1:a") (list_byte_of_string "h1:b"));
    split; vm_compute; intuition discriminate.
Defined.

(** Setting the element that follows [pre]. *)
Lemma setAt_middle {E A} (pre rest : list A) (x y : A) :
  setAt (E := E) (pre ++ x :: rest) (length pre) y = Ok (pre ++ y :: rest).
Proof.
  unfold setAt. rewrite length_app. cbn [length].
  replace (length pre <? length pre + S (length rest))%nat with true
    by (symmetry; apply Nat.ltb_lt; lia).
  rewrite firstn_app, firstn_all, Nat.sub_diag. cbn [firstn].
  rewrite app_nil_r, skipn_app.
  rewrite (skipn_all2 (n := S (length pre))) by lia.
  replace (S (length pre) - length pre)%nat with 1%nat by lia.
  reflexivity.
Qed.

(** The loop over the leaves of a tile sets the rows of the leaves it is
    given and leaves the rest of the slice as it was. *)
Lemma parseLeaves_rows_split (leafOffset : Z) (hashes : list bytes)
      (rows : list Audit.Metadata) :
  Forall2 (fun h m => forall leafID, Audit.parseLeaf leafID h = Ok m) hashes rows ->
  forall (pre mid post : list Audit.Metadata),
    length mid = length hashes ->
    Audit.parseLeaves leafOffset hashes (length pre) (pre ++ mid ++ post)
    = Ok (pre ++ rows ++ post).
Proof.
  induction 1 as [|h m hashes rows Hh _ IH]; intros pre mid post Hlen.
  - destruct mid; [reflexivity|discriminate].
  - destruct mid as [|x mid]; [discriminate|].
    cbn [Audit.parseLeaves length app] in *. rewrite Hh. cbn [bind].
    rewrite setAt_middle. cbn [bind].
    replace (S (length pre)) with (length (pre ++ [m]))
      by (rewrite length_app; simpl; lia).
    replace (pre ++ m :: mid ++ post) with ((pre ++ [m]) ++ mid ++ post)
      by (rewrite <- app_assoc; reflexivity).
    rewrite IH by (injection Hlen as Hlen; exact Hlen).
    rewrite <- app_assoc. reflexivity.
Qed.

Lemma parseLeaves_rows (leafOffset : Z) (hashes : list bytes)
      (rows : list Audit.Metadata) (metadata : list Audit.Metadata) :
  Forall2 (fun h m => forall leafID, Audit.parseLeaf leafID h = Ok m) hashes rows ->
  (length hashes <= length metadata)%nat ->
  Audit.parseLeaves leafOffset hashes 0 metadata
  = Ok (rows ++ skipn (length hashes) metadata).
Proof.
  intros Hrows Hlen.
  pose proof (parseLeaves_rows_split leafOffset hashes rows Hrows []
                (firstn (length hashes) metadata)
                (skipn (length hashes) metadata)) as H.
  cbn [length app] in H. rewrite firstn_skipn in H. apply H.
  rewrite length_firstn. lia.
Qed.

Section Rows.

Context {DB : Type} {store : Audit.LocalStore DB}.

(** X14.  What [ProcessMetadata] writes for a tile.  The slice of rows is
    made once and used for every tile: when the store gives [k] leaves for
    a tile and they all parse, the rows written are the [k] rows parsed
    followed by what the slice held before from position [k] on, the rows
    of the tile before or the empty rows of a new slice.  When the store
    gives more leaves than the slice has rows, the loop indexes past its
    end. *)
Theorem processTile_rows (tileWidth offset : Z) (db : DB)
        (metadata : list Audit.Metadata) (hashes : list bytes)
        (rows : list Audit.Metadata) :
  Audit.Leaves db (i64 (offset * tileWidth)) tileWidth = Ok hashes ->
  Forall2 (fun h m => forall leafID, Audit.parseLeaf leafID h = Ok m) hashes rows ->
  ((length hashes <= length metadata)%nat ->
   Audit.processTile tileWidth offset db metadata
   = match Audit.SetLeafMetadata db (i64 (offset * tileWidth))
             (rows ++ skipn (length hashes) metadata) with
     | Ok db' => (db', Ok (rows ++ skipn (length hashes) metadata))
     | Err e => (db, Err e)
     | Panic p => (db, Panic p)
     | Hang => (db, Hang)
     end)
  /\ ((length metadata < length hashes)%nat ->
      Audit.processTile tileWidth offset db metadata
      = (db, Panic (IndexOutOfRange (Z.of_nat (length metadata))
                                    (Z.of_nat (length metadata))))).
Proof.
  intros Hleaves Hrows. split.
  - intros Hlen. unfold Audit.processTile. rewrite Hleaves. cbn [Audit.bindS].
    rewrite (parseLeaves_rows _ _ _ _ Hrows Hlen).
    cbn [Audit.bindS]. unfold Audit.write.
    destruct (Audit.SetLeafMetadata db (i64 (offset * tileWidth))
                (rows ++ skipn (length hashes) metadata)); reflexivity.
  - intros Hlen. unfold Audit.processTile. rewrite Hleaves. cbn [Audit.bindS].
    assert (Hsplit : hashes = firstn (length metadata) hashes
                              ++ skipn (length metadata) hashes)
      by (symmetry; apply firstn_skipn).
    assert (Hp : Audit.parseLeaves (i64 (offset * tileWidth)) hashes 0 metadata
                 = Panic (IndexOutOfRange (Z.of_nat (length metadata))
                                          (Z.of_nat (length metadata)))).
    { clear Hleaves. revert Hlen.
      generalize (i64 (offset * tileWidth)) as leafOffset.
      intros leafOffset.
      assert (Hgen : forall (i : nat) (md : list Audit.Metadata) hs rs,
                 Forall2 (fun h m => forall leafID, Audit.parseLeaf leafID h = Ok m) hs rs ->
                 (i <= length md)%nat -> (length md < i + length hs)%nat ->
                 Audit.parseLeaves leafOffset hs i md
                 = Panic (IndexOutOfRange (Z.of_nat (length md))
                                          (Z.of_nat (length md)))).
      { intros i md hs rs Hf. revert i md.
        induction Hf as [|h m hs rs Hh _ IH]; intros i md Hi Hlt.
        - cbn [length] in Hlt. lia.
        - cbn [Audit.parseLeaves]. rewrite Hh. cbn [bind]. unfold setAt.
          destruct (i <? length md)%nat eqn:E.
          + apply Nat.ltb_lt in E. cbn [bind].
            assert (Hl : length (firstn i md ++ m :: skipn (S i) md) = length md).
            { rewrite length_app, length_firstn. cbn [length].
              rewrite length_skipn. lia. }
            rewrite IH; [rewrite Hl; reflexivity|rewrite Hl; lia|].
            rewrite Hl. cbn [length] in Hlt. lia.
          + apply Nat.ltb_ge in E. assert (i = length md) by lia. subst i.
            reflexivity. }
      intros Hlen. apply (Hgen 0%nat metadata hashes rows Hrows); simpl; lia. }
    rewrite Hp. reflexivity.
Qed.

End Rows.

(** X14 on a store of two tiles of height 1 of which the second is read
    short: the row of the first tile's second leaf is written again. *)
Lemma processTile_rows_witness :
  Audit.processTile 2 1
    (Audit.mkMem [Audit.goodLeaf; Audit.prefixLeaf; Audit.goodLeaf] [] [] false)
    [Audit.mkMetadata [x61] [] [] []; Audit.mkMetadata [x62] [] [] []]
  = (Audit.mkMem [Audit.goodLeaf; Audit.prefixLeaf; Audit.goodLeaf] []
       [(2, [Audit.mkMetadata (list_byte_of_string "m") (list_byte_of_string "v1.0")
               (list_byte_of_string "h1:a") (list_byte_of_string "h1:b");
             Audit.mkMetadata [x62] [] [] []])] false,
     Ok [Audit.mkMetadata (list_byte_of_string "m") (list_byte_of_string "v1.0")
           (list_byte_of_string "h1:a") (list_byte_of_string "h1:b");
         Audit.mkMetadata [x62] [] [] []]).
Proof.
  destruct (processTile_rows 2 1
              (Audit.mkMem [Audit.goodLeaf; Audit.prefixLeaf; Audit.goodLeaf] [] [] false)
              [Audit.mkMetadata [x61] [] [] []; Audit.mkMetadata [x62] [] [] []]
              [Audit.goodLeaf]
              [Audit.mkMetadata (list_byte_of_string "m") (list_byte_of_string "v1.0")
                 (list_byte_of_string "h1:a") (list_byte_of_string "h1:b")])
    as [Hrows _].
  - reflexivity.
  - constructor; [|constructor]. intros leafID. reflexivity.
  - rewrite Hrows by (simpl; lia). reflexivity.
Defined.

(** ** The tile verifier *)

Lemma isNoRows_eq (e : Audit.error) : Audit.isNoRows e = true <-> e = Audit.ErrNoRows.
Proof. destruct e; split; intros H; try discriminate; reflexivity. Qed.

Section VerifierFacts.

Context {DB SumDB : Type} {store : Audit.LocalStore DB}
        {tiles : Audit.RemoteTiles SumDB}.

Let Service := @Audit.Service DB SumDB.

(** The loop over the slots of a tile returns [nil] exactly when the
    slots agree. *)
Lemma compareTile_ok (level offset : Z) (localHashes sumDBHashes : list bytes)
      (n i : nat) :
  Audit.compareTile level offset localHashes sumDBHashes n i = Ok tt
  <-> forall j, (i <= j < i + n)%nat ->
        exists l, nth_error localHashes j = Some l
                  /\ nth_error sumDBHashes j = Some (toHash l).
Proof.
  revert i. induction n as [|n IH]; intros i.
  - split; [intros _ j Hj; lia|reflexivity].
  - cbn [Audit.compareTile]. unfold index.
    destruct (nth_error localHashes i) as [l|] eqn:El.
    + cbn [bind]. destruct (nth_error sumDBHashes i) as [r|] eqn:Er.
      * cbn [bind]. destruct (bytes_eqb r (toHash l)) eqn:Eb.
        -- apply bytes_eqb_eq in Eb. subst r. rewrite IH. split.
           ++ intros H j Hj. destruct (Nat.eq_dec j i) as [->|Hne].
              ** exists l. split; assumption.
              ** apply H. lia.
           ++ intros H j Hj. apply H. lia.
        -- split; [discriminate|]. intros H.
           destruct (H i ltac:(lia)) as [l' [Hl' Hr']].
           rewrite El in Hl'. injection Hl' as <-. rewrite Er in Hr'.
           injection Hr' as ->.
           assert (bytes_eqb (toHash l) (toHash l) = true)
             by (apply bytes_eqb_eq; reflexivity).
           congruence.
      * cbn [bind]. split; [discriminate|]. intros H.
        destruct (H i ltac:(lia)) as [l' [_ Hr']]. rewrite Er in Hr'. discriminate.
    + cbn [bind]. split; [discriminate|]. intros H.
      destruct (H i ltac:(lia)) as [l' [Hl' _]]. rewrite El in Hl'. discriminate.
Qed.

(** The loop reports the first slot that differs. *)
Lemma compareTile_mismatch (level offset : Z) (localHashes sumDBHashes : list bytes)
      (j : nat) (l r : bytes) :
  forall (n i : nat),
    (i <= j < i + n)%nat ->
    (forall k, (i <= k < j)%nat ->
       exists l', nth_error localHashes k = Some l'
                  /\ nth_error sumDBHashes k = Some (toHash l')) ->
    nth_error localHashes j = Some l ->
    nth_error sumDBHashes j = Some r ->
    r <> toHash l ->
    Audit.compareTile level offset localHashes sumDBHashes n i
    = Err (Audit.ErrFoundMismatch level offset (Z.of_nat j) r l).
Proof.
  induction n as [|n IH]; intros i Hj Hbefore Hl Hr Hne; [lia|].
  cbn [Audit.compareTile]. unfold index.
  destruct (Nat.eq_dec i j) as [->|Hij].
  - rewrite Hl, Hr. cbn [bind].
    destruct (bytes_eqb r (toHash l)) eqn:Eb; [|reflexivity].
    apply bytes_eqb_eq in Eb. contradiction.
  - destruct (Hbefore i ltac:(lia)) as [l' [Hl' Hr']].
    rewrite Hl', Hr'. cbn [bind].
    assert (Eb : bytes_eqb (toHash l') (toHash l') = true)
      by (apply bytes_eqb_eq; reflexivity).
    rewrite Eb. apply IH; try assumption; [lia|].
    intros k Hk. apply Hbefore. lia.
Qed.

Lemma slotsAgree_compare (h : Z) (level offset : Z)
      (localHashes sumDBHashes : list bytes) :
  0 <= h ->
  Audit.compareTile level offset localHashes sumDBHashes (Z.to_nat (2 ^ h)) 0 = Ok tt
  <-> Audit.slotsAgree localHashes sumDBHashes (2 ^ h).
Proof.
  intros Hh. rewrite compareTile_ok. unfold Audit.slotsAgree.
  assert (Hp : 0 < 2 ^ h) by (apply Z.pow_pos_nonneg; lia).
  split; intros H j Hj; apply H; lia.
Qed.

(** The loop over the tiles of a stratum returns [nil] exactly when the
    tiles from [offset] on agree up to the first one that is missing. *)
Lemma verifyLevel_ok (s : Service) (level : Z) (fuel : nat) :
  0 <= Audit.height s < 63 ->
  forall offset,
    0 <= offset -> offset + Z.of_nat fuel < 2 ^ 63 ->
    (Audit.verifyLevel s level fuel offset = Ok tt
     <-> exists m, offset <= m < offset + Z.of_nat fuel
           /\ Audit.Tile (Audit.localDB s) (Audit.height s) level m
              = Err Audit.ErrNoRows
           /\ forall o, offset <= o < m ->
                exists localHashes sumDBHashes,
                  Audit.Tile (Audit.localDB s) (Audit.height s) level o
                  = Ok localHashes
                  /\ Audit.TileHashes (Audit.sumDB s) level o = Ok sumDBHashes
                  /\ Audit.slotsAgree localHashes sumDBHashes (2 ^ Audit.height s)).
Proof.
  intros Hh. induction fuel as [|fuel IH]; intros offset Ho Hb.
  - cbn [Audit.verifyLevel]. split; [discriminate|]. intros [m [Hm _]]. lia.
  - cbn [Audit.verifyLevel].
    destruct (Audit.Tile (Audit.localDB s) (Audit.height s) level offset)
      as [localHashes|e|p|] eqn:Et.
    + destruct (Audit.TileHashes (Audit.sumDB s) level offset)
        as [sumDBHashes|e|p|] eqn:Er.
      * unfold shl.
        replace (Audit.height s <? 0) with false by (symmetry; apply Z.ltb_ge; lia).
        rewrite shiftl_1 by lia.
        rewrite (i64_small (2 ^ Audit.height s))
          by (split; [apply Z.pow_nonneg; lia|apply Z.pow_lt_mono_r; lia]).
        cbn [bind].
        rewrite (i64_small (offset + 1)) by lia.
        destruct (Audit.compareTile level offset localHashes sumDBHashes
                    (Z.to_nat (2 ^ Audit.height s)) 0) as [[]|e|p|] eqn:Ec.
        -- cbn [bind]. apply slotsAgree_compare in Ec; [|lia].
           rewrite IH by lia. split.
           ++ intros [m [Hm [Hnone Hall]]]. exists m. split; [lia|].
              split; [exact Hnone|]. intros o Hor.
              destruct (Z.eq_dec o offset) as [->|Hne].
              ** exists localHashes, sumDBHashes. repeat split; assumption.
              ** apply Hall. lia.
           ++ intros [m [Hm [Hnone Hall]]].
              assert (m <> offset) by (intros ->; rewrite Et in Hnone; discriminate).
              exists m. split; [lia|]. split; [exact Hnone|].
              intros o Hor. apply Hall. lia.
        -- cbn [bind]. split; [discriminate|]. intros [m [Hm [Hnone Hall]]].
           assert (m <> offset) by (intros ->; rewrite Et in Hnone; discriminate).
           destruct (Hall offset ltac:(lia)) as [lh [rh [Hl [Hr Hag]]]].
           rewrite Et in Hl. injection Hl as <-. rewrite Er in Hr. injection Hr as <-.
           apply (proj2 (slotsAgree_compare (Audit.height s) level offset _ _
                           ltac:(lia))) in Hag.
           congruence.
        -- cbn [bind]. split; [discriminate|]. intros [m [Hm [Hnone Hall]]].
           assert (m <> offset) by (intros ->; rewrite Et in Hnone; discriminate).
           destruct (Hall offset ltac:(lia)) as [lh [rh [Hl [Hr Hag]]]].
           rewrite Et in Hl. injection Hl as <-. rewrite Er in Hr. injection Hr as <-.
           apply (proj2 (slotsAgree_compare (Audit.height s) level offset _ _
                           ltac:(lia))) in Hag.
           congruence.
        -- cbn [bind]. split; [discriminate|]. intros [m [Hm [Hnone Hall]]].
           assert (m <> offset) by (intros ->; rewrite Et in Hnone; discriminate).
           destruct (Hall offset ltac:(lia)) as [lh [rh [Hl [Hr Hag]]]].
           rewrite Et in Hl. injection Hl as <-. rewrite Er in Hr. injection Hr as <-.
           apply (proj2 (slotsAgree_compare (Audit.height s) level offset _ _
                           ltac:(lia))) in Hag.
           congruence.
      * split; [discriminate|]. intros [m [Hm [Hnone Hall]]].
        assert (m <> offset) by (intros ->; rewrite Et in Hnone; discriminate).
        destruct (Hall offset ltac:(lia)) as [lh [rh [_ [Hr _]]]].
        rewrite Er in Hr. discriminate.
      * split; [discriminate|]. intros [m [Hm [Hnone Hall]]].
        assert (m <> offset) by (intros ->; rewrite Et in Hnone; discriminate).
        destruct (Hall offset ltac:(lia)) as [lh [rh [_ [Hr _]]]].
        rewrite Er in Hr. discriminate.
      * split; [discriminate|]. intros [m [Hm [Hnone Hall]]].
        assert (m <> offset) by (intros ->; rewrite Et in Hnone; discriminate).
        destruct (Hall offset ltac:(lia)) as [lh [rh [_ [Hr _]]]].
        rewrite Er in Hr. discriminate.
    + destruct (Audit.isNoRows e) eqn:En.
      * apply isNoRows_eq in En. subst e. split; [|reflexivity].
        intros _. exists offset. split; [lia|]. split; [exact Et|].
        intros o Hor. lia.
      * split; [discriminate|]. intros [m [Hm [Hnone Hall]]].
        destruct (Z.eq_dec m offset) as [->|Hne].
        -- rewrite Et in Hnone. injection Hnone as ->. discriminate En.
        -- destruct (Hall offset ltac:(lia)) as [lh [rh [Hl _]]].
           rewrite Et in Hl. discriminate.
    + split; [discriminate|]. intros [m [Hm [Hnone Hall]]].
      destruct (Z.eq_dec m offset) as [->|Hne].
      * rewrite Et in Hnone. discriminate.
      * destruct (Hall offset ltac:(lia)) as [lh [rh [Hl _]]].
        rewrite Et in Hl. discriminate.
    + split; [discriminate|]. intros [m [Hm [Hnone Hall]]].
      destruct (Z.eq_dec m offset) as [->|Hne].
      * rewrite Et in Hnone. discriminate.
      * destruct (Hall offset ltac:(lia)) as [lh [rh [Hl _]]].
        rewrite Et in Hl. discriminate.
Qed.

Lemma verifyLevel_agreesUpTo (s : Service) (level : Z) (fuel : nat) :
  0 <= Audit.height s < 63 ->
  Z.of_nat fuel < 2 ^ 63 ->
  (Audit.verifyLevel s level fuel 0 = Ok tt
   <-> exists m, 0 <= m < Z.of_nat fuel /\ Audit.agreesUpTo s level m).
Proof.
  intros Hh Hf. rewrite (verifyLevel_ok s level fuel Hh 0) by lia.
  unfold Audit.agreesUpTo, Audit.tilesAgree.
  split; intros [m [Hm [Hnone Hall]]]; exists m; (split; [lia|]);
    (split; [exact Hnone|exact Hall]).
Qed.

(** The loop over the strata returns [nil] exactly when every stratum
    does. *)
Lemma verifyLevels_ok (s : Service) (fuel : nat) :
  0 <= Audit.height s < 63 ->
  Z.of_nat fuel < 2 ^ 63 ->
  forall (n : nat) (level : Z),
    Audit.verifyLevels s fuel n level = Ok tt
    <-> forall l, level <= l < level + Z.of_nat n ->
          exists m, 0 <= m < Z.of_nat fuel /\ Audit.agreesUpTo s l m.
Proof.
  intros Hh Hf. induction n as [|n IH]; intros level.
  - split; [intros _ l Hl; lia|reflexivity].
  - cbn [Audit.verifyLevels].
    destruct (Audit.verifyLevel s level fuel 0) as [[]|e|p|] eqn:Ev.
    + cbn [bind]. rewrite IH.
      apply (verifyLevel_agreesUpTo s level fuel Hh Hf) in Ev.
      split.
      * intros H l Hl. destruct (Z.eq_dec l level) as [->|Hne]; [exact Ev|].
        apply H. lia.
      * intros H l Hl. apply H. lia.
    + cbn [bind]. split; [discriminate|]. intros H.
      apply (verifyLevel_agreesUpTo s level fuel Hh Hf) in H; [congruence|lia].
    + cbn [bind]. split; [discriminate|]. intros H.
      apply (verifyLevel_agreesUpTo s level fuel Hh Hf) in H; [congruence|lia].
    + cbn [bind]. split; [discriminate|]. intros H.
      apply (verifyLevel_agreesUpTo s level fuel Hh Hf) in H; [congruence|lia].
Qed.

(** X15.  What a successful [VerifyTiles] has checked.  Let [K] be the
    top stratum of the checkpoint.  [VerifyTiles] returns [nil] if and
    only if in every stratum from 0 to [K] the store holds tiles at the
    offsets 0, 1, ... up to a first offset [m] at which it has none, and
    every slot of each of these tiles, copied into a [tlog.Hash], equals
    the hash the SumDB gives for it.  The tiles looked at are those the
    store holds, not those the checkpoint needs: a tile that follows a
    missing one is not looked at, and a stratum without its first tile
    passes.  ([fuel] bounds the number of tiles looked at in a stratum;
    the run needs more than [m] of it.) *)
Theorem VerifyTiles_checks (fuel : nat) (s : Service) (checkpoint : tlog.Tree)
        (K : Z) :
  0 <= Audit.height s < 63 ->
  Z.of_nat fuel < 2 ^ 63 ->
  Audit.getLevelsForLeafCount (Audit.height s) (tlog.N checkpoint) = Ok K ->
  -1 <= K ->
  (Audit.VerifyTiles fuel s checkpoint = Ok tt
   <-> forall level, 0 <= level <= K ->
         exists m, 0 <= m < Z.of_nat fuel /\ Audit.agreesUpTo s level m).
Proof.
  intros Hh Hf HK HK1. unfold Audit.VerifyTiles. rewrite HK.
  rewrite (verifyLevels_ok s fuel Hh Hf).
  rewrite Z2Nat.id by lia.
  split; intros H level Hl; apply H; lia.
Qed.

(** X16.  What a failed comparison reports.  When the strata below
    [level] pass, the tiles of [level] before [offset] agree with the
    SumDB and slot [j] is the first slot of tile [(level, offset)] whose
    stored hash differs from the hash of the SumDB, [VerifyTiles] fails
    with the mismatch at [(level, offset, j)].  The error carries the hash
    of the SumDB where its text says "local" and the stored hash where it
    says "remote". *)
Theorem VerifyTiles_reports_first_mismatch (fuel : nat) (s : Service)
        (checkpoint : tlog.Tree) (K level offset : Z) (j : nat)
        (localHashes sumDBHashes : list bytes) (l r : bytes) :
  0 <= Audit.height s < 63 ->
  Z.of_nat fuel < 2 ^ 63 ->
  Audit.getLevelsForLeafCount (Audit.height s) (tlog.N checkpoint) = Ok K ->
  0 <= level <= K ->
  (forall below, 0 <= below < level ->
     exists m, 0 <= m < Z.of_nat fuel /\ Audit.agreesUpTo s below m) ->
  0 <= offset < Z.of_nat fuel ->
  Audit.tilesAgree s level offset ->
  Audit.Tile (Audit.localDB s) (Audit.height s) level offset = Ok localHashes ->
  Audit.TileHashes (Audit.sumDB s) level offset = Ok sumDBHashes ->
  Z.of_nat j < 2 ^ Audit.height s ->
  Audit.slotsAgree localHashes sumDBHashes (Z.of_nat j) ->
  nth_error localHashes j = Some l ->
  nth_error sumDBHashes j = Some r ->
  r <> toHash l ->
  Audit.VerifyTiles fuel s checkpoint
  = Err (Audit.ErrFoundMismatch level offset (Z.of_nat j) r l).
Proof.
  intros Hh Hf HK HL Hbelow Ho Hbefore Ht Hr Hj Hslots Hl Hrj Hne.
  assert (Hw : 0 < 2 ^ Audit.height s) by (apply Z.pow_pos_nonneg; lia).
  (* the stratum of the mismatch *)
  assert (Hlevel : forall (f : nat) (o : Z),
             0 <= o <= offset -> offset < o + Z.of_nat f -> o + Z.of_nat f < 2 ^ 63 ->
             Audit.verifyLevel s level f o
             = Err (Audit.ErrFoundMismatch level offset (Z.of_nat j) r l)).
  { induction f as [|f IH]; intros o Hor Hlt Hb; [lia|].
    cbn [Audit.verifyLevel].
    unfold shl.
    replace (Audit.height s <? 0) with false by (symmetry; apply Z.ltb_ge; lia).
    rewrite shiftl_1 by lia.
    rewrite (i64_small (2 ^ Audit.height s))
      by (split; [lia|apply Z.pow_lt_mono_r; lia]).
    destruct (Z.eq_dec o offset) as [->|Hneo].
    - rewrite Ht, Hr. cbn [bind].
      rewrite (compareTile_mismatch level offset localHashes sumDBHashes j l r);
        try assumption; [reflexivity|lia|].
      intros k Hk. apply Hslots. lia.
    - destruct (Hbefore o ltac:(lia)) as [lh [rh [Hlh [Hrh Hag]]]].
      rewrite Hlh, Hrh. cbn [bind].
      apply (proj2 (slotsAgree_compare (Audit.height s) level o _ _
                      ltac:(lia))) in Hag.
      rewrite Hag. cbn [bind].
      rewrite (i64_small (o + 1)) by lia.
      apply IH; lia. }
  unfold Audit.VerifyTiles. rewrite HK.
  assert (Hlevels : forall (n : nat) (lv : Z),
             0 <= lv <= level -> level < lv + Z.of_nat n ->
             Audit.verifyLevels s fuel n lv
             = Err (Audit.ErrFoundMismatch level offset (Z.of_nat j) r l)).
  { induction n as [|n IH]; intros lv Hlv Hlt; [lia|].
    cbn [Audit.verifyLevels].
    destruct (Z.eq_dec lv level) as [->|Hnel].
    - rewrite Hlevel by lia. reflexivity.
    - destruct (Hbelow lv ltac:(lia)) as [m Hm].
      assert (Hv : Audit.verifyLevel s lv fuel 0 = Ok tt).
      { apply (verifyLevel_agreesUpTo s lv fuel Hh Hf). exists m. exact Hm. }
      rewrite Hv. cbn [bind]. apply IH; lia. }
  apply Hlevels; [lia|]. rewrite Z2Nat.id by lia. lia.
Qed.

End VerifierFacts.
(** X15 on the hashed store of the log of 18 leaves: four leaf tiles and
    one tile above them. *)
Lemma VerifyTiles_checks_witness :
  Audit.VerifyTiles 5 (Audit.demoService Audit.demoHashed) Audit.demoCheckpoint
  = Ok tt
  /\ (forall level, 0 <= level <= 1 ->
        exists m, 0 <= m < Z.of_nat 5
                  /\ Audit.agreesUpTo (Audit.demoService Audit.demoHashed) level m).
Proof.
  assert (H : Audit.VerifyTiles 5 (Audit.demoService Audit.demoHashed)
                Audit.demoCheckpoint = Ok tt) by (vm_compute; reflexivity).
  split; [exact H|].
  apply (proj1 (VerifyTiles_checks 5 (Audit.demoService Audit.demoHashed)
                  Audit.demoCheckpoint 1 ltac:(simpl; lia) ltac:(simpl; lia)
                  eq_refl ltac:(lia))).
  exact H.
Defined.

(** X16 on the same store with the stored tile of level 1 changed in
    slot 2. *)
Lemma VerifyTiles_reports_first_mismatch_witness :
  exists r l,
    nth_error (match Audit.Tile Audit.demoTampered 2 1 0 with
               | Ok hs => hs | _ => [] end) 2 = Some l
    /\ nth_error (match Audit.TileHashes Audit.demoLog 1 0 with
                  | Ok hs => hs | _ => [] end) 2 = Some r
    /\ Audit.VerifyTiles 5 (Audit.demoService Audit.demoTampered)
         Audit.demoCheckpoint
       = Err (Audit.ErrFoundMismatch 1 0 2 r l).
Proof.
  destruct (Audit.Tile Audit.demoTampered 2 1 0) as [localHashes| | |] eqn:Et;
    try (vm_compute in Et; discriminate Et).
  destruct (Audit.TileHashes Audit.demoLog 1 0) as [sumDBHashes| | |] eqn:Er;
    try (vm_compute in Er; discriminate Er).
  vm_compute in Et. injection Et as <-.
  vm_compute in Er. injection Er as <-.
  eexists. eexists. split; [reflexivity|]. split; [reflexivity|].
  eapply (VerifyTiles_reports_first_mismatch 5 (Audit.demoService Audit.demoTampered)
            Audit.demoCheckpoint 1 1 0 2).
  - simpl. lia.
  - simpl. lia.
  - reflexivity.
  - lia.
  - intros below Hb. assert (below = 0) by lia. subst below.
    apply (verifyLevel_agreesUpTo (Audit.demoService Audit.demoTampered) 0 5);
      [simpl; lia|simpl; lia|vm_compute; reflexivity].
  - simpl. lia.
  - intros offset Ho. lia.
  - vm_compute. reflexivity.
  - vm_compute. reflexivity.
  - simpl. lia.
  - intros i Hi. destruct i as [|[|i]]; [| |lia];
      eexists; split; vm_compute; reflexivity.
  - reflexivity.
  - reflexivity.
  - vm_compute. discriminate.
Defined.

(** ** More on the clone *)

Lemma schedule_S (startOffset tileWidth : Z) (k : nat) :
  Audit.schedule startOffset tileWidth (S k)
  = Audit.Fetched startOffset :: Audit.Wrote (startOffset * tileWidth)
      :: Audit.schedule (startOffset + 1) tileWidth k.
Proof.
  unfold Audit.schedule. cbn [seq flat_map app]. rewrite Z.add_0_r.
  f_equal. f_equal. rewrite <- seq_shift.
  generalize (seq 0 k) as l. induction l as [|x l IH]; [reflexivity|].
  cbn [map flat_map app]. rewrite IH.
  replace (startOffset + Z.of_nat (S x)) with (startOffset + 1 + Z.of_nat x) by lia.
  reflexivity.
Qed.

Lemma schedule_Fetched (startOffset tileWidth : Z) (k : nat) (o : Z) :
  In (Audit.Fetched o) (Audit.schedule startOffset tileWidth k) ->
  startOffset <= o < startOffset + Z.of_nat k.
Proof.
  unfold Audit.schedule. intros Hin. apply in_flat_map in Hin.
  destruct Hin as [j [Hj Hin]]. apply in_seq in Hj.
  destruct Hin as [Hin|[Hin|[]]]; [|discriminate Hin].
  injection Hin as <-. lia.
Qed.

Section CloneSchedule.

Context {DB SumDB : Type} {store : Audit.LocalStore DB}
        {remote : Audit.RemoteLog SumDB}.

Let Service := @Audit.Service DB SumDB.

(** The loop of the clone goes through the schedule and stops at the
    first fetch or write that fails. *)
Lemma cloneLoop_schedule (s : Service) (tileWidth startOffset : Z) (n : nat) :
  1 <= tileWidth -> 0 <= startOffset ->
  forall (i : Z) (db : DB) (trace : list Audit.event),
    0 <= i ->
    (startOffset + i + Z.of_nat n) * tileWidth < 2 ^ 63 ->
    exists (k : nat) (tail : list Audit.event) (db' : DB)
           (res : outcome Audit.error unit),
      Audit.cloneLoop s tileWidth startOffset n i db trace
      = (db', trace ++ Audit.schedule (startOffset + i) tileWidth k ++ tail, res)
      /\ (k <= n)%nat
      /\ (tail = []
          \/ (tail = [Audit.Fetched (startOffset + i + Z.of_nat k)] /\ (k < n)%nat))
      /\ (res = Ok tt -> k = n /\ tail = []).
Proof.
  intros Hw Hso. induction n as [|n IH]; intros i db trace Hi Hb.
  - exists 0%nat, [], db, (Ok tt). cbn [Audit.cloneLoop Audit.schedule seq flat_map app].
    rewrite app_nil_r. repeat split; try lia. left. reflexivity.
  - cbn [Audit.cloneLoop].
    assert (Ho : 0 <= startOffset + i < 2 ^ 63) by nia.
    assert (Hs : 0 <= (startOffset + i) * tileWidth < 2 ^ 63) by nia.
    rewrite (i64_small (startOffset + i)) by exact Ho.
    rewrite (i64_small ((startOffset + i) * tileWidth)) by exact Hs.
    destruct (Audit.FullLeavesAtOffset (Audit.sumDB s) (startOffset + i))
      as [leaves|e|p|].
    + destruct (Audit.WriteLeaves db ((startOffset + i) * tileWidth) leaves)
        as [db'|e|p|].
      * destruct (IH (i + 1) db'
                    (trace ++ [Audit.Fetched (startOffset + i);
                               Audit.Wrote ((startOffset + i) * tileWidth)])
                    ltac:(lia) ltac:(rewrite Nat2Z.inj_succ in Hb; nia))
          as [k [tail [db'' [res [Hrun [Hk [Htail Hres]]]]]]].
        exists (S k), tail, db'', res. split; [|split; [|split]].
        -- rewrite Hrun. rewrite schedule_S, <- app_assoc. cbn [app].
           replace (startOffset + (i + 1)) with (startOffset + i + 1) by lia.
           reflexivity.
        -- lia.
        -- destruct Htail as [->|[-> Hlt]]; [left; reflexivity|right].
           split; [|lia]. do 2 f_equal. lia.
        -- intros Hok. destruct (Hres Hok) as [-> ->]. split; reflexivity.
      * exists 1%nat, [], db, (Err (Audit.ErrWriteLeaves e)).
        rewrite schedule_S. cbn [Audit.schedule seq flat_map app].
        repeat split; try lia; try discriminate. left. reflexivity.
      * exists 1%nat, [], db, (Panic p).
        rewrite schedule_S. cbn [Audit.schedule seq flat_map app].
        repeat split; try lia; try discriminate. left. reflexivity.
      * exists 1%nat, [], db, Hang.
        rewrite schedule_S. cbn [Audit.schedule seq flat_map app].
        repeat split; try lia; try discriminate. left. reflexivity.
    + exists 0%nat, [Audit.Fetched (startOffset + i)], db, (Err e).
      cbn [Audit.schedule seq flat_map app].
      repeat split; try lia; try discriminate.
      right. split; [do 2 f_equal; lia|lia].
    + exists 0%nat, [Audit.Fetched (startOffset + i)], db, (Panic p).
      cbn [Audit.schedule seq flat_map app].
      repeat split; try lia; try discriminate.
      right. split; [do 2 f_equal; lia|lia].
    + exists 0%nat, [Audit.Fetched (startOffset + i)], db, Hang.
      cbn [Audit.schedule seq flat_map app].
      repeat split; try lia; try discriminate.
      right. split; [do 2 f_equal; lia|lia].
Qed.

(** X17.  What [CloneLeafTiles] takes from the SumDB and gives to the
    store.  With [head] the head of the store (-1 when [Head] fails) and a
    checkpoint that is not below it, let [start = (head + 1) / 2^H] and
    [chunks = (N - (head + 1)) / 2^H].  The run receives the tiles
    [start], [start + 1], ... in this order, and writes each at leaf
    [offset * 2^H] before it receives the next; it stops at the first
    fetch or write that fails, and it returns [nil] only after [chunks]
    tiles.  Every tile it receives lies within the checkpoint.  The first
    write starts at [start * 2^H], which is below [head + 1] when the
    store does not end on a tile boundary. *)
Theorem CloneLeafTiles_schedule (s : Service) (checkpoint : tlog.Tree) (head : Z) :
  Audit.Head (Audit.localDB s) = Ok head
  \/ ((exists e, Audit.Head (Audit.localDB s) = Err e) /\ head = -1) ->
  0 <= Audit.height s < 63 ->
  -1 <= head ->
  head <= tlog.N checkpoint < 2 ^ 63 - 1 ->
  exists (k : nat) (tail : list Audit.event),
    snd (fst (Audit.CloneLeafTiles s checkpoint))
    = Audit.schedule ((head + 1) / 2 ^ Audit.height s) (2 ^ Audit.height s) k
      ++ tail
    /\ Z.of_nat k
       <= Z.max 0 (Z.quot (tlog.N checkpoint - (head + 1)) (2 ^ Audit.height s))
    /\ (tail = []
        \/ tail = [Audit.Fetched ((head + 1) / 2 ^ Audit.height s + Z.of_nat k)])
    /\ (snd (Audit.CloneLeafTiles s checkpoint) = Ok tt ->
        Z.of_nat k
        = Z.max 0 (Z.quot (tlog.N checkpoint - (head + 1)) (2 ^ Audit.height s))
        /\ tail = [])
    /\ (forall o, In (Audit.Fetched o) (snd (fst (Audit.CloneLeafTiles s checkpoint))) ->
          (head + 1) / 2 ^ Audit.height s <= o
          /\ (o + 1) * 2 ^ Audit.height s <= tlog.N checkpoint)
    /\ (head + 1) / 2 ^ Audit.height s * 2 ^ Audit.height s <= head + 1
    /\ ((head + 1) / 2 ^ Audit.height s * 2 ^ Audit.height s = head + 1
        <-> (head + 1) mod 2 ^ Audit.height s = 0).
Proof.
  intros Hhead Hh Hm HN.
  set (h := Audit.height s) in *. set (N := tlog.N checkpoint) in *.
  assert (Hw : 0 < 2 ^ h) by (apply Z.pow_pos_nonneg; lia).
  assert (Hw63 : 2 ^ h < 2 ^ 63) by (apply Z.pow_lt_mono_r; lia).
  set (w := 2 ^ h) in *.
  set (so := (head + 1) / w).
  pose proof (Z.div_mod (head + 1) w ltac:(lia)) as Hdm.
  pose proof (Z.mod_pos_bound (head + 1) w Hw) as Hmb. fold so in Hdm.
  assert (Hso : 0 <= so) by (apply Z.div_pos; lia).
  assert (Hrun : Audit.CloneLeafTiles s checkpoint = Audit.cloneFrom s checkpoint head).
  { unfold Audit.CloneLeafTiles.
    destruct Hhead as [-> | [[e ->] ->]]; reflexivity. }
  rewrite Hrun. unfold Audit.cloneFrom. fold h. fold N.
  replace (N <? head) with false by (symmetry; apply Z.ltb_ge; lia).
  rewrite tileWidth_ok by lia. fold w.
  rewrite (i64_small (head + 1)) by lia.
  assert (Hrem : i64 (N - (head + 1)) = N - (head + 1)).
  { unfold i64. rewrite Z.mod_small; [lia|].
    change (2 ^ 64) with (2 * 2 ^ 63). lia. }
  rewrite Hrem. unfold quo.
  replace (w =? 0) with false by (symmetry; apply Z.eqb_neq; lia).
  rewrite (Z.quot_div_nonneg (head + 1) w) by lia. fold so.
  rewrite (i64_small so) by nia.
  set (q := Z.quot (N - (head + 1)) w).
  assert (Hq : -1 <= q < 2 ^ 63 /\ (0 < q -> q * w <= N - (head + 1))).
  { unfold q. destruct (Z_le_gt_dec (head + 1) N) as [Hle|Hgt].
    - rewrite Z.quot_div_nonneg by lia.
      assert (0 <= (N - (head + 1)) / w) by (apply Z.div_pos; lia).
      pose proof (Z.mul_div_le (N - (head + 1)) w Hw).
      split; [nia|]. intros _. lia.
    - replace (N - (head + 1)) with (- (1)) by lia.
      rewrite Z.quot_opp_l by lia.
      assert (0 <= Z.quot 1 w <= 1).
      { split; [apply Z.quot_pos; lia|apply Z.quot_le_upper_bound; lia]. }
      split; [lia|]. intros Hpos. lia. }
  assert (Hq64 : i64 q = q).
  { unfold i64. rewrite Z.mod_small; [lia|].
    change (2 ^ 64) with (2 * 2 ^ 63). lia. }
  rewrite Hq64.
  destruct (0 <? q) eqn:Eq.
  - apply Z.ltb_lt in Eq. destruct Hq as [Hq1 Hq2]. specialize (Hq2 Eq).
    fold q.
    destruct (cloneLoop_schedule s w so (Z.to_nat q) ltac:(lia) Hso 0
                (Audit.localDB s) [] ltac:(lia))
      as [k [tail [db' [res [Hloop [Hk [Htail Hres]]]]]]].
    { rewrite Z2Nat.id by lia. nia. }
    rewrite Hloop. cbn [fst snd app]. rewrite Z.add_0_r in *.
    exists k, tail. split; [reflexivity|].
    split; [lia|]. split; [destruct Htail as [->|[-> _]]; [left|right]; reflexivity|].
    split; [intros Hok; destruct (Hres Hok) as [-> ->]; split; [lia|reflexivity]|].
    split; [|split; [lia|lia]].
    intros o Hin. apply in_app_or in Hin.
    assert (Hrange : so <= o < so + q).
    { destruct Hin as [Hin|Hin].
      - apply schedule_Fetched in Hin. lia.
      - destruct Htail as [->|[-> Hlt]]; [destruct Hin|].
        destruct Hin as [Hin|[]]. injection Hin as <-. lia. }
    split; [lia|]. nia.
  - apply Z.ltb_ge in Eq. cbn [fst snd].
    exists 0%nat, []. cbn [Audit.schedule seq flat_map app].
    split; [reflexivity|]. split; [lia|]. split; [left; reflexivity|].
    split; [intros _; split; [lia|reflexivity]|].
    split; [intros o []|]. split; lia.
Qed.

End CloneSchedule.
(** X17 on a store of three leaves, which does not end on a tile
    boundary, and the log of 18 leaves with tiles of height 2. *)
Lemma CloneLeafTiles_schedule_witness :
  exists (k : nat) (tail : list Audit.event),
    snd (fst (Audit.CloneLeafTiles
                (Audit.demoService (Audit.mkMem (repeat [x00] 3) [] [] false))
                Audit.demoCheckpoint))
    = Audit.schedule 0 4 k ++ tail
    /\ Z.of_nat k <= 3
    /\ (tail = [] \/ tail = [Audit.Fetched (0 + Z.of_nat k)])
    /\ (forall o,
          In (Audit.Fetched o)
             (snd (fst (Audit.CloneLeafTiles
                          (Audit.demoService (Audit.mkMem (repeat [x00] 3) [] [] false))
                          Audit.demoCheckpoint))) ->
          0 <= o /\ (o + 1) * 4 <= 18)
    /\ 0 * 4 <= 2 + 1.
Proof.
  destruct (CloneLeafTiles_schedule
              (Audit.demoService (Audit.mkMem (repeat [x00] 3) [] [] false))
              Audit.demoCheckpoint 2)
    as [k [tail [Htrace [Hk [Htail [_ [Hin [Hstart _]]]]]]]].
  - left. reflexivity.
  - simpl. lia.
  - lia.
  - simpl. lia.
  - exists k, tail.
    split; [exact Htrace|]. split; [exact Hk|]. split; [exact Htail|].
    split; [exact Hin|exact Hstart].
Defined.

(** ** More on the tile hasher *)

(** Copying a hash over the bytes that follow [pre]. *)
Lemma copyAt_middle (pre old rest src : bytes) :
  length src = length old ->
  copyAt (pre ++ old ++ rest) (length pre) src = pre ++ src ++ rest.
Proof.
  intros Hlen. unfold copyAt.
  rewrite firstn_app, firstn_all, Nat.sub_diag. cbn [firstn]. rewrite app_nil_r.
  f_equal.
  rewrite (firstn_all2 (n := length (pre ++ old ++ rest) - length pre))
    by (rewrite !length_app; lia).
  f_equal.
  rewrite skipn_app, (skipn_all2 (n := length pre + length src)) by lia.
  cbn [app].
  replace (length pre + length src - length pre)%nat with (length old) by lia.
  rewrite skipn_app, skipn_all, Nat.sub_diag. reflexivity.
Qed.

Section LeafTile.

Context {DB SumDB : Type} {store : Audit.LocalStore DB}.
Variable RecordHash : bytes -> bytes.
Hypothesis RecordHash_length : forall l, length (RecordHash l) = 32%nat.

Let Service := @Audit.Service DB SumDB.

Lemma length_concat_RecordHash (leaves : list bytes) :
  length (concat (map RecordHash leaves)) = (32 * length leaves)%nat.
Proof.
  induction leaves as [|l leaves IH]; [reflexivity|].
  cbn [map concat length]. rewrite length_app, RecordHash_length, IH. lia.
Qed.

(** The loop of [hashLeafTile] writes the record hashes of the leaves
    into the slots that follow [pre], and packs them into the blob. *)
Lemma hashLeaves_fill (leaves : list bytes) :
  forall (pre mid post : list bytes) (bpre bmid bpost : bytes),
    length mid = length leaves ->
    length bpre = (32 * length pre)%nat ->
    length bmid = (32 * length leaves)%nat ->
    Audit.hashLeaves RecordHash leaves (length pre) (pre ++ mid ++ post)
                     (bpre ++ bmid ++ bpost)
    = Ok (pre ++ map RecordHash leaves ++ post,
          bpre ++ concat (map RecordHash leaves) ++ bpost).
Proof.
  induction leaves as [|l leaves IH]; intros pre mid post bpre bmid bpost Hm Hb Hbm.
  - destruct mid; [|discriminate]. destruct bmid; [|discriminate]. reflexivity.
  - destruct mid as [|x mid]; [discriminate|].
    cbn [Audit.hashLeaves app]. rewrite setAt_middle. cbn [bind].
    change (Z.to_nat Audit.HashLenBytes) with 32%nat.
    replace (length pre * 32)%nat with (length bpre) by lia.
    rewrite <- (firstn_skipn 32 bmid), <- app_assoc.
    cbn [length] in Hbm.
    rewrite (copyAt_middle bpre (firstn 32 bmid) _ (RecordHash l))
      by (rewrite RecordHash_length, length_firstn; lia).
    replace (S (length pre)) with (length (pre ++ [RecordHash l]))
      by (rewrite length_app; simpl; lia).
    replace (pre ++ RecordHash l :: mid ++ post)
      with ((pre ++ [RecordHash l]) ++ mid ++ post)
      by (rewrite <- app_assoc; reflexivity).
    replace (bpre ++ RecordHash l ++ skipn 32 bmid ++ bpost)
      with ((bpre ++ RecordHash l) ++ skipn 32 bmid ++ bpost)
      by (rewrite <- app_assoc; reflexivity).
    rewrite IH.
    + cbn [map concat]. rewrite <- !app_assoc. reflexivity.
    + cbn [length] in Hm. lia.
    + rewrite !length_app, RecordHash_length. cbn [length]. lia.
    + rewrite length_skipn. lia.
Qed.

(** The loop indexes past the end of the slice when there are more
    leaves than slots. *)
Lemma hashLeaves_overflow (leaves : list bytes) :
  forall (i : nat) (res : list bytes) (blob : bytes),
    (i <= length res)%nat -> (length res < i + length leaves)%nat ->
    Audit.hashLeaves RecordHash leaves i res blob
    = Panic (IndexOutOfRange (Z.of_nat (length res)) (Z.of_nat (length res))).
Proof.
  induction leaves as [|l leaves IH]; intros i res blob Hi Hlt.
  - cbn [length] in Hlt. lia.
  - cbn [Audit.hashLeaves]. unfold setAt.
    destruct (i <? length res)%nat eqn:E.
    + apply Nat.ltb_lt in E. cbn [bind].
      assert (Hl : length (firstn i res ++ RecordHash l :: skipn (S i) res)
                   = length res).
      { rewrite length_app, length_firstn. cbn [length]. rewrite length_skipn. lia. }
      rewrite IH; rewrite ?Hl; [reflexivity|lia|cbn [length] in Hlt; lia].
    + apply Nat.ltb_ge in E. assert (i = length res) by lia. subst i. reflexivity.
Qed.

(** X18.  What [hashLeafTile] stores for a leaf tile, with tiles of
    height at most 16.  When the store gives [k] leaves for the tile, no
    more than the tile width, the blob handed to [SetTile] is the record
    hashes of the leaves in order, 32 bytes each, followed by zeros up to
    [32 * 2^H] bytes, and the hashes returned are the [k] record hashes
    followed by [nil] entries.  A failure of [SetTile] is returned as it
    is.  When the store gives more leaves than the tile width, the loop
    indexes past the end of its slice.  With tiles too wide to allocate
    (heights from 44 on) the call panics when it makes the slice of the
    hashes, after the leaves are read and before anything is stored. *)
Theorem hashLeafTile_stores (s : Service) (db : DB) (offset : Z)
        (leaves : list bytes) :
  0 <= Audit.height s < 63 ->
  Audit.Leaves db (i64 (2 ^ Audit.height s * offset)) (2 ^ Audit.height s)
  = Ok leaves ->
  (Audit.height s <= 16 ->
   Z.of_nat (length leaves) <= 2 ^ Audit.height s ->
   Audit.hashLeafTile RecordHash s db offset
   = match Audit.SetTile db (Audit.height s) 0 offset
             (concat (map RecordHash leaves)
              ++ repeat x00 (32 * (Z.to_nat (2 ^ Audit.height s) - length leaves)))
     with
     | Ok db' =>
         (db', Ok (map RecordHash leaves
                   ++ repeat [] (Z.to_nat (2 ^ Audit.height s) - length leaves)))
     | Err e => (db, Err e)
     | Panic p => (db, Panic p)
     | Hang => (db, Hang)
     end)
  /\ (Audit.height s <= 16 ->
      2 ^ Audit.height s < Z.of_nat (length leaves) ->
      Audit.hashLeafTile RecordHash s db offset
      = (db, Panic (IndexOutOfRange (2 ^ Audit.height s) (2 ^ Audit.height s))))
  /\ (44 <= Audit.height s ->
      Audit.hashLeafTile RecordHash s db offset
      = (db, Panic (MakeSliceLen (2 ^ Audit.height s)))).
Proof.
  intros Hh Hleaves.
  set (h := Audit.height s) in *.
  assert (Hw : 0 < 2 ^ h) by (apply Z.pow_pos_nonneg; lia).
  assert (Hw63 : 2 ^ h < 2 ^ 63) by (apply Z.pow_lt_mono_r; lia).
  set (w := 2 ^ h) in *.
  assert (Hpre :
             h <= 16 ->
             Audit.hashLeafTile RecordHash s db offset
             = Audit.bindS
                 (db, Audit.hashLeaves RecordHash leaves 0
                        (repeat [] (Z.to_nat w)) (repeat x00 (Z.to_nat (w * 32))))
                 (fun db filled =>
                    Audit.bindS
                      (Audit.write db (Audit.SetTile db h 0 offset (snd filled)))
                      (fun db _ => (db, Ok (fst filled))))).
  { intros H16. pose proof (tileWidth_le h 16 ltac:(lia)) as Hw16.
    fold w in Hw16. change (2 ^ 16) with 65536 in Hw16.
    unfold Audit.hashLeafTile. fold h.
    unfold shl. replace (h <? 0) with false by (symmetry; apply Z.ltb_ge; lia).
    rewrite shiftl_1 by lia. fold w.
    rewrite (i64_small w) by lia. cbn [Audit.bindS].
    rewrite Hleaves. cbn [Audit.wrap Audit.bindS].
    rewrite make_ok by sizes.
    cbn [Audit.bindS]. change Audit.HashLenBytes with 32.
    rewrite (i64_small (w * 32)) by lia.
    rewrite make_ok by sizes.
    cbn [Audit.bindS]. reflexivity. }
  split; [|split].
  - intros H16 Hk. rewrite Hpre by exact H16.
    set (k := length leaves) in *. set (n := Z.to_nat w).
    assert (Hkn : (k <= n)%nat) by (unfold n; lia).
    assert (Hres : @repeat (list byte) [] n = repeat [] k ++ repeat [] (n - k)).
    { rewrite <- repeat_app. f_equal. lia. }
    assert (Hblob : repeat x00 (Z.to_nat (w * 32))
                    = repeat x00 (32 * k) ++ repeat x00 (32 * (n - k))).
    { rewrite <- repeat_app. f_equal. unfold n. lia. }
    rewrite Hres, Hblob.
    pose proof (hashLeaves_fill leaves [] (repeat [] k) (repeat [] (n - k)) []
                  (repeat x00 (32 * k)) (repeat x00 (32 * (n - k)))) as Hf.
    cbn [app length] in Hf.
    specialize (Hf ltac:(rewrite repeat_length; reflexivity) eq_refl
                   ltac:(rewrite repeat_length; reflexivity)).
    match goal with
    | |- context [Audit.hashLeaves RecordHash leaves 0 ?r ?b] =>
        replace (Audit.hashLeaves RecordHash leaves 0 r b)
          with (@Ok Audit.error _
                  (map RecordHash leaves ++ repeat [] (n - k),
                   concat (map RecordHash leaves) ++ repeat x00 (32 * (n - k))))
          by (symmetry; exact Hf)
    end.
    cbn [app Audit.bindS fst snd]. unfold Audit.write.
    destruct (Audit.SetTile db h 0 offset
                (concat (map RecordHash leaves) ++ repeat x00 (32 * (n - k))));
      reflexivity.
  - intros H16 Hk. rewrite Hpre by exact H16.
    rewrite (hashLeaves_overflow leaves 0 (repeat [] (Z.to_nat w)))
      by (rewrite ?repeat_length; lia).
    rewrite repeat_length, Z2Nat.id by lia. reflexivity.
  - intros H44.
    assert (Hw44 : 2 ^ 44 <= w) by (apply Z.pow_le_mono_r; lia).
    change (2 ^ 44) with 17592186044416 in Hw44.
    unfold Audit.hashLeafTile. fold h.
    unfold shl. replace (h <? 0) with false by (symmetry; apply Z.ltb_ge; lia).
    rewrite shiftl_1 by lia. fold w.
    rewrite (i64_small w) by lia. cbn [Audit.bindS].
    rewrite Hleaves. cbn [Audit.wrap Audit.bindS].
    rewrite make_too_large by sizes. reflexivity.
Qed.

End LeafTile.
Lemma toHash_length (b : bytes) : length (toHash b) = 32%nat.
Proof.
  unfold toHash. rewrite length_firstn, length_app, repeat_length. lia.
Qed.

(** X18 on the second leaf tile of the log of 18 leaves, on a store
    that ends two leaves into its second tile, and on tiles of height
    44. *)
Lemma hashLeafTile_stores_witness :
  snd (Audit.hashLeafTile Audit.stubRecordHash
         (Audit.demoService Audit.demoCloned) Audit.demoCloned 1)
  = Ok (map Audit.stubRecordHash (map Audit.leafNamed [4; 5; 6; 7]%nat))
  /\ snd (Audit.hashLeafTile Audit.stubRecordHash
            (Audit.demoService Audit.emptyStore)
            (Audit.mkMem (map Audit.leafNamed (seq 0 6)) [] [] false) 1)
     = Ok (map Audit.stubRecordHash (map Audit.leafNamed [4; 5]%nat) ++ [[]; []])
  /\ Audit.hashLeafTile Audit.stubRecordHash
       (Audit.NewService Audit.stubNodeHash Audit.demoCloned Audit.demoLog 44)
       Audit.demoCloned 0
     = (Audit.demoCloned, Panic (MakeSliceLen (2 ^ 44))).
Proof.
  split; [|split].
  - destruct (hashLeafTile_stores Audit.stubRecordHash
                (fun l => toHash_length (x00 :: l))
                (Audit.demoService Audit.demoCloned) Audit.demoCloned 1
                (map Audit.leafNamed [4; 5; 6; 7]%nat)) as [H _].
    + simpl. lia.
    + vm_compute. reflexivity.
    + rewrite H by (simpl; lia). vm_compute. reflexivity.
  - destruct (hashLeafTile_stores Audit.stubRecordHash
                (fun l => toHash_length (x00 :: l))
                (Audit.demoService Audit.emptyStore)
                (Audit.mkMem (map Audit.leafNamed (seq 0 6)) [] [] false) 1
                (map Audit.leafNamed [4; 5]%nat)) as [H _].
    + simpl. lia.
    + vm_compute. reflexivity.
    + rewrite H by (simpl; lia). vm_compute. reflexivity.
  - destruct (hashLeafTile_stores Audit.stubRecordHash
                (fun l => toHash_length (x00 :: l))
                (Audit.NewService Audit.stubNodeHash Audit.demoCloned
                   Audit.demoLog 44)
                Audit.demoCloned 0 (Audit.memLeaves Audit.demoCloned))
      as [_ [_ H]].
    + simpl. lia.
    + cbn [Audit.height Audit.NewService]. change (i64 (2 ^ 44 * 0)) with 0.
      cbn [Audit.Leaves Audit.MemStore_LocalStore Z.to_nat skipn].
      f_equal.
    + apply H. simpl. lia.
Defined.

Section UpperLevel.

Context {DB SumDB : Type} {store : Audit.LocalStore DB}.
Variable RecordHash : bytes -> bytes.

Let Service := @Audit.Service DB SumDB.

(** The loop over the slots of a tile stops at the first root that
    differs from the stored hash of its slot. *)
Lemma gatherTile_detects (level offset : Z) (stored : list bytes)
      (cr : Compact.Range) (after : list Compact.Range) (h d : bytes)
      (t : list bytes) (before : list Compact.Range) :
  forall (n i : nat) (inHashes : list bytes) (tileHashBlob : bytes),
    (length before < n)%nat ->
    (i + length before < length inHashes)%nat ->
    (forall k c, nth_error before k = Some c ->
       exists h' t', Compact.Hashes c = h' :: t'
                     /\ nth_error stored (i + k) = Some h') ->
    Compact.Hashes cr = h :: t ->
    nth_error stored (i + length before) = Some d ->
    d <> h ->
    Audit.gatherTile level offset (Some stored) n i (before ++ cr :: after)
                     inHashes tileHashBlob
    = (after, Err (Audit.ErrHashDifference level offset
                     (Z.of_nat (i + length before)))).
Proof.
  induction before as [|c before IH];
    intros n i inHashes blob Hn Hi Hbefore Hcr Hd Hne.
  - destruct n as [|n]; [cbn [length] in Hn; lia|].
    cbn [app Audit.gatherTile]. rewrite Hcr. cbn [index nth_error bind].
    cbn [length] in *. rewrite Nat.add_0_r in *.
    unfold setAt.
    replace (i <? length inHashes)%nat with true
      by (symmetry; apply Nat.ltb_lt; lia).
    cbn [bind]. unfold index. rewrite Hd. cbn [bind].
    destruct (bytes_eqb d h) eqn:E; [apply bytes_eqb_eq in E; contradiction|].
    reflexivity.
  - destruct n as [|n]; [cbn [length] in Hn; lia|].
    cbn [app Audit.gatherTile].
    destruct (Hbefore 0%nat c eq_refl) as [h' [t' [Hc Hs]]].
    rewrite Nat.add_0_r in Hs.
    rewrite Hc. cbn [index nth_error bind]. cbn [length] in *.
    destruct (setAt (E := Audit.error) inHashes i h') as [inHashes'| | |] eqn:Es;
      try (unfold setAt in Es;
           destruct (i <? length inHashes)%nat eqn:Ei;
           [discriminate Es | apply Nat.ltb_ge in Ei; lia]).
    cbn [bind]. unfold index. rewrite Hs. cbn [bind].
    assert (Eb : bytes_eqb h' h' = true) by (apply bytes_eqb_eq; reflexivity).
    rewrite Eb.
    rewrite (IH n (S i) inHashes').
    + do 3 f_equal. lia.
    + lia.
    + rewrite (setAt_length _ _ _ _ Es). lia.
    + intros k c' Hk. replace (S i + k)%nat with (i + S k)%nat by lia.
      apply Hbefore. exact Hk.
    + exact Hcr.
    + replace (S i + length before)%nat with (i + S (length before))%nat by lia.
      exact Hd.
    + exact Hne.
Qed.

(** X19.  Above the leaves [HashTiles] does compare.  When a tile of an
    upper stratum is stored, [hashUpperLevel] compares each root it
    receives from the stratum below with the stored hash of its slot;
    at the first root that differs it returns the error of a difference
    at that level, offset and slot.  The store is left as it was, no root
    is sent up for the tile, and the roots that follow are not
    received. *)
Theorem hashUpperLevel_detects (s : Service) (level tileWidth : Z) (n : nat)
        (offset : Z) (db : DB) (before : list Compact.Range) (cr : Compact.Range)
        (after : list Compact.Range) (taken : nat) (inHashes : list bytes)
        (tileHashBlob : bytes) (sent : list Compact.Range)
        (stored : list bytes) (h d : bytes) (t : list bytes) :
  Audit.Tile db (Audit.height s) level offset = Ok stored ->
  length inHashes = Z.to_nat tileWidth ->
  (length before < Z.to_nat tileWidth)%nat ->
  (forall k c, nth_error before k = Some c ->
     exists h' t', Compact.Hashes c = h' :: t' /\ nth_error stored k = Some h') ->
  Compact.Hashes cr = h :: t ->
  nth_error stored (length before) = Some d ->
  d <> h ->
  Audit.hashUpperLevel_loop s level tileWidth (S n) offset db
    (before ++ cr :: after) taken inHashes tileHashBlob sent
  = (db, Audit.mkStratum sent (taken + (length before + 1))
           (Err (Audit.ErrHashDifference level offset
                   (Z.of_nat (length before))))).
Proof.
  intros Htile Hlen Hb Hbefore Hcr Hd Hne.
  cbn [Audit.hashUpperLevel_loop]. rewrite Htile.
  rewrite (gatherTile_detects level offset stored cr after h d t before
             (Z.to_nat tileWidth) 0 inHashes tileHashBlob);
    try assumption; [|lia].
  cbn [Nat.add]. rewrite !length_app. cbn [length].
  replace (length before + S (length after) - length after)%nat
    with (length before + 1)%nat by lia.
  reflexivity.
Qed.

(** The upper strata are added to the strata started before them. *)
Lemma upperLevels_strata (s : Service) (tileWidth : Z) (n : nat) :
  tileWidth <> 0 ->
  makechan (E := Audit.error) sizeofPointer tileWidth = Ok tt ->
  forall (level tileCount : Z) (input : list Compact.Range) (db : DB)
         (strata : list Audit.stratum),
    exists db' more,
      Audit.upperLevels s tileWidth n level tileCount input db strata
      = (db', Ok (strata ++ more)).
Proof.
  intros Hw Hchan.
  induction n as [|n IH]; intros level tileCount input db strata.
  - exists db, []. rewrite app_nil_r. reflexivity.
  - cbn [Audit.upperLevels]. unfold quo.
    replace (tileWidth =? 0) with false by (symmetry; apply Z.eqb_neq; exact Hw).
    rewrite Hchan.
    destruct (Audit.hashUpperLevel s level (i64 (Z.quot tileCount tileWidth))
                input db) as [db1 st].
    destruct (IH (level + 1) (i64 (Z.quot tileCount tileWidth)) (Audit.emitted st)
                db1 (strata ++ [st])) as [db' [more Hrun]].
    exists db', (st :: more). rewrite Hrun, <- app_assoc. reflexivity.
Qed.

(** A tree with strata above the leaves has tiles of height 31 at most:
    two strata of tiles lie within its fewer than [2^63] leaves. *)
Lemma strata_height (h N K : Z) :
  0 <= h < 63 ->
  0 <= N < 2 ^ 63 ->
  Audit.getLevelsForLeafCount h N = Ok K ->
  1 <= K ->
  1 <= h <= 31.
Proof.
  intros Hh HN HK HK1.
  destruct (Z.eq_dec h 0) as [->|Hne].
  - exfalso. destruct (Z.eq_dec N 0) as [->|HN0].
    + vm_compute in HK. injection HK as <-. lia.
    + unfold Audit.getLevelsForLeafCount, shr in HK.
      cbn [Z.ltb Z.compare bind] in HK. rewrite Z.shiftr_0_r in HK.
      rewrite getLevels_loop_height0 in HK by lia. discriminate HK.
  - split; [lia|].
    destruct (getLevelsForLeafCount_bounds h N ltac:(lia) HN)
      as [K' [HK' [_ [_ Hlo]]]].
    rewrite HK in HK'. injection HK' as <-.
    specialize (Hlo ltac:(lia)).
    destruct (Z_le_gt_dec h 31) as [Hle|Hgt]; [exact Hle|].
    assert (2 ^ 63 <= 2 ^ ((K + 1) * h)) by (apply Z.pow_le_mono_r; nia).
    lia.
Qed.

(** [HashTiles] on a tree with strata above the leaves: the strata that
    [Wait] waits for are the leaf stratum, the stratum above it, and the
    strata started after them. *)
Lemma HashTiles_strata (s : Service) (checkpoint : tlog.Tree)
      (K : Z) (db0 db1 : DB) (leaf st1 : Audit.stratum) :
  0 <= Audit.height s < 63 ->
  0 <= tlog.N checkpoint < 2 ^ 63 ->
  Audit.getLevelsForLeafCount (Audit.height s) (tlog.N checkpoint) = Ok K ->
  1 <= K ->
  Audit.hashLeafLevel RecordHash s (tlog.N checkpoint / 2 ^ Audit.height s)
                      (Audit.localDB s) = (db0, leaf) ->
  Audit.hashUpperLevel s 1
    (tlog.N checkpoint / 2 ^ Audit.height s / 2 ^ Audit.height s)
    (Audit.emitted leaf) db0 = (db1, st1) ->
  exists db' more,
    Audit.HashTiles RecordHash s checkpoint
    = (db', Audit.wrap Audit.ErrFailedToHash
              (Audit.Wait (2 ^ Audit.height s) (leaf :: st1 :: more))).
Proof.
  intros Hh HN HK HK1 Hleaf Hst1.
  set (h := Audit.height s) in *. set (N := tlog.N checkpoint) in *.
  pose proof (strata_height h N K Hh HN HK HK1) as Hh31.
  assert (Hw : 0 < 2 ^ h) by (apply Z.pow_pos_nonneg; lia).
  assert (Hw63 : 2 ^ h < 2 ^ 63) by (apply Z.pow_lt_mono_r; lia).
  pose proof (tileWidth_le h 31 ltac:(lia)) as Hw31.
  change (2 ^ 31) with 2147483648 in Hw31.
  set (w := 2 ^ h) in *.
  assert (Hchan : makechan (E := Audit.error) sizeofPointer w = Ok tt)
    by (apply makechan_ok; sizes).
  assert (Hq : 0 <= N / w <= N).
  { split; [apply Z.div_pos; lia|]. apply Z.div_le_upper_bound; [lia|]. nia. }
  assert (Hq2 : 0 <= N / w / w <= N).
  { split; [apply Z.div_pos; lia|]. apply Z.div_le_upper_bound; [lia|]. nia. }
  unfold Audit.HashTiles. fold h. fold N.
  rewrite tileWidth_ok by lia. fold w. cbn [Audit.bindS].
  unfold quo. replace (w =? 0) with false by (symmetry; apply Z.eqb_neq; lia).
  rewrite Z.quot_div_nonneg by lia. rewrite (i64_small (N / w)) by lia.
  cbn [Audit.bindS]. rewrite Hchan. cbn [Audit.bindS].
  rewrite Hleaf, HK. cbn [Audit.bindS].
  destruct (Z.to_nat K) as [|n] eqn:En; [lia|].
  cbn [Audit.upperLevels]. unfold quo.
  replace (w =? 0) with false by (symmetry; apply Z.eqb_neq; lia).
  rewrite Z.quot_div_nonneg by lia. rewrite (i64_small (N / w / w)) by lia.
  rewrite Hchan, Hst1.
  destruct (upperLevels_strata s w n ltac:(lia) Hchan (1 + 1) (N / w / w)
              (Audit.emitted st1) db1 ([leaf] ++ [st1])) as [db' [more Hrun]].
  rewrite Hrun. cbn [Audit.bindS app].
  exists db', more. reflexivity.
Qed.

(** [Wait] does not return when a stratum is stuck. *)
Lemma Wait_stuck (tileWidth : Z) (strata : list Audit.stratum) :
  Audit.stuck tileWidth strata = true ->
  isOk (Audit.wrap Audit.ErrFailedToHash (Audit.Wait tileWidth strata)) = false
  /\ isErr (Audit.wrap Audit.ErrFailedToHash (Audit.Wait tileWidth strata)) = false.
Proof.
  intros Hs. unfold Audit.Wait.
  destruct (find (fun st => isPanic (Audit.ended st)) strata) as [st|] eqn:Ef.
  - apply find_some in Ef. destruct Ef as [_ Ep].
    destruct (Audit.ended st); try discriminate Ep. split; reflexivity.
  - rewrite Hs. split; reflexivity.
Qed.

(** X20.  An upper stratum that stops early keeps [HashTiles] from
    returning.  The strata are goroutines joined by channels that hold
    [2^H] roots.  If the stratum above the leaves ends after it has
    received [r] roots, as it does on an error, while the leaf stratum has
    more than [r + 2^H] roots to send, the leaf stratum blocks on a send
    that nothing receives, [Wait] never returns, and [HashTiles] returns
    neither [nil] nor the error. *)
Theorem HashTiles_blocked_by_upper_failure (s : Service) (checkpoint : tlog.Tree)
        (K : Z) (db0 db1 : DB) (leaf st1 : Audit.stratum) :
  0 <= Audit.height s < 63 ->
  0 <= tlog.N checkpoint < 2 ^ 63 ->
  Audit.getLevelsForLeafCount (Audit.height s) (tlog.N checkpoint) = Ok K ->
  1 <= K ->
  Audit.hashLeafLevel RecordHash s (tlog.N checkpoint / 2 ^ Audit.height s)
                      (Audit.localDB s) = (db0, leaf) ->
  Audit.hashUpperLevel s 1
    (tlog.N checkpoint / 2 ^ Audit.height s / 2 ^ Audit.height s)
    (Audit.emitted leaf) db0 = (db1, st1) ->
  Z.of_nat (Audit.received st1) + 2 ^ Audit.height s
  < Z.of_nat (length (Audit.emitted leaf)) ->
  isOk (snd (Audit.HashTiles RecordHash s checkpoint)) = false
  /\ isErr (snd (Audit.HashTiles RecordHash s checkpoint)) = false.
Proof.
  intros Hh HN HK HK1 Hleaf Hst1 Hblock.
  destruct (HashTiles_strata s checkpoint K db0 db1 leaf st1 Hh HN HK HK1 Hleaf Hst1)
    as [db' [more Hrun]].
  rewrite Hrun. cbn [snd]. apply Wait_stuck.
  cbn [Audit.stuck]. unfold Audit.sendBlocks at 1.
  replace (Z.of_nat (Audit.received st1) + 2 ^ Audit.height s
           <? Z.of_nat (length (Audit.emitted leaf))) with true
    by (symmetry; apply Z.ltb_lt; exact Hblock).
  rewrite orb_true_r. reflexivity.
Qed.

(** The roots the leaf stratum sends are single roots. *)
Lemma hashLeafLevel_loop_single (s : Service) (n : nat) :
  forall (offset : Z) (db : DB) (sent : list Compact.Range),
    Forall (fun cr => exists x, Compact.Hashes cr = [x]) sent ->
    Forall (fun cr => exists x, Compact.Hashes cr = [x])
           (Audit.emitted (snd (Audit.hashLeafLevel_loop RecordHash s n offset db sent))).
Proof.
  induction n as [|n IH]; intros offset db sent Hsent.
  - exact Hsent.
  - cbn [Audit.hashLeafLevel_loop].
    destruct (match Audit.Tile db (Audit.height s) 0 offset with
              | Err e => if Audit.isNoRows e
                         then Audit.hashLeafTile RecordHash s db offset
                         else (db, Err e)
              | r => (db, r)
              end) as [db1 [hashes|e|p|]]; try exact Hsent.
    destruct (shlu (E := Audit.error) (u64z (u64z offset * 1)) (Audit.height s))
      as [begin|e|p|]; try exact Hsent.
    cbv zeta.
    destruct (Z.of_nat (length (Compact.Hashes
                (Audit.appendAll (Audit.rf s) (Compact.NewEmptyRange begin) hashes)))
              =? 1) eqn:E; [|exact Hsent].
    apply IH. apply Forall_app. split; [exact Hsent|].
    constructor; [|constructor].
    apply Z.eqb_eq in E.
    destruct (Compact.Hashes
                (Audit.appendAll (Audit.rf s) (Compact.NewEmptyRange begin) hashes))
      as [|x [|y l]]; cbn [length] in E; try lia.
    exists x. reflexivity.
Qed.

(** The loop over the slots of a tile that is not stored waits for ever
    when fewer roots come than the tile has slots. *)
Lemma gatherTile_starved (level offset : Z) (input : list Compact.Range) :
  Forall (fun cr => exists x, Compact.Hashes cr = [x]) input ->
  forall (n i : nat) (inHashes : list bytes) (tileHashBlob : bytes),
    (length input < n)%nat ->
    (i + length input <= length inHashes)%nat ->
    Audit.gatherTile level offset None n i input inHashes tileHashBlob
    = ([], Hang).
Proof.
  induction 1 as [|cr input [x Hx] _ IH]; intros n i inHashes blob Hn Hi.
  - destruct n as [|n]; [cbn [length] in Hn; lia|]. reflexivity.
  - destruct n as [|n]; [cbn [length] in Hn; lia|].
    cbn [Audit.gatherTile]. rewrite Hx. cbn [index nth_error bind].
    cbn [length] in *.
    destruct (setAt (E := Audit.error) inHashes i x) as [inHashes'| | |] eqn:Es;
      try (unfold setAt in Es;
           destruct (i <? length inHashes)%nat eqn:Ei;
           [discriminate Es | apply Nat.ltb_ge in Ei; lia]).
    cbn [bind]. apply IH; [lia|].
    rewrite (setAt_length _ _ _ _ Es). lia.
Qed.

(** X21.  A failure in the leaf stratum is not reported when a stratum
    above it waits.  On a tree with strata above the leaves, if the leaf
    stratum ends with an error, a failure of the store among them, before
    it has sent the [2^H] roots of the first tile above it, and that tile
    is not stored yet, the stratum above receives the roots sent and then
    waits for ever for the next; [Wait] never returns, and [HashTiles]
    returns neither [nil] nor the error. *)
Theorem HashTiles_blocked_by_leaf_failure (s : Service) (checkpoint : tlog.Tree)
        (K : Z) (db0 : DB) (leaf : Audit.stratum) (e : Audit.error) :
  1 <= Audit.height s < 58 ->
  0 <= tlog.N checkpoint < 2 ^ 63 ->
  Audit.getLevelsForLeafCount (Audit.height s) (tlog.N checkpoint) = Ok K ->
  1 <= K ->
  Audit.hashLeafLevel RecordHash s (tlog.N checkpoint / 2 ^ Audit.height s)
                      (Audit.localDB s) = (db0, leaf) ->
  Audit.ended leaf = Err e ->
  Z.of_nat (length (Audit.emitted leaf)) < 2 ^ Audit.height s ->
  Audit.Tile db0 (Audit.height s) 1 0 = Err Audit.ErrNoRows ->
  isOk (snd (Audit.HashTiles RecordHash s checkpoint)) = false
  /\ isErr (snd (Audit.HashTiles RecordHash s checkpoint)) = false.
Proof.
  intros Hh HN HK HK1 Hleaf Hended Hfew Hnone.
  set (h := Audit.height s) in *. set (N := tlog.N checkpoint) in *.
  pose proof (strata_height h N K ltac:(lia) HN HK HK1) as Hh31.
  assert (Hw : 0 < 2 ^ h) by (apply Z.pow_pos_nonneg; lia).
  pose proof (tileWidth_le h 31 ltac:(lia)) as Hw31.
  change (2 ^ 31) with 2147483648 in Hw31.
  destruct (getLevelsForLeafCount_bounds h N ltac:(lia) HN)
    as [K' [HK' [_ [_ Hlo]]]].
  rewrite HK in HK'. injection HK' as <-.
  specialize (Hlo ltac:(lia)).
  assert (Hbig : 2 ^ h * 2 ^ h <= N).
  { rewrite <- Z.pow_add_r by lia. eapply Z.le_trans; [|exact Hlo].
    apply Z.pow_le_mono_r; nia. }
  set (w := 2 ^ h) in *.
  assert (Hc1 : 1 <= N / w / w).
  { apply Z.div_le_lower_bound; [lia|]. apply Z.div_le_lower_bound; lia. }
  assert (Hsingle : Forall (fun cr => exists x, Compact.Hashes cr = [x])
                           (Audit.emitted leaf)).
  { pose proof (hashLeafLevel_loop_single s (Z.to_nat (N / w)) 0
                  (Audit.localDB s) [] (Forall_nil _)) as Hs.
    unfold Audit.hashLeafLevel in Hleaf. fold h in Hleaf. fold w in Hleaf.
    rewrite Hleaf in Hs. exact Hs. }
  assert (Hst1 : Audit.hashUpperLevel s 1 (N / w / w) (Audit.emitted leaf) db0
                 = (db0, Audit.mkStratum [] (length (Audit.emitted leaf)) Hang)).
  { unfold Audit.hashUpperLevel. fold h.
    rewrite tileWidth_ok by lia. fold w.
    change Audit.HashLenBytes with 32.
    rewrite (i64_small (w * 32)) by lia.
    rewrite !make_ok by sizes.
    destruct (Z.to_nat (N / w / w)) as [|n] eqn:En; [lia|].
    cbn [Audit.hashUpperLevel_loop]. fold h. rewrite Hnone.
    cbn [Audit.isNoRows].
    rewrite (gatherTile_starved 1 0 (Audit.emitted leaf) Hsingle)
      by (rewrite ?repeat_length; lia).
    cbn [length Nat.add]. rewrite Nat.sub_0_r. reflexivity. }
  destruct (HashTiles_strata s checkpoint K db0 db0 leaf _
              ltac:(fold h; lia) HN HK HK1 Hleaf Hst1) as [db' [more Hrun]].
  rewrite Hrun. cbn [snd]. apply Wait_stuck.
  cbn [Audit.stuck Audit.ended]. rewrite !orb_true_r. reflexivity.
Qed.

End UpperLevel.
(** X19 on the hashed store of the log of 18 leaves with the stored tile
    of level 1 changed in slot 2; the run of [HashTiles] on it ends with
    this error. *)
Lemma hashUpperLevel_detects_witness :
  let s := Audit.demoService Audit.demoTampered in
  let input := Audit.emitted
                 (snd (Audit.hashLeafLevel Audit.stubRecordHash s 4 Audit.demoTampered)) in
  Audit.hashUpperLevel_loop s 1 4 1 0 Audit.demoTampered
    (firstn 2 input ++ nth 2 input (Compact.NewEmptyRange 0) :: skipn 3 input)
    0 (repeat [] 4) (repeat x00 128) []
  = (Audit.demoTampered,
     Audit.mkStratum [] (0 + (length (firstn 2 input) + 1))
       (Err (Audit.ErrHashDifference 1 0 (Z.of_nat (length (firstn 2 input))))))
  /\ Audit.HashTiles Audit.stubRecordHash s Audit.demoCheckpoint
     = (Audit.demoTampered,
        Err (Audit.ErrFailedToHash (Audit.ErrHashDifference 1 0 2))).
Proof.
  intros s input. split; [|vm_compute; reflexivity].
  destruct (Audit.Tile Audit.demoTampered 2 1 0) as [stored| | |] eqn:Et;
    try (vm_compute in Et; discriminate Et).
  destruct (Compact.Hashes (nth 2 input (Compact.NewEmptyRange 0))) as [|h t] eqn:Eh;
    [vm_compute in Eh; discriminate Eh|].
  destruct (nth_error stored (length (firstn 2 input))) as [d|] eqn:Ed;
    [|vm_compute in Et; injection Et as <-; vm_compute in Ed; discriminate Ed].
  apply (hashUpperLevel_detects s 1 4 0 0 Audit.demoTampered (firstn 2 input)
           (nth 2 input (Compact.NewEmptyRange 0)) (skipn 3 input) 0
           (repeat [] 4) (repeat x00 128) [] stored h d t).
  - exact Et.
  - reflexivity.
  - vm_compute. lia.
  - vm_compute in Et. injection Et as <-.
    intros k c Hk. destruct k as [|[|k]].
    + vm_compute in Hk. injection Hk as <-. eexists. eexists.
      split; vm_compute; reflexivity.
    + vm_compute in Hk. injection Hk as <-. eexists. eexists.
      split; vm_compute; reflexivity.
    + vm_compute in Hk. destruct k; discriminate Hk.
  - exact Eh.
  - exact Ed.
  - vm_compute in Et. injection Et as <-.
    vm_compute in Eh. injection Eh as <- <-.
    vm_compute in Ed. injection Ed as <-. discriminate.
Defined.

(** X20 on the hashed store of the log of 16 leaves with the first stored
    tile of level 1 changed in slot 0: the stratum above the leaves ends
    after one root, the leaf stratum has eight to send, and a channel
    holds two. *)
Lemma HashTiles_blocked_by_upper_failure_witness :
  Audit.ended (snd (Audit.hashUpperLevel (Audit.service16 Audit.tampered16) 1 4
                      (Audit.emitted
                         (snd (Audit.hashLeafLevel Audit.stubRecordHash
                                 (Audit.service16 Audit.tampered16) 8
                                 Audit.tampered16)))
                      Audit.tampered16))
  = Err (Audit.ErrHashDifference 1 0 0)
  /\ isOk (snd (Audit.HashTiles Audit.stubRecordHash
                  (Audit.service16 Audit.tampered16) Audit.checkpoint16)) = false
  /\ isErr (snd (Audit.HashTiles Audit.stubRecordHash
                   (Audit.service16 Audit.tampered16) Audit.checkpoint16)) = false.
Proof.
  split; [vm_compute; reflexivity|].
  destruct (Audit.hashLeafLevel Audit.stubRecordHash
              (Audit.service16 Audit.tampered16) 8 Audit.tampered16)
    as [db0 leaf] eqn:El.
  destruct (Audit.hashUpperLevel (Audit.service16 Audit.tampered16) 1 4
              (Audit.emitted leaf) db0) as [db1 st1] eqn:Eu.
  apply (HashTiles_blocked_by_upper_failure Audit.stubRecordHash
           (Audit.service16 Audit.tampered16) Audit.checkpoint16 3 db0 db1 leaf st1).
  - simpl. lia.
  - simpl. lia.
  - reflexivity.
  - lia.
  - exact El.
  - exact Eu.
  - vm_compute in El. injection El as <- <-.
    vm_compute in Eu. injection Eu as <- <-.
    vm_compute. reflexivity.
Defined.

(** X21 on the cloned store of the log of 18 leaves, opened read-only:
    the leaf stratum fails to store its first tile, and the run does not
    return. *)
Lemma HashTiles_blocked_by_leaf_failure_witness :
  Audit.ended (snd (Audit.hashLeafLevel Audit.stubRecordHash
                      (Audit.NewService Audit.stubNodeHash
                         (Audit.mkReadOnly Audit.demoCloned) Audit.demoLog 2)
                      4 (Audit.mkReadOnly Audit.demoCloned)))
  = Err (Audit.ErrStore "read-only")
  /\ isOk (snd (Audit.HashTiles Audit.stubRecordHash
                  (Audit.NewService Audit.stubNodeHash
                     (Audit.mkReadOnly Audit.demoCloned) Audit.demoLog 2)
                  Audit.demoCheckpoint)) = false
  /\ isErr (snd (Audit.HashTiles Audit.stubRecordHash
                   (Audit.NewService Audit.stubNodeHash
                      (Audit.mkReadOnly Audit.demoCloned) Audit.demoLog 2)
                   Audit.demoCheckpoint)) = false.
Proof.
  split; [vm_compute; reflexivity|].
  apply (HashTiles_blocked_by_leaf_failure Audit.stubRecordHash
           (Audit.NewService Audit.stubNodeHash
              (Audit.mkReadOnly Audit.demoCloned) Audit.demoLog 2)
           Audit.demoCheckpoint 1 (Audit.mkReadOnly Audit.demoCloned)
           (Audit.mkStratum [] 0 (Err (Audit.ErrStore "read-only")))
           (Audit.ErrStore "read-only")).
  - simpl. lia.
  - simpl. lia.
  - reflexivity.
  - lia.
  - vm_compute. reflexivity.
  - reflexivity.
  - simpl. lia.
  - reflexivity.
Defined.

(** ** What the root check reads *)

Section Fringe.

Context {DB SumDB : Type} {store : Audit.LocalStore DB}
        {remote : Audit.RemoteLog SumDB}.
Variable RecordHash : bytes -> bytes.

Let Service := @Audit.Service DB SumDB.

(** The same service on another store. *)
Let onStore (s : Service) (db : DB) : Service :=
  Audit.mkService db (Audit.sumDB s) (Audit.rf s) (Audit.height s).

(** The loop over the tiles of a stratum depends on the tiles it reads
    only. *)
Lemma tileLoop_reads (s : Service) (db' : DB) (level tileLeafCount : Z) (n : nat) :
  forall (offset : Z) (logRange : Compact.Range),
    (forall o, offset <= o < offset + Z.of_nat n ->
       Audit.Tile (Audit.localDB s) (Audit.height s) level o
       = Audit.Tile db' (Audit.height s) level o) ->
    Audit.tileLoop s level tileLeafCount n offset logRange
    = Audit.tileLoop (onStore s db') level tileLeafCount n offset logRange.
Proof.
  induction n as [|n IH]; intros offset logRange Hsame; [reflexivity|].
  cbn [Audit.tileLoop]. unfold onStore. cbn [Audit.localDB Audit.height Audit.rf].
  rewrite <- (Hsame offset) by lia.
  destruct (Audit.Tile (Audit.localDB s) (Audit.height s) level offset)
    as [tHashes|e|p|]; cbn [Audit.wrap bind]; try reflexivity.
  destruct (Compact.NewRange (u64z (u64z offset * tileLeafCount))
              (u64z (u64z (offset + 1) * tileLeafCount))
              (Compact.Hashes (Audit.appendAll (Audit.rf s)
                                 (Compact.NewEmptyRange 0) tHashes)))
    as [treeRange|e|p|]; cbn [bind]; try reflexivity.
  apply IH. intros o Ho. apply Hsame. lia.
Qed.

(** A range that [NewRange] makes has the bounds it was given. *)
Lemma NewRange_bounds (b e : Z) (hashes : list bytes) (r : Compact.Range) :
  Compact.NewRange b e hashes = Ok r ->
  Compact.Begin r = b /\ Compact.End r = e.
Proof.
  unfold Compact.NewRange.
  generalize (Compact.cover 128 b e) as heights. intros heights.
  destruct (e <? b); [discriminate|].
  destruct (Nat.eqb (length hashes) (length heights)); [|discriminate].
  intros H. injection H as <-. split; reflexivity.
Qed.

(** When the loop over the tiles of a stratum returns, the range ends
    where the last tile ends. *)
Lemma tileLoop_end (s : Service) (level tileLeafCount : Z) (n : nat) :
  0 < tileLeafCount ->
  forall (offset : Z) (logRange r : Compact.Range),
    0 <= offset ->
    (offset + Z.of_nat n) * tileLeafCount < 2 ^ 63 ->
    Compact.End logRange = offset * tileLeafCount ->
    Audit.tileLoop s level tileLeafCount n offset logRange = Ok r ->
    Compact.End r = (offset + Z.of_nat n) * tileLeafCount.
Proof.
  intros Ht. induction n as [|n IH]; intros offset logRange r Ho Hb Hend Hrun.
  - cbn [Audit.tileLoop] in Hrun. injection Hrun as <-. rewrite Hend. f_equal. lia.
  - cbn [Audit.tileLoop] in Hrun.
    destruct (Audit.Tile (Audit.localDB s) (Audit.height s) level offset)
      as [tHashes|e|p|]; cbn [Audit.wrap bind] in Hrun; try discriminate Hrun.
    rewrite Nat2Z.inj_succ in Hb.
    rewrite (u64z_small offset), (u64z_small (offset + 1)) in Hrun by nia.
    rewrite !u64z_small in Hrun by nia.
    destruct (Compact.NewRange (offset * tileLeafCount)
                ((offset + 1) * tileLeafCount)
                (Compact.Hashes (Audit.appendAll (Audit.rf s)
                                   (Compact.NewEmptyRange 0) tHashes)))
      as [treeRange|e|p|] eqn:En; cbn [bind] in Hrun; try discriminate Hrun.
    destruct (NewRange_bounds _ _ _ _ En) as [Hb1 He1].
    destruct (appendRange_adjacent (Audit.rf s) logRange treeRange
                ltac:(rewrite Hb1, Hend; reflexivity)) as [_ He].
    rewrite (IH (offset + 1) _ r ltac:(lia) ltac:(nia)
                ltac:(rewrite He, He1; reflexivity) Hrun).
    f_equal. lia.
Qed.

(** The loop over the strata reads, in each stratum, the tiles that do
    not lie under a full tile of the stratum above. *)
Lemma levelLoop_reads (s : Service) (db' : DB) (checkpoint : tlog.Tree) (n : nat) :
  1 <= Audit.height s ->
  0 <= tlog.N checkpoint < 2 ^ 63 ->
  (forall level offset,
     0 <= level ->
     tlog.N checkpoint / 2 ^ ((level + 2) * Audit.height s) * 2 ^ Audit.height s
     <= offset ->
     Audit.Tile (Audit.localDB s) (Audit.height s) level offset
     = Audit.Tile db' (Audit.height s) level offset) ->
  forall (logRange : Compact.Range),
    (0 < Z.of_nat n -> 2 ^ (Z.of_nat n * Audit.height s) <= tlog.N checkpoint) ->
    Compact.End logRange
    = tlog.N checkpoint / 2 ^ ((Z.of_nat n + 1) * Audit.height s)
      * 2 ^ ((Z.of_nat n + 1) * Audit.height s) ->
    Audit.levelLoop s checkpoint n logRange
    = Audit.levelLoop (onStore s db') checkpoint n logRange.
Proof.
  intros Hh HN Hsame.
  induction n as [|n IH]; intros logRange Htop Hend; [reflexivity|].
  cbn [Audit.levelLoop]. unfold onStore. cbn [Audit.height].
  fold (onStore s db').
  set (h := Audit.height s) in *. set (N := tlog.N checkpoint) in *.
  set (shift := (Z.of_nat n + 1) * h).
  assert (Hshift : 0 <= shift) by (unfold shift; nia).
  specialize (Htop ltac:(lia)).
  replace (Z.of_nat (S n) * h) with shift in Htop by (unfold shift; lia).
  replace ((Z.of_nat (S n) + 1) * h) with (shift + h) in Hend
    by (unfold shift; lia).
  rewrite Z.pow_add_r in Hend by lia.
  assert (Hp : 0 < 2 ^ shift) by (apply Z.pow_pos_nonneg; lia).
  assert (Hw : 0 < 2 ^ h) by (apply Z.pow_pos_nonneg; lia).
  unfold shlu. destruct (shift <? 0) eqn:E; [apply Z.ltb_lt in E; lia|].
  cbn [bind]. rewrite shiftl_1 by lia.
  set (T := 2 ^ shift) in *.
  rewrite (u64z_small T) by lia. rewrite (u64z_small N) by lia.
  unfold quou. destruct (T =? 0) eqn:E0; [apply Z.eqb_eq in E0; lia|].
  cbn [bind].
  assert (HqT : 0 <= N / T) by (apply Z.div_pos; lia).
  assert (HqT' : N / T * T <= N)
    by (rewrite Z.mul_comm; apply Z.mul_div_le; lia).
  set (q := N / (T * 2 ^ h)) in *.
  assert (Hq : 0 <= q) by (apply Z.div_pos; nia).
  assert (Hq' : q * (T * 2 ^ h) <= N)
    by (rewrite Z.mul_comm; apply Z.mul_div_le; nia).
  assert (Hfirst : Compact.End logRange / T = q * 2 ^ h).
  { rewrite Hend. replace (q * (T * 2 ^ h)) with (q * 2 ^ h * T) by lia.
    apply Z.div_mul. lia. }
  assert (Hle : q * 2 ^ h <= N / T).
  { apply Z.div_le_lower_bound; [lia|]. nia. }
  rewrite Hfirst.
  rewrite (i64_small (N / T)) by nia.
  rewrite (i64_small (q * 2 ^ h)) by nia.
  assert (Hn2 : Z.of_nat (Z.to_nat (N / T - q * 2 ^ h)) = N / T - q * 2 ^ h)
    by (apply Z2Nat.id; lia).
  rewrite <- (tileLoop_reads s db' (Z.of_nat n) T).
  - destruct (Audit.tileLoop s (Z.of_nat n) T (Z.to_nat (N / T - q * 2 ^ h))
                (q * 2 ^ h) logRange) as [r1|e|p|] eqn:E1; cbn [bind];
      try reflexivity.
    apply IH.
    + intros Hn. eapply Z.le_trans; [|exact Htop].
      unfold T. apply Z.pow_le_mono_r; [lia|]. unfold shift. nia.
    + assert (He1 : Compact.End r1
                    = (q * 2 ^ h + Z.of_nat (Z.to_nat (N / T - q * 2 ^ h))) * T).
      { apply (tileLoop_end s (Z.of_nat n) T (Z.to_nat (N / T - q * 2 ^ h)) Hp
                 (q * 2 ^ h) logRange r1).
        - nia.
        - rewrite Hn2. nia.
        - rewrite Hend. ring.
        - exact E1. }
      rewrite He1, Hn2. fold shift. fold T. f_equal. lia.
  - intros o Ho. apply Hsame; [lia|].
    replace ((Z.of_nat n + 2) * h) with (shift + h) by (unfold shift; lia).
    rewrite Z.pow_add_r by lia. fold T. fold q. lia.
Qed.

(** X22.  [CheckRootHash] reads the right fringe of the tiles only.  In
    a stratum it starts at the tile where the range built from the strata
    above ends, so a tile that lies under a full tile of the stratum
    above, at an offset below [N / 2^((level+2)*H) * 2^H], is never read:
    on two stores that hold the same tiles everywhere else the root check
    gives the same result.  What is stored in such a tile has no bearing
    on the root that is compared with the checkpoint. *)
Theorem CheckRootHash_reads_the_fringe (s : Service) (db' : DB)
        (checkpoint : tlog.Tree) :
  1 <= Audit.height s < 63 ->
  0 <= tlog.N checkpoint < 2 ^ 63 ->
  (forall level offset,
     0 <= level ->
     tlog.N checkpoint / 2 ^ ((level + 2) * Audit.height s) * 2 ^ Audit.height s
     <= offset ->
     Audit.Tile (Audit.localDB s) (Audit.height s) level offset
     = Audit.Tile db' (Audit.height s) level offset) ->
  Audit.CheckRootHash RecordHash s checkpoint
  = Audit.CheckRootHash RecordHash
      (Audit.mkService db' (Audit.sumDB s) (Audit.rf s) (Audit.height s))
      checkpoint.
Proof.
  intros Hh HN Hsame.
  change (Audit.mkService db' (Audit.sumDB s) (Audit.rf s) (Audit.height s))
    with (onStore s db').
  unfold Audit.CheckRootHash, Audit.tiledRange, Audit.fetchStragglers,
    Audit.withStragglers, Audit.checkRange.
  unfold onStore. cbn [Audit.height Audit.sumDB Audit.rf].
  fold (onStore s db').
  destruct (getLevelsForLeafCount_bounds (Audit.height s) (tlog.N checkpoint)
              ltac:(lia) HN) as [K [HK [HKlo [Hup Hlo]]]].
  rewrite HK. cbn [bind].
  assert (Hn : Z.of_nat (Z.to_nat (K + 1)) = K + 1) by (apply Z2Nat.id; lia).
  rewrite <- (levelLoop_reads s db' checkpoint (Z.to_nat (K + 1))
                ltac:(lia) HN Hsame).
  - destruct (Audit.levelLoop s checkpoint (Z.to_nat (K + 1))
                (Compact.NewEmptyRange 0)) as [tiled|e|p|]; reflexivity.
  - rewrite Hn. intros HK0. apply Hlo. lia.
  - rewrite Hn. cbn [Compact.NewEmptyRange Compact.End].
    replace ((K + 1 + 1) * Audit.height s) with ((K + 2) * Audit.height s) by lia.
    rewrite Z.div_small by lia. reflexivity.
Qed.

End Fringe.
Lemma keyEqb_eq (a b : Z * Z * Z) : Audit.keyEqb a b = true -> a = b.
Proof.
  destruct a as [[a1 a2] a3], b as [[b1 b2] b3]. unfold Audit.keyEqb.
  intros H. apply andb_prop in H. destruct H as [H H3].
  apply andb_prop in H. destruct H as [H1 H2].
  apply Z.eqb_eq in H1, H2, H3. subst. reflexivity.
Qed.

(** Changing one tile of a store in memory leaves the others as they
    are. *)
Lemma Tile_tamperTile (m : Audit.MemStore) (key : Z * Z * Z)
      (height level offset : Z) :
  Audit.keyEqb key (height, level, offset) = false ->
  Audit.Tile (Audit.tamperTile m key) height level offset
  = Audit.Tile m height level offset.
Proof.
  intros Hne. cbn [Audit.Tile Audit.MemStore_LocalStore].
  assert (Hfind : Audit.memTile (Audit.tamperTile m key) (height, level, offset)
                  = Audit.memTile m (height, level, offset)).
  { unfold Audit.memTile, Audit.tamperTile. cbn [Audit.memTiles].
    induction (Audit.memTiles m) as [|row rows IH]; [reflexivity|].
    cbn [map find].
    destruct (Audit.keyEqb (fst row) key) eqn:Ek.
    - apply keyEqb_eq in Ek. cbn [fst]. rewrite Ek, Hne. exact IH.
    - destruct (Audit.keyEqb (fst row) (height, level, offset));
        [reflexivity|exact IH]. }
  rewrite Hfind. reflexivity.
Qed.

(** X22 on the hashed store of the log of 16 leaves: the leaf tile at
    offset 3 lies under the first tile of level 1, and the root check
    passes with its first hash changed. *)
Lemma CheckRootHash_reads_the_fringe_witness :
  Audit.Tile (Audit.tamperTile Audit.hashed16 (1, 0, 3)) 1 0 3
  <> Audit.Tile Audit.hashed16 1 0 3
  /\ Audit.CheckRootHash Audit.stubRecordHash
       (Audit.service16 (Audit.tamperTile Audit.hashed16 (1, 0, 3)))
       Audit.checkpoint16
     = Ok tt.
Proof.
  split; [vm_compute; discriminate|].
  change (Audit.service16 (Audit.tamperTile Audit.hashed16 (1, 0, 3)))
    with (Audit.mkService (Audit.tamperTile Audit.hashed16 (1, 0, 3))
            (Audit.sumDB (Audit.service16 Audit.hashed16))
            (Audit.rf (Audit.service16 Audit.hashed16))
            (Audit.height (Audit.service16 Audit.hashed16))).
  rewrite <- (CheckRootHash_reads_the_fringe Audit.stubRecordHash
                (Audit.service16 Audit.hashed16)
                (Audit.tamperTile Audit.hashed16 (1, 0, 3)) Audit.checkpoint16).
  - vm_compute. reflexivity.
  - simpl. lia.
  - simpl. lia.
  - intros level offset Hl Hb. symmetry. apply Tile_tamperTile.
    change (Audit.height (Audit.service16 Audit.hashed16)) with 1 in *.
    change (tlog.N Audit.checkpoint16) with 16 in Hb.
    unfold Audit.keyEqb. rewrite Z.eqb_refl. cbn [andb].
    destruct (Z.eqb_spec 0 level) as [<-|Hne]; [|reflexivity].
    change (16 / 2 ^ ((0 + 2) * 1) * 2 ^ 1) with 8 in Hb.
    cbn [andb]. apply Z.eqb_neq. lia.
Defined.

(** ** The empty tree *)

Section EmptyTree.

Context {DB SumDB : Type} {store : Audit.LocalStore DB}
        {remote : Audit.RemoteLog SumDB}.
Variable RecordHash : bytes -> bytes.

Let Service := @Audit.Service DB SumDB.

(** X23.  The root check of an empty tree.  For a checkpoint of no leaf
    [CheckRootHash] reads no tile and asks the SumDB for 0 stragglers at
    tile offset 0; the root of the empty range is [nil], so the hash that
    is compared with the checkpoint is 32 zero bytes: the call returns
    [nil] exactly when the hash of the checkpoint is all zeros. *)
Theorem CheckRootHash_empty_tree (s : Service) (checkpoint : tlog.Tree) :
  0 <= Audit.height s < 63 ->
  tlog.N checkpoint = 0 ->
  Audit.PartialLeavesAtOffset (Audit.sumDB s) 0 0 = Ok [] ->
  Audit.CheckRootHash RecordHash s checkpoint
  = (if bytes_eqb (repeat x00 32) (tlog.Hash checkpoint) then Ok tt
     else Err (Audit.ErrRootMismatch 0 [] (tlog.Hash checkpoint)))
  /\ (Audit.CheckRootHash RecordHash s checkpoint = Ok tt
      <-> tlog.Hash checkpoint = repeat x00 32).
Proof.
  intros Hh HN Hfetch.
  assert (Hw : 0 < 2 ^ Audit.height s) by (apply Z.pow_pos_nonneg; lia).
  assert (Hrun : Audit.CheckRootHash RecordHash s checkpoint
                 = (if bytes_eqb (repeat x00 32) (tlog.Hash checkpoint) then Ok tt
                    else Err (Audit.ErrRootMismatch 0 [] (tlog.Hash checkpoint)))).
  { unfold Audit.CheckRootHash, Audit.tiledRange. rewrite HN.
    destruct (getLevelsForLeafCount_edges (Audit.height s) 0) as [_ [Hsmall _]].
    rewrite Hsmall by lia. cbn [bind]. change (Z.to_nat (-1 + 1)) with 0%nat.
    cbn [Audit.levelLoop bind].
    unfold Audit.fetchStragglers. rewrite HN.
    cbn [Compact.NewEmptyRange Compact.End].
    rewrite tileWidth_ok by lia. cbn [bind].
    rewrite quo_small by lia. cbn [bind].
    change (i64 (u64z (u64z 0 - 0))) with 0. rewrite Hfetch.
    cbn [Audit.wrap bind]. unfold Audit.withStragglers, Audit.checkRange.
    cbn [map Audit.appendAll fold_left Compact.NewEmptyRange Compact.End].
    rewrite HN. change (0 =? u64z 0) with true. cbv iota.
    unfold Compact.GetRootHash.
    cbn [Compact.Begin Compact.Hashes Compact.roots map rev Z.eqb bind].
    reflexivity. }
  split; [exact Hrun|]. rewrite Hrun.
  destruct (bytes_eqb (repeat x00 32) (tlog.Hash checkpoint)) eqn:E.
  - apply bytes_eqb_eq in E. split; intros _; [symmetry; exact E|reflexivity].
  - split; [discriminate|]. intros Heq.
    assert (bytes_eqb (repeat x00 32) (tlog.Hash checkpoint) = true)
      by (apply bytes_eqb_eq; symmetry; exact Heq).
    congruence.
Qed.

End EmptyTree.

(** X23 on an empty log and a checkpoint of zeros. *)
Lemma CheckRootHash_empty_tree_witness :
  Audit.CheckRootHash Audit.stubRecordHash
    (Audit.NewService Audit.stubNodeHash Audit.emptyStore (Audit.mkLog [] 8) 8)
    (tlog.mkTree 0 (repeat x00 32))
  = Ok tt.
Proof.
  destruct (CheckRootHash_empty_tree Audit.stubRecordHash
              (Audit.NewService Audit.stubNodeHash Audit.emptyStore
                 (Audit.mkLog [] 8) 8)
              (tlog.mkTree 0 (repeat x00 32))) as [_ Hiff].
  - simpl. lia.
  - reflexivity.
  - reflexivity.
  - apply Hiff. reflexivity.
Defined.

(** ** Stored tiles that are too short *)

Section ShortTile.

Context {DB SumDB : Type} {store : Audit.LocalStore DB}
        {tiles : Audit.RemoteTiles SumDB}.

Let Service := @Audit.Service DB SumDB.

(** The loop over the slots indexes past the end of a stored tile that
    has fewer hashes than the tile has slots. *)
Lemma compareTile_short (level offset : Z) (localHashes sumDBHashes : list bytes) :
  forall (n i : nat),
    (i <= length localHashes < i + n)%nat ->
    (forall k, (i <= k < length localHashes)%nat ->
       exists l, nth_error localHashes k = Some l
                 /\ nth_error sumDBHashes k = Some (toHash l)) ->
    Audit.compareTile level offset localHashes sumDBHashes n i
    = Panic (IndexOutOfRange (Z.of_nat (length localHashes))
                             (Z.of_nat (length localHashes))).
Proof.
  induction n as [|n IH]; intros i Hi Hagree; [lia|].
  cbn [Audit.compareTile]. unfold index.
  destruct (Nat.eq_dec i (length localHashes)) as [->|Hne].
  - replace (nth_error localHashes (length localHashes)) with (@None bytes)
      by (symmetry; apply nth_error_None; lia).
    reflexivity.
  - destruct (Hagree i ltac:(lia)) as [l [Hl Hr]].
    rewrite Hl, Hr. cbn [bind].
    assert (Eb : bytes_eqb (toHash l) (toHash l) = true)
      by (apply bytes_eqb_eq; reflexivity).
    rewrite Eb. apply IH; [lia|]. intros k Hk. apply Hagree. lia.
Qed.

(** X24.  [VerifyTiles] takes a stored tile to have [2^H] hashes.  When
    the strata below pass, the tiles before it agree with the SumDB and
    the stored tile at [(level, offset)] has fewer than [2^H] hashes, all
    equal to those of the SumDB, the comparison indexes past the end of
    the stored tile: the run panics and reports nothing. *)
Theorem VerifyTiles_short_tile_panics (fuel : nat) (s : Service)
        (checkpoint : tlog.Tree) (K level offset : Z)
        (localHashes sumDBHashes : list bytes) :
  0 <= Audit.height s < 63 ->
  Z.of_nat fuel < 2 ^ 63 ->
  Audit.getLevelsForLeafCount (Audit.height s) (tlog.N checkpoint) = Ok K ->
  0 <= level <= K ->
  (forall below, 0 <= below < level ->
     exists m, 0 <= m < Z.of_nat fuel /\ Audit.agreesUpTo s below m) ->
  0 <= offset < Z.of_nat fuel ->
  Audit.tilesAgree s level offset ->
  Audit.Tile (Audit.localDB s) (Audit.height s) level offset = Ok localHashes ->
  Audit.TileHashes (Audit.sumDB s) level offset = Ok sumDBHashes ->
  Z.of_nat (length localHashes) < 2 ^ Audit.height s ->
  Audit.slotsAgree localHashes sumDBHashes (Z.of_nat (length localHashes)) ->
  Audit.VerifyTiles fuel s checkpoint
  = Panic (IndexOutOfRange (Z.of_nat (length localHashes))
                           (Z.of_nat (length localHashes))).
Proof.
  intros Hh Hf HK HL Hbelow Ho Hbefore Ht Hr Hshort Hslots.
  assert (Hw : 0 < 2 ^ Audit.height s) by (apply Z.pow_pos_nonneg; lia).
  assert (Hlevel : forall (f : nat) (o : Z),
             0 <= o <= offset -> offset < o + Z.of_nat f -> o + Z.of_nat f < 2 ^ 63 ->
             Audit.verifyLevel s level f o
             = Panic (IndexOutOfRange (Z.of_nat (length localHashes))
                                      (Z.of_nat (length localHashes)))).
  { induction f as [|f IH]; intros o Hor Hlt Hb; [lia|].
    cbn [Audit.verifyLevel].
    unfold shl.
    replace (Audit.height s <? 0) with false by (symmetry; apply Z.ltb_ge; lia).
    rewrite shiftl_1 by lia.
    rewrite (i64_small (2 ^ Audit.height s))
      by (split; [lia|apply Z.pow_lt_mono_r; lia]).
    destruct (Z.eq_dec o offset) as [->|Hneo].
    - rewrite Ht, Hr. cbn [bind].
      rewrite (compareTile_short level offset localHashes sumDBHashes);
        [reflexivity|lia|].
      intros k Hk. apply Hslots. lia.
    - destruct (Hbefore o ltac:(lia)) as [lh [rh [Hlh [Hrh Hag]]]].
      rewrite Hlh, Hrh. cbn [bind].
      apply (proj2 (slotsAgree_compare (Audit.height s) level o _ _
                      ltac:(lia))) in Hag.
      rewrite Hag. cbn [bind].
      rewrite (i64_small (o + 1)) by lia.
      apply IH; lia. }
  unfold Audit.VerifyTiles. rewrite HK.
  assert (Hlevels : forall (n : nat) (lv : Z),
             0 <= lv <= level -> level < lv + Z.of_nat n ->
             Audit.verifyLevels s fuel n lv
             = Panic (IndexOutOfRange (Z.of_nat (length localHashes))
                                      (Z.of_nat (length localHashes)))).
  { induction n as [|n IH]; intros lv Hlv Hlt; [lia|].
    cbn [Audit.verifyLevels].
    destruct (Z.eq_dec lv level) as [->|Hnel].
    - rewrite Hlevel by lia. reflexivity.
    - destruct (Hbelow lv ltac:(lia)) as [m Hm].
      assert (Hv : Audit.verifyLevel s lv fuel 0 = Ok tt).
      { apply (verifyLevel_agreesUpTo s lv fuel Hh Hf). exists m. exact Hm. }
      rewrite Hv. cbn [bind]. apply IH; lia. }
  apply Hlevels; [lia|]. rewrite Z2Nat.id by lia. lia.
Qed.

End ShortTile.
(** X24 on the hashed store of the log of 18 leaves with the stored leaf
    tile at offset 1 cut down to three hashes. *)
Lemma VerifyTiles_short_tile_panics_witness :
  Audit.VerifyTiles 5 (Audit.demoService Audit.demoTruncated) Audit.demoCheckpoint
  = Panic (IndexOutOfRange 3 3).
Proof.
  destruct (Audit.Tile Audit.demoTruncated 2 0 1) as [localHashes| | |] eqn:Et;
    try (vm_compute in Et; discriminate Et).
  destruct (Audit.TileHashes Audit.demoLog 0 1) as [sumDBHashes| | |] eqn:Er;
    try (vm_compute in Er; discriminate Er).
  assert (Hlen : length localHashes = 3%nat).
  { vm_compute in Et. injection Et as <-. reflexivity. }
  assert (H : Audit.VerifyTiles 5 (Audit.demoService Audit.demoTruncated)
                Audit.demoCheckpoint
              = Panic (IndexOutOfRange (Z.of_nat (length localHashes))
                                       (Z.of_nat (length localHashes))));
    [|rewrite Hlen in H; exact H].
  apply (VerifyTiles_short_tile_panics 5 (Audit.demoService Audit.demoTruncated)
           Audit.demoCheckpoint 1 0 1 localHashes sumDBHashes).
  - simpl. lia.
  - simpl. lia.
  - reflexivity.
  - lia.
  - intros below Hb. lia.
  - simpl. lia.
  - intros offset Ho. assert (offset = 0) by lia. subst offset.
    eexists. eexists. split; [vm_compute; reflexivity|].
    split; [vm_compute; reflexivity|].
    intros i Hi. destruct i as [|[|[|[|i]]]];
      [| | | |change (Audit.height (Audit.demoService Audit.demoTruncated)) with 2 in Hi;
              change (2 ^ 2) with 4 in Hi; lia];
      eexists; split; vm_compute; reflexivity.
  - exact Et.
  - exact Er.
  - rewrite Hlen. simpl. lia.
  - rewrite Hlen. vm_compute in Et. injection Et as <-.
    vm_compute in Er. injection Er as <-.
    intros i Hi. destruct i as [|[|[|i]]]; [| | |lia];
      eexists; split; vm_compute; reflexivity.
Defined.
